(** * shiny-plan9: the /dev/draw driver of Shiny (package devdrawdriver)

    A shallow embedding of the parts of the driver that carry its protocol
    and algorithmic work, and the properties established about them:

    - [LZ77]    : lz77.go     (getLargestPrefix, compress)
    - [DrawCtl] : drawctl.go  (sendMessage, AllocScreen, FreeScreen,
                               ReallocScreen, AllocBuffer, FreeID, setOp, Draw,
                               compressedReplaceSubimage, ReplaceSubimage,
                               ReadSubimage)
    - [Mouse]   : wctl.go     (the button-mask translation of mouseEventHandler)
    - [Blit]    : uploadimpl.go (Release, Fill, newUploadImpl, affineTransform,
                               windowImpl.Draw, DrawUniform)
    - [Screen]  : the screen  (repositionWindow, redrawWindow, reAttachWindow)

    Conventions.  A Go [int] is modelled by [Z]; every conversion to a
    fixed-width unsigned type ([byte]/[uint8], [uint16], [uint32]) is written
    out as a reduction modulo the width.  A byte slice is a [list Z].  Code
    that can panic returns a [Go.result].

    Arithmetic on [int] is written in [Z], without the wrap-around of the
    machine integer: a definition computes what the code computes as long
    as the values of the code stay within the range of [int].  The results
    on the sizes
    the code multiplies ([ReplaceSubimage], [compressedReplaceSubimage],
    [ReadSubimage]) keep them there by their hypotheses: the byte size of a
    rectangle is bounded by the length of a buffer, by the transfer unit or
    by [maxInt32]. *)

From Stdlib Require Import ZArith List Bool Lia Ascii FinFun SpecFloat.
Import ListNotations.
Open Scope Z_scope.

(* ================================================================== *)
(** * Go run-time conventions shared by all components *)
(* ================================================================== *)

Module Go.

(** Outcome of running a piece of Go code: a value, a run-time panic
    (index or slice bounds out of range, an explicit [panic]), or the loop
    bound of the model being exhausted (the Go loop would still be running). *)
Inductive result (A : Type) : Type :=
| Ok (a : A)
| Panic
| OutOfFuel.

Arguments Ok {A} a.
Arguments Panic {A}.
Arguments OutOfFuel {A}.

Definition bind {A B : Type} (c : result A) (k : A -> result B) : result B :=
  match c with
  | Ok a => k a
  | Panic => Panic
  | OutOfFuel => OutOfFuel
  end.

(** [len(s)] *)
Definition len {A : Type} (s : list A) : Z := Z.of_nat (length s).

(** [s[i]] on a byte slice: panics outside [0, len(s)). *)
Definition index (s : list Z) (i : Z) : result Z :=
  if (0 <=? i) && (i <? len s) then Ok (nth (Z.to_nat i) s 0) else Panic.

(** [s[lo:hi]] on a slice whose capacity is its length: panics unless
    [0 <= lo <= hi <= len(s)]. *)
Definition slice {A : Type} (s : list A) (lo hi : Z) : result (list A) :=
  if (0 <=? lo) && (lo <=? hi) && (hi <=? len s)
  then Ok (firstn (Z.to_nat (hi - lo)) (skipn (Z.to_nat lo) s))
  else Panic.

(** [s[lo:]] *)
Definition sliceFrom {A : Type} (s : list A) (lo : Z) : result (list A) :=
  slice s lo (len s).

(** Conversions to fixed-width unsigned integers. *)
Definition uint8 (z : Z) : Z := z mod 256.
Definition uint16 (z : Z) : Z := z mod 65536.
Definition uint32 (z : Z) : Z := z mod 4294967296.

End Go.

Declare Scope go_scope.
Notation "x <- c ;; k" := (Go.bind c (fun x => k))
  (at level 61, c at next level, right associativity) : go_scope.
Notation "' p <- c ;; k" := (Go.bind c (fun x => match x with p => k end))
  (at level 61, p pattern, c at next level, right associativity) : go_scope.
Open Scope go_scope.

(* ================================================================== *)
(** * lz77.go *)
(* ================================================================== *)

Module LZ77.
Import Go.

(** The two locals [candidateIdx uint16] and [candidateSize uint8] of
    [getLargestPrefix]. *)
Record candidate : Type := MkCandidate { candidateIdx : Z; candidateSize : Z }.

(** How a loop body of [getLargestPrefix] is left: by falling out of the
    loop ([Next], also after [break]) or by the [return] inside it. *)
Inductive flow : Type :=
| Next (c : candidate)
| Return (c : candidate).

(** The inner loop [for j, val := range pix[idx : idx+34]], entered at
    position [j] with [window] the not yet visited part of the slice. *)
Fixpoint matchLoop (pix : list Z) (i : Z) (window : list Z) (j : Z)
  (c : candidate) : result flow :=
  match window with
  | [] => Ok (Next c)
  | val :: window' =>
      if i + j >=? len pix then Ok (Next c)
      else
        b <- index pix (i + j) ;;
        if val =? b then
          let c' := if j >? candidateSize c
                    then MkCandidate (uint16 i) (uint8 j)
                    else c in
          if candidateSize c' =? 34 then Ok (Return c')
          else matchLoop pix i window' (j + 1) c'
        else Ok (Next c)
  end.

(** The outer loop [for i := int(idx - 34); i >= 0 && (idx-i < 128); i--]. *)
Fixpoint scanLoop (fuel : nat) (pix : list Z) (idx i : Z) (c : candidate)
  : result flow :=
  match fuel with
  | O => OutOfFuel
  | S fuel' =>
      if (i >=? 0) && (idx - i <? 128) then
        a <- index pix i ;;
        b <- index pix idx ;;
        if a =? b then
          if idx + 34 >=? len pix then Ok (Next c)
          else
            window <- slice pix idx (idx + 34) ;;
            r <- matchLoop pix i window 0 c ;;
            match r with
            | Return c' => Ok (Return c')
            | Next c' => scanLoop fuel' pix idx (i - 1) c'
            end
        else scanLoop fuel' pix idx (i - 1) c
      else Ok (Next c)
  end.

(** [func getLargestPrefix(pix []byte, idx int) (uint16, uint8)].  The outer
    loop runs at most 94 times ([i] from [idx-34] down to [idx-127]). *)
Definition getLargestPrefix (pix : list Z) (idx : Z) : result (Z * Z) :=
  r <- scanLoop 128 pix idx (idx - 34) (MkCandidate 0 0) ;;
  match r with
  | Return c => Ok (candidateIdx c, candidateSize c)
  | Next c =>
      if candidateSize c >? 2 then Ok (candidateIdx c, candidateSize c)
      else Ok (0, 0)
  end.

(** The two bytes of a back-reference token, as [compress] builds them from
    the current position [i] and the result [(idx, size)] of
    [getLargestPrefix]. *)
Definition backref (i idx size : Z) : list Z :=
  let encoding0 := uint8 (Z.shiftl (uint8 (size - 3)) 2) in
  let encodedOffset := uint16 (uint16 (i - idx) - 1) in
  let encoding0' :=
    Z.lor encoding0 (uint8 (Z.shiftr (Z.land encodedOffset 768) 8)) in
  let encoding1 := uint8 (Z.land encodedOffset 255) in
  [encoding0'; encoding1].

(** The loop [for i := 0; i < len(pix); { ... }] of [compress]. *)
Fixpoint compressLoop (fuel : nat) (pix : list Z) (i : Z) (val : list Z)
  : result (list Z) :=
  match fuel with
  | O => OutOfFuel
  | S fuel' =>
      if i <? len pix then
        '(idx, size) <- getLargestPrefix pix i ;;
        if size >? 2 then
          compressLoop fuel' pix (i + size) (val ++ backref i idx size)
        else
          let left := len pix - i in
          if left >=? 128 then
            lit <- slice pix i (i + 128) ;;
            compressLoop fuel' pix (i + 128) ((val ++ [255]) ++ lit)
          else
            lit <- slice pix i (i + left) ;;
            compressLoop fuel' pix (i + left)
              ((val ++ [Z.lor 128 (uint8 (left - 1))]) ++ lit)
      else Ok val
  end.

(** [func compress(pix []byte) []byte].  Every iteration advances [i] by at
    least one, so [len(pix)] iterations (plus the final test) suffice. *)
Definition compress (pix : list Z) : result (list Z) :=
  compressLoop (S (length pix)) pix 0 [].

(** ** The token grammar of image(6), as the specification words it

    A reference decoder, written from the grammar and not from the Go code
    (the driver has no decoder; the draw device is the one decoding).
    - first byte with the high bit clear: a two-byte back-reference; the next
      5 bits encode the match length minus 3, the low two bits and the second
      byte encode the backward distance minus 1; that many previously decoded
      bytes are copied, one at a time;
    - first byte with the high bit set: a literal run; the low 7 bits encode
      the run length minus 1, and that many raw bytes follow. *)

Fixpoint copyBack (n : nat) (dist : Z) (out : list Z) : option (list Z) :=
  match n with
  | O => Some out
  | S n' =>
      if (1 <=? dist) && (dist <=? len out)
      then copyBack n' dist (out ++ [nth (Z.to_nat (len out - dist)) out 0])
      else None
  end.

Fixpoint decodeLoop (fuel : nat) (inp out : list Z) : option (list Z) :=
  match fuel with
  | O => None
  | S fuel' =>
      match inp with
      | [] => Some out
      | h :: rest =>
          if Z.testbit h 7 then
            let n := Z.land h 127 + 1 in
            if n <=? len rest
            then decodeLoop fuel' (skipn (Z.to_nat n) rest)
                   (out ++ firstn (Z.to_nat n) rest)
            else None
          else
            match rest with
            | [] => None
            | b :: rest' =>
                let length := Z.land (Z.shiftr h 2) 31 + 3 in
                let dist := Z.lor (Z.shiftl (Z.land h 3) 8) b + 1 in
                match copyBack (Z.to_nat length) dist out with
                | Some out' => decodeLoop fuel' rest' out'
                | None => None
                end
            end
      end
  end.

Definition decode (inp : list Z) : option (list Z) :=
  decodeLoop (S (length inp)) inp [].

(** ** Facts about slices *)

Lemma len_nonneg {A : Type} (s : list A) : 0 <= len s.
Proof. unfold len; lia. Qed.

Lemma len_app {A : Type} (s t : list A) : len (s ++ t) = len s + len t.
Proof. unfold len; rewrite length_app; lia. Qed.

Lemma len_cons {A : Type} (a : A) (s : list A) : len (a :: s) = 1 + len s.
Proof. unfold len; simpl length; lia. Qed.

Lemma index_in_range (s : list Z) (i : Z) :
  0 <= i < len s -> index s i = Ok (nth (Z.to_nat i) s 0).
Proof.
  intros H. unfold index.
  replace (0 <=? i) with true by (symmetry; apply Z.leb_le; lia).
  replace (i <? len s) with true by (symmetry; apply Z.ltb_lt; lia).
  reflexivity.
Qed.

Lemma slice_in_range {A : Type} (s : list A) (lo hi : Z) :
  0 <= lo <= hi -> hi <= len s ->
  slice s lo hi = Ok (firstn (Z.to_nat (hi - lo)) (skipn (Z.to_nat lo) s)).
Proof.
  intros H1 H2. unfold slice.
  replace (0 <=? lo) with true by (symmetry; apply Z.leb_le; lia).
  replace (lo <=? hi) with true by (symmetry; apply Z.leb_le; lia).
  replace (hi <=? len s) with true by (symmetry; apply Z.leb_le; lia).
  reflexivity.
Qed.

Lemma firstn_extend {A : Type} (s : list A) (a b : nat) :
  firstn a s ++ firstn b (skipn a s) = firstn (a + b) s.
Proof.
  revert s. induction a as [|a IH]; intros s.
  - reflexivity.
  - destruct s as [|x s].
    + simpl. now rewrite firstn_nil.
    + simpl. now rewrite IH.
Qed.

Lemma geb_lt (n m : Z) : n < m -> (n >=? m) = false.
Proof. intros H. rewrite Z.geb_leb. apply Z.leb_gt. exact H. Qed.

Lemma geb_false_lt (n m : Z) : (n >=? m) = false -> n < m.
Proof. rewrite Z.geb_leb. apply Z.leb_gt. Qed.

Lemma gtb_gt (n m : Z) : m < n -> (n >? m) = true.
Proof. intros H. apply Z.gtb_lt. exact H. Qed.

(** A property of the integers of a finite range is settled by running its
    boolean form over the range. *)
Lemma range_forallb (P : Z -> bool) (lo : Z) (n : nat) :
  forallb P (map (fun k => lo + Z.of_nat k) (seq 0 n)) = true ->
  forall z, lo <= z < lo + Z.of_nat n -> P z = true.
Proof.
  intros H z Hz. rewrite forallb_forall in H. apply H.
  apply in_map_iff. exists (Z.to_nat (z - lo)). split; [lia|].
  apply in_seq. lia.
Qed.

(** ** What [getLargestPrefix] finds *)

(** [pix[i]] where the index is known to be in range. *)
Definition byteAt (pix : list Z) (i : Z) : Z := nth (Z.to_nat i) pix 0.

(** The [n] bytes from [c] on equal the [n] bytes from [idx] on. *)
Definition matchAt (pix : list Z) (c idx n : Z) : Prop :=
  forall k, 0 <= k < n -> byteAt pix (c + k) = byteAt pix (idx + k).

(** The starts the outer loop visits: 34 to 127 bytes before [idx], at or
    after the start of the input, and only while more than 34 bytes of input
    remain from [idx] on (the guard [idx+34 >= len(pix)]). *)
Definition inWindow (pix : list Z) (idx c : Z) : Prop :=
  0 <= c /\ 34 <= idx - c <= 127 /\ idx + 34 < len pix.

(** Invariant of the two loops on the candidate. *)
Definition goodCandidate (pix : list Z) (idx : Z) (c : candidate) : Prop :=
  (candidateIdx c = 0 /\ candidateSize c = 0) \/
  (exists c', candidateIdx c = uint16 c' /\ 1 <= candidateSize c <= 33 /\
              inWindow pix idx c' /\ matchAt pix c' idx (candidateSize c + 1)).

Definition flowCandidate (r : flow) : candidate :=
  match r with Next c => c | Return c => c end.

Lemma matchLoop_good (pix : list Z) (idx i : Z) :
  inWindow pix idx i ->
  forall (window : list Z) (j : Z) (c : candidate),
    0 <= j -> j + len window = 34 ->
    (forall k, 0 <= k < len window ->
               nth (Z.to_nat k) window 0 = byteAt pix (idx + j + k)) ->
    matchAt pix i idx j ->
    goodCandidate pix idx c ->
    exists r, matchLoop pix i window j c = Ok r /\
              goodCandidate pix idx (flowCandidate r).
Proof.
  intros Hwin. pose proof Hwin as (Hi0 & Hdist & Hroom).
  induction window as [|val window IH]; intros j c Hj Hlen Hwindow Hmatch Hc.
  - exists (Next c). split; [reflexivity | exact Hc].
  - rewrite len_cons in Hlen. pose proof (len_nonneg window) as Hw.
    simpl matchLoop.
    rewrite geb_lt by lia.
    rewrite index_in_range by lia. simpl bind.
    assert (Hval : val = byteAt pix (idx + j)).
    { assert (H0 : 0 <= 0 < len (val :: window)) by (rewrite len_cons; lia).
      specialize (Hwindow 0 H0). change (Z.to_nat 0) with O in Hwindow.
      simpl nth in Hwindow. rewrite Hwindow. f_equal. lia. }
    fold (byteAt pix (i + j)).
    destruct (val =? byteAt pix (i + j)) eqn:Heq.
    + apply Z.eqb_eq in Heq.
      set (c' := if j >? candidateSize c
                 then MkCandidate (uint16 i) (uint8 j) else c).
      assert (Hmatch' : matchAt pix i idx (j + 1)).
      { intros k Hk. destruct (Z.eq_dec k j) as [-> | Hne].
        - congruence.
        - apply Hmatch. lia. }
      assert (Hc' : goodCandidate pix idx c').
      { unfold c'. destruct (j >? candidateSize c) eqn:Hgt.
        - right. exists i. simpl. apply Z.gtb_lt in Hgt.
          assert (Hsz : 0 <= candidateSize c)
            by (destruct Hc as [[_ ->] | (? & _ & ? & _)]; lia).
          unfold uint8. rewrite Z.mod_small by lia.
          repeat split; try lia. exact Hmatch'.
        - exact Hc. }
      assert (Hsmall : (candidateSize c' =? 34) = false).
      { apply Z.eqb_neq.
        destruct Hc' as [[_ ->] | (? & _ & ? & _)]; lia. }
      rewrite Hsmall.
      apply IH; try lia; try assumption.
      intros k Hk.
      assert (H1 : 0 <= k + 1 < len (val :: window))
        by (rewrite len_cons; lia).
      specialize (Hwindow (k + 1) H1).
      replace (Z.to_nat (k + 1)) with (S (Z.to_nat k)) in Hwindow by lia.
      simpl nth in Hwindow. rewrite Hwindow. f_equal. lia.
    + exists (Next c). split; [reflexivity | exact Hc].
Qed.

Lemma slice_nth (pix : list Z) (lo n k : Z) :
  0 <= lo -> 0 <= k < n -> lo + n <= len pix ->
  nth (Z.to_nat k) (firstn (Z.to_nat n) (skipn (Z.to_nat lo) pix)) 0
  = byteAt pix (lo + k).
Proof.
  intros Hlo Hk Hn. unfold byteAt.
  rewrite nth_firstn.
  replace (Z.to_nat k <? Z.to_nat n)%nat with true
    by (symmetry; apply Nat.ltb_lt; lia).
  rewrite nth_skipn. f_equal. lia.
Qed.

Lemma scanLoop_good (pix : list Z) (idx : Z) :
  0 <= idx < len pix ->
  forall (fuel : nat) (i : Z) (c : candidate),
    34 <= idx - i <= 128 -> 128 - (idx - i) < Z.of_nat fuel ->
    goodCandidate pix idx c ->
    exists r, scanLoop fuel pix idx i c = Ok r /\
              goodCandidate pix idx (flowCandidate r).
Proof.
  intros Hidx.
  induction fuel as [|fuel IH]; intros i c Hi Hfuel Hc; [lia|].
  simpl scanLoop.
  destruct ((i >=? 0) && (idx - i <? 128)) eqn:Hcond.
  - apply andb_true_iff in Hcond. destruct Hcond as [Hge Hlt].
    apply Z.geb_le in Hge. apply Z.ltb_lt in Hlt.
    rewrite !index_in_range by lia. simpl bind.
    destruct (_ =? _).
    + destruct (idx + 34 >=? len pix) eqn:Hend.
      * exists (Next c). split; [reflexivity | exact Hc].
      * rewrite Z.geb_leb in Hend. apply Z.leb_gt in Hend.
        rewrite slice_in_range by lia. simpl bind.
        replace (idx + 34 - idx) with 34 by lia.
        assert (Hwin : inWindow pix idx i) by (unfold inWindow; lia).
        destruct (matchLoop_good pix idx i Hwin
                    (firstn (Z.to_nat 34) (skipn (Z.to_nat idx) pix)) 0 c)
          as (r & Hr & Hgood); try lia; try assumption.
        { unfold len. rewrite length_firstn, length_skipn.
          unfold len in Hend. lia. }
        { intros k Hk. unfold len in Hk.
          rewrite length_firstn, length_skipn in Hk.
          rewrite slice_nth by lia. f_equal. lia. }
        { intros k Hk. lia. }
        rewrite Hr. simpl bind. destruct r as [c' | c'].
        -- apply IH; try lia. exact Hgood.
        -- exists (Return c'). split; [reflexivity | exact Hgood].
    + apply IH; try lia. exact Hc.
  - exists (Next c). split; [reflexivity | exact Hc].
Qed.

(** On a position inside the input [getLargestPrefix] returns, and what it
    returns is the sentinel or a real match in the window. *)
Lemma getLargestPrefix_sound (pix : list Z) (idx : Z) :
  0 <= idx < len pix ->
  exists c n, getLargestPrefix pix idx = Ok (c, n) /\
    ((c = 0 /\ n = 0) \/
     (3 <= n <= 33 /\
      exists c', c = uint16 c' /\ inWindow pix idx c' /\
                 matchAt pix c' idx (n + 1))).
Proof.
  intros Hidx. unfold getLargestPrefix.
  destruct (scanLoop_good pix idx Hidx 128 (idx - 34) (MkCandidate 0 0))
    as (r & Hr & Hgood); try lia.
  { left. split; reflexivity. }
  rewrite Hr. simpl bind.
  destruct r as [c | c]; simpl in Hgood.
  - destruct (candidateSize c >? 2) eqn:Hsz.
    + apply Z.gtb_lt in Hsz. do 2 eexists. split; [reflexivity|].
      destruct Hgood as [[_ H0] | (c' & Hc' & Hb & Hw & Hm)]; [lia|].
      right. split; [lia|]. exists c'. auto.
    + do 2 eexists. split; [reflexivity|]. left. split; reflexivity.
  - do 2 eexists. split; [reflexivity|].
    destruct Hgood as [[H1 H0] | (c' & Hc' & Hb & Hw & Hm)].
    + left. split; assumption.
    + (* the [return] inside the loop is taken at size 34 only *)
      assert (Hsz : candidateSize c <= 2 \/ 3 <= candidateSize c) by lia.
      destruct Hsz as [Hsz | Hsz].
      * exfalso.
        (* a [Return] flow carries size 34, which the invariant excludes *)
        revert Hr. clear - Hb. intros Hr.
        assert (Hall : forall fuel i c0 c1,
                   scanLoop fuel pix idx i c0 = Ok (Return c1) ->
                   candidateSize c1 = 34).
        { assert (Hin : forall window i j c0 c1,
                     matchLoop pix i window j c0 = Ok (Return c1) ->
                     candidateSize c1 = 34).
          { induction window as [|v w IHw]; intros i j c0 c1 H; simpl in H.
            - discriminate.
            - destruct (i + j >=? len pix); [discriminate|].
              destruct (index pix (i + j)); simpl in H; try discriminate.
              destruct (v =? a); [|discriminate].
              destruct (candidateSize _ =? 34) eqn:E.
              + injection H as <-. now apply Z.eqb_eq.
              + eapply IHw; eassumption. }
          induction fuel as [|fuel IHf]; intros i c0 c1 H; simpl in H.
          - discriminate.
          - destruct ((i >=? 0) && (idx - i <? 128)); [|discriminate].
            destruct (index pix i); simpl in H; try discriminate.
            destruct (index pix idx); simpl in H; try discriminate.
            destruct (a =? a0).
            + destruct (idx + 34 >=? len pix); [discriminate|].
              destruct (slice pix idx (idx + 34)); simpl in H; try discriminate.
              destruct (matchLoop pix i a1 0 c0) as [[c2|c2]| |] eqn:E;
                simpl in H; try discriminate.
              * eapply IHf; eassumption.
              * injection H as <-. eapply Hin; eassumption.
            + eapply IHf; eassumption. }
        apply Hall in Hr. lia.
      * right. split; [lia|]. exists c'. auto.
Qed.

(** ** The bytes of the tokens *)

Lemma backref_bytes (i c n : Z) :
  3 <= n <= 33 -> 34 <= i - c <= 127 ->
  backref i (uint16 c) n = [(n - 3) * 4; i - c - 1].
Proof.
  intros Hn Hd. unfold backref.
  assert (Hoff : uint16 (i - uint16 c) = i - c).
  { unfold uint16. rewrite Zminus_mod_idemp_r. apply Z.mod_small. lia. }
  rewrite Hoff.
  pose proof (range_forallb
    (fun n => uint8 (Z.shiftl (uint8 (n - 3)) 2) =? (n - 3) * 4) 3 31
    ltac:(vm_compute; reflexivity) n ltac:(lia)) as H0.
  pose proof (range_forallb
    (fun d => (uint8 (Z.shiftr (Z.land (uint16 (d - 1)) 768) 8) =? 0)
              && (uint8 (Z.land (uint16 (d - 1)) 255) =? d - 1)) 34 94
    ltac:(vm_compute; reflexivity) (i - c) ltac:(lia)) as H1.
  cbv beta in H0, H1. apply andb_true_iff in H1. destruct H1 as [H1 H2].
  apply Z.eqb_eq in H0, H1, H2.
  rewrite H0, H1, H2, Z.lor_0_r. reflexivity.
Qed.

(** Read back by the grammar, the two bytes give the length and the distance
    they were built from. *)
Lemma backref_fields (n d : Z) :
  3 <= n <= 33 -> 34 <= d <= 127 ->
  Z.testbit ((n - 3) * 4) 7 = false /\
  Z.land (Z.shiftr ((n - 3) * 4) 2) 31 + 3 = n /\
  Z.lor (Z.shiftl (Z.land ((n - 3) * 4) 3) 8) (d - 1) + 1 = d.
Proof.
  intros Hn Hd.
  pose proof (range_forallb
    (fun n => negb (Z.testbit ((n - 3) * 4) 7)
              && (Z.land (Z.shiftr ((n - 3) * 4) 2) 31 + 3 =? n)
              && (Z.land ((n - 3) * 4) 3 =? 0)) 3 31
    ltac:(vm_compute; reflexivity) n ltac:(lia)) as H.
  cbv beta in H. apply andb_true_iff in H. destruct H as [H H3].
  apply andb_true_iff in H. destruct H as [H1 H2].
  apply negb_true_iff in H1. apply Z.eqb_eq in H2, H3.
  repeat split; try assumption.
  rewrite H3. rewrite Z.shiftl_0_l, Z.lor_0_l. lia.
Qed.

Lemma literal_header (left : Z) :
  1 <= left <= 127 ->
  Z.testbit (Z.lor 128 (uint8 (left - 1))) 7 = true /\
  Z.land (Z.lor 128 (uint8 (left - 1))) 127 + 1 = left.
Proof.
  intros H.
  pose proof (range_forallb
    (fun l => Z.testbit (Z.lor 128 (uint8 (l - 1))) 7
              && (Z.land (Z.lor 128 (uint8 (l - 1))) 127 + 1 =? l)) 1 127
    ltac:(vm_compute; reflexivity) left ltac:(lia)) as H0.
  cbv beta in H0. apply andb_true_iff in H0. destruct H0 as [H1 H2].
  apply Z.eqb_eq in H2. split; assumption.
Qed.

(** ** Decoding what was copied *)

Lemma firstn_snoc (pix : list Z) (i : Z) :
  0 <= i < len pix ->
  firstn (Z.to_nat i) pix ++ [byteAt pix i] = firstn (Z.to_nat (i + 1)) pix.
Proof.
  intros Hi. replace (Z.to_nat (i + 1)) with (Z.to_nat i + 1)%nat by lia.
  rewrite <- firstn_extend. f_equal. unfold byteAt.
  unfold len in Hi.
  replace (nth (Z.to_nat i) pix 0) with (nth 0 (skipn (Z.to_nat i) pix) 0)
    by (rewrite nth_skipn; f_equal; lia).
  destruct (skipn (Z.to_nat i) pix) as [|x rest] eqn:E.
  - exfalso. apply (f_equal (@length Z)) in E.
    rewrite length_skipn in E. simpl in E. lia.
  - reflexivity.
Qed.

Lemma len_firstn (pix : list Z) (i : Z) :
  0 <= i <= len pix -> len (firstn (Z.to_nat i) pix) = i.
Proof. unfold len. intros H. rewrite length_firstn. lia. Qed.

Lemma len_slice {A : Type} (s : list A) (i n : Z) :
  0 <= i -> 0 <= n -> i + n <= len s ->
  len (firstn (Z.to_nat n) (skipn (Z.to_nat i) s)) = n.
Proof. unfold len. intros. rewrite length_firstn, length_skipn. lia. Qed.

Lemma copyBack_prefix (pix : list Z) :
  forall (n : nat) (c i : Z),
    0 <= c < i -> i + Z.of_nat n <= len pix ->
    matchAt pix c i (Z.of_nat n) ->
    copyBack n (i - c) (firstn (Z.to_nat i) pix)
    = Some (firstn (Z.to_nat (i + Z.of_nat n)) pix).
Proof.
  induction n as [|n IH]; intros c i Hc Hlen Hmatch.
  - simpl. now rewrite Z.add_0_r.
  - simpl copyBack. rewrite len_firstn by lia.
    replace ((1 <=? i - c) && (i - c <=? i)) with true
      by (symmetry; apply andb_true_iff; split; apply Z.leb_le; lia).
    replace (i - (i - c)) with c by lia.
    assert (Hbyte : nth (Z.to_nat c) (firstn (Z.to_nat i) pix) 0 = byteAt pix i).
    { rewrite nth_firstn.
      replace (Z.to_nat c <? Z.to_nat i)%nat with true
        by (symmetry; apply Nat.ltb_lt; lia).
      specialize (Hmatch 0 ltac:(lia)). rewrite !Z.add_0_r in Hmatch.
      exact Hmatch. }
    rewrite Hbyte, firstn_snoc by lia.
    replace (i - c) with ((i + 1) - (c + 1)) by lia.
    rewrite IH; try lia.
    + do 2 f_equal. lia.
    + intros k Hk. specialize (Hmatch (k + 1) ltac:(lia)).
      rewrite <- !Z.add_assoc, (Z.add_comm 1 k). exact Hmatch.
Qed.

(** One step of the decoder on each kind of token. *)
Lemma decodeLoop_literal (fuel : nat) (h : Z) (rest out : list Z) :
  Z.testbit h 7 = true -> Z.land h 127 + 1 <= len rest ->
  decodeLoop (S fuel) (h :: rest) out
  = decodeLoop fuel (skipn (Z.to_nat (Z.land h 127 + 1)) rest)
      (out ++ firstn (Z.to_nat (Z.land h 127 + 1)) rest).
Proof.
  intros Hbit Hlen. cbn [decodeLoop]. rewrite Hbit.
  apply Z.leb_le in Hlen. rewrite Hlen. reflexivity.
Qed.

Lemma decodeLoop_backref (fuel : nat) (h b : Z) (rest out out' : list Z) :
  Z.testbit h 7 = false ->
  copyBack (Z.to_nat (Z.land (Z.shiftr h 2) 31 + 3))
    (Z.lor (Z.shiftl (Z.land h 3) 8) b + 1) out = Some out' ->
  decodeLoop (S fuel) (h :: b :: rest) out = decodeLoop fuel rest out'.
Proof.
  intros Hbit Hcopy. cbn [decodeLoop]. rewrite Hbit, Hcopy. reflexivity.
Qed.

(** ** The loop of [compress]

    From a position [i] inside the input, with enough fuel, the loop returns
    [val] followed by tokens that (1) are no longer than the rest of the
    input plus one header byte per started block of 128 bytes and (2) decode,
    by the grammar, from the first [i] bytes of the input to the whole
    input. *)
Lemma compressLoop_tokens (pix : list Z) :
  forall (fuel : nat) (i : Z) (val : list Z),
    0 <= i <= len pix -> len pix - i < Z.of_nat fuel ->
    exists toks,
      compressLoop fuel pix i val = Ok (val ++ toks) /\
      len toks <= (len pix - i) + (len pix - i + 127) / 128 /\
      forall dfuel, len toks < Z.of_nat dfuel ->
        decodeLoop dfuel toks (firstn (Z.to_nat i) pix) = Some pix.
Proof.
  induction fuel as [|fuel IH]; intros i val Hi Hfuel; [lia|].
  cbn [compressLoop].
  destruct (i <? len pix) eqn:Hlt.
  2:{ apply Z.ltb_ge in Hlt. exists []. rewrite app_nil_r.
      split; [reflexivity|]. split.
      - replace (len pix - i) with 0 by lia. vm_compute. discriminate.
      - intros dfuel Hd. destruct dfuel; [unfold len in Hd; simpl in Hd; lia|].
        simpl. f_equal. apply firstn_all2. unfold len in *. lia. }
  apply Z.ltb_lt in Hlt.
  destruct (getLargestPrefix_sound pix i ltac:(lia))
    as (c & n & Hget & [[-> ->] | (Hn & c' & -> & (Hc0 & Hdist & Hroom) & Hm)]);
    rewrite Hget; cbn [bind].
  - (* no match: a literal run *)
    change (0 >? 2) with false. cbv iota.
    destruct (len pix - i >=? 128) eqn:Hleft.
    + apply Z.geb_le in Hleft.
      rewrite slice_in_range by lia. cbn [bind].
      replace (i + 128 - i) with 128 by lia.
      set (lit := firstn (Z.to_nat 128) (skipn (Z.to_nat i) pix)).
      assert (Hlit : len lit = 128).
      { unfold lit. apply len_slice; lia. }
      destruct (IH (i + 128) ((val ++ [255]) ++ lit)) as (toks & Hrun & Hsize & Hdec);
        try lia.
      exists (255 :: lit ++ toks). split; [|split].
      * rewrite Hrun. f_equal. rewrite <- !app_assoc. reflexivity.
      * rewrite len_cons, len_app, Hlit.
        replace (len pix - i + 127) with ((len pix - (i + 128) + 127) + 1 * 128) by lia.
        rewrite Z.div_add by lia. lia.
      * intros dfuel Hd. rewrite len_cons, len_app, Hlit in Hd.
        pose proof (len_nonneg toks) as Htoks.
        destruct dfuel as [|dfuel]; [lia|].
        rewrite decodeLoop_literal;
          [| reflexivity
           | change (Z.land 255 127 + 1) with 128; rewrite len_app, Hlit; lia].
        change (Z.land 255 127 + 1) with 128.
        assert (Hl : length lit = Z.to_nat 128) by (unfold len in Hlit; lia).
        rewrite <- Hl, firstn_app, skipn_app, Nat.sub_diag.
        rewrite firstn_all, skipn_all.
        cbn [firstn skipn app]. rewrite app_nil_r.
        unfold lit at 1. rewrite firstn_extend.
        replace (Z.to_nat i + Z.to_nat 128)%nat with (Z.to_nat (i + 128)) by lia.
        apply Hdec. lia.
    + apply geb_false_lt in Hleft.
      rewrite slice_in_range by lia. cbn [bind].
      replace (i + (len pix - i) - i) with (len pix - i) by lia.
      replace (i + (len pix - i)) with (len pix) by lia.
      set (left := len pix - i) in *.
      set (lit := firstn (Z.to_nat left) (skipn (Z.to_nat i) pix)).
      assert (Hlit : len lit = left).
      { unfold lit. apply len_slice; unfold left; lia. }
      destruct (IH (len pix) ((val ++ [Z.lor 128 (uint8 (left - 1))]) ++ lit))
        as (toks & Hrun & Hsize & Hdec); try lia.
      exists (Z.lor 128 (uint8 (left - 1)) :: lit ++ toks). split; [|split].
      * rewrite Hrun. f_equal. rewrite <- !app_assoc. reflexivity.
      * rewrite len_cons, len_app, Hlit.
        replace (len pix - len pix) with 0 in Hsize by lia.
        change ((0 + 127) / 128) with 0 in Hsize.
        assert (1 <= (left + 127) / 128).
        { replace (left + 127) with ((left - 1) + 1 * 128) by lia.
          rewrite Z.div_add by lia.
          pose proof (Z.div_pos (left - 1) 128 ltac:(lia) ltac:(lia)). lia. }
        lia.
      * intros dfuel Hd. rewrite len_cons, len_app, Hlit in Hd.
        pose proof (len_nonneg toks) as Htoks.
        destruct dfuel as [|dfuel]; [lia|].
        destruct (literal_header left ltac:(lia)) as [Hbit Hrunlen].
        rewrite decodeLoop_literal;
          [| exact Hbit | rewrite Hrunlen, len_app, Hlit; lia].
        rewrite Hrunlen.
        assert (Hl : length lit = Z.to_nat left) by (unfold len in Hlit; lia).
        rewrite <- Hl, firstn_app, skipn_app, Nat.sub_diag.
        rewrite firstn_all, skipn_all.
        cbn [firstn skipn app]. rewrite app_nil_r.
        unfold lit at 1. rewrite firstn_extend.
        replace (Z.to_nat i + Z.to_nat left)%nat with (Z.to_nat (len pix))
          by (unfold left; lia).
        apply Hdec. lia.
  - (* a match: a back-reference *)
    rewrite gtb_gt by lia.
    rewrite backref_bytes by lia.
    destruct (IH (i + n) (val ++ [(n - 3) * 4; i - c' - 1]))
      as (toks & Hrun & Hsize & Hdec); try lia.
    exists ([(n - 3) * 4; i - c' - 1] ++ toks). split; [|split].
    + rewrite Hrun. f_equal. rewrite <- app_assoc. reflexivity.
    + rewrite len_app. change (len [(n - 3) * 4; i - c' - 1]) with 2.
      assert ((len pix - (i + n) + 127) / 128 <= (len pix - i + 127) / 128)
        by (apply Z.div_le_mono; lia).
      lia.
    + intros dfuel Hd. rewrite len_app in Hd.
      change (len [(n - 3) * 4; i - c' - 1]) with 2 in Hd.
      pose proof (len_nonneg toks) as Htoks.
        destruct dfuel as [|dfuel]; [lia|].
      destruct (backref_fields n (i - c') ltac:(lia) ltac:(lia))
        as (Hbit & Hlen & Hd').
      cbn [app].
      rewrite (decodeLoop_backref dfuel _ _ toks _
                 (firstn (Z.to_nat (i + n)) pix) Hbit).
      * apply Hdec. lia.
      * rewrite Hlen, Hd'.
        replace (i + n) with (i + Z.of_nat (Z.to_nat n)) by lia.
        apply copyBack_prefix; try lia.
        intros k Hk. apply Hm. lia.
Qed.

Lemma compress_returns (pix : list Z) : exists out, compress pix = Ok out.
Proof.
  destruct (compressLoop_tokens pix (S (length pix)) 0 [])
    as (toks & Hrun & _).
  - pose proof (len_nonneg pix). lia.
  - unfold len. lia.
  - exists toks. exact Hrun.
Qed.

(** ** Results on the codec *)

(** C2.  For every byte string [pix], [compress] returns, and decoding its
    output by the token grammar (back-reference: 5 bits of length-3 and 10
    bits of distance-1, high bit clear; literal run: high bit set, 7 bits of
    run length-1, then the raw bytes) reconstructs [pix] exactly. *)
Theorem compress_decode_roundtrip (pix : list Z) :
  exists out, compress pix = Ok out /\ decode out = Some pix.
Proof.
  destruct (compressLoop_tokens pix (S (length pix)) 0 [])
    as (toks & Hrun & _ & Hdec).
  - pose proof (len_nonneg pix). lia.
  - unfold len. lia.
  - exists toks. split.
    + exact Hrun.
    + unfold decode. apply (Hdec (S (length toks))). unfold len. lia.
Qed.

(** C10.  For every byte string [pix], the output of [compress] is at most
    one header byte per started 128 input bytes longer than the input:
    [len(compress(pix)) <= len(pix) + ceil(len(pix)/128)]. *)
Theorem compress_expansion_bound (pix : list Z) :
  exists out, compress pix = Ok out /\
              len out <= len pix + (len pix + 127) / 128.
Proof.
  destruct (compressLoop_tokens pix (S (length pix)) 0 [])
    as (toks & Hrun & Hsize & _).
  - pose proof (len_nonneg pix). lia.
  - unfold len. lia.
  - exists toks. split.
    + exact Hrun.
    + now rewrite Z.sub_0_r in Hsize.
Qed.

(** C3, as the code has it.  At a position inside the input
    [getLargestPrefix] returns a length in {0} or [3,34]; length 0 comes with
    index 0; a non-zero length [n] comes with a start (reduced modulo 2^16 by
    the [uint16] result) that lies 34 to 127 bytes before the position, with
    more than 34 bytes of input left from the position on, and whose [n]
    bytes equal the [n] bytes at the position; and the sentinel (0,0) is
    returned whenever no start of that window begins a match of 3 bytes. *)
Theorem getLargestPrefix_window (pix : list Z) (idx : Z) :
  0 <= idx < len pix ->
  exists c n,
    getLargestPrefix pix idx = Ok (c, n) /\
    (n = 0 \/ 3 <= n <= 34) /\
    (n = 0 -> c = 0) /\
    (n <> 0 -> exists c', c = uint16 c' /\ inWindow pix idx c' /\
                          matchAt pix c' idx n) /\
    ((forall c', inWindow pix idx c' -> ~ matchAt pix c' idx 3) ->
     (c, n) = (0, 0)).
Proof.
  intros Hidx.
  destruct (getLargestPrefix_sound pix idx Hidx)
    as (c & n & Hget & [[-> ->] | (Hn & c' & -> & Hwin & Hm)]).
  - exists 0, 0. split; [exact Hget|]. repeat split; tauto.
  - exists (uint16 c'), n. split; [exact Hget|].
    split; [lia|]. split; [lia|]. split.
    + intros _. exists c'. split; [reflexivity|]. split; [exact Hwin|].
      intros k Hk. apply Hm. lia.
    + intros Hnone. exfalso. apply (Hnone c' Hwin).
      intros k Hk. apply Hm. lia.
Qed.

Lemma getLargestPrefix_window_witness :
  exists c n, getLargestPrefix (repeat 0 100) 60 = Ok (c, n) /\
              (n = 0 \/ 3 <= n <= 34).
Proof.
  destruct (getLargestPrefix_window (repeat 0 100) 60) as (c & n & H & Hn & _).
  - cbv. split; [discriminate | reflexivity].
  - exists c, n. split; assumption.
Defined.

(** C3 as stated fails: in a run of 100 zero bytes the 30 bytes at index 36
    equal the 30 bytes at index 70 to the end of the input (a match of length
    30, found 34 bytes back, inside the 128-byte lookback and the 34-byte
    lookahead), yet at position 70 the sentinel is returned, because fewer
    than 35 bytes remain and the guard [idx+34 >= len(pix)] leaves the
    search. *)
Lemma getLargestPrefix_sentinel_despite_match :
  getLargestPrefix (repeat 0 100) 70 = Ok (0, 0) /\
  0 <= 36 /\ 70 - 36 <= 128 /\ 70 + 30 <= len (repeat 0 100) /\
  length (firstn 30 (skipn 70 (repeat 0 100))) = 30%nat /\
  firstn 30 (skipn 36 (repeat 0 100)) = firstn 30 (skipn 70 (repeat 0 100)).
Proof.
  split; [vm_compute; reflexivity|].
  split; [lia|]. split; [lia|]. split; [vm_compute; discriminate|].
  split; vm_compute; reflexivity.
Qed.

(** The size that is returned is the index of the last matching byte, one
    less than the number of bytes that match: a start whose first 3 bytes
    match (and whose 4th does not) is not reported, and 34 matching bytes are
    reported as 33. *)
Example getLargestPrefix_three_bytes :
  let pix := [1; 2; 3; 9] ++ repeat 0 30 ++ [1; 2; 3; 8] ++ repeat 0 40 in
  firstn 3 pix = firstn 3 (skipn 34 pix) /\
  getLargestPrefix pix 34 = Ok (0, 0).
Proof. split; vm_compute; reflexivity. Qed.

Example getLargestPrefix_reports_33 :
  getLargestPrefix (repeat 0 100) 60 = Ok (26, 33) /\
  firstn 34 (skipn 26 (repeat 0 100)) = firstn 34 (skipn 60 (repeat 0 100)).
Proof. split; vm_compute; reflexivity. Qed.

(** Outside the input the function panics (at [pix[idx]]) as soon as the
    loop is entered, and returns the sentinel when it is not. *)
Example getLargestPrefix_past_the_end :
  getLargestPrefix (repeat 0 100) 100 = Panic /\
  getLargestPrefix (repeat 0 20) 20 = Ok (0, 0).
Proof. split; vm_compute; reflexivity. Qed.

(** ** Further results on the codec *)

(** Below position 34 the outer loop is not entered: the sentinel comes back
    without a byte of the input being read. *)
Lemma scanLoop_not_entered (fuel : nat) (pix : list Z) (idx i : Z)
  (c : candidate) :
  i < 0 -> scanLoop (S fuel) pix idx i c = Ok (Next c).
Proof.
  intros H. cbn [scanLoop].
  replace (i >=? 0) with false by (symmetry; apply geb_lt; lia).
  reflexivity.
Qed.

Lemma getLargestPrefix_early (pix : list Z) (idx : Z) :
  idx < 34 -> getLargestPrefix pix idx = Ok (0, 0).
Proof.
  intros H. unfold getLargestPrefix.
  rewrite (scanLoop_not_entered 127) by lia. reflexivity.
Qed.

(** X1. No match is reported near the ends of the input.  At a position
    below 34, whatever the bytes are, and at a position of the input from
    which at most 34 bytes remain, [getLargestPrefix] returns the sentinel
    (0, 0). *)
Theorem getLargestPrefix_sentinel_at_the_ends (pix : list Z) (idx : Z) :
  idx < 34 \/ (0 <= idx < len pix /\ len pix <= idx + 34) ->
  getLargestPrefix pix idx = Ok (0, 0).
Proof.
  intros [Hearly | [Hidx Hlate]].
  - apply getLargestPrefix_early. exact Hearly.
  - destruct (getLargestPrefix_sound pix idx Hidx)
      as (c & n & Hget & [[-> ->] | (_ & c' & _ & (_ & _ & Hroom) & _)]).
    + exact Hget.
    + lia.
Qed.

Lemma getLargestPrefix_sentinel_at_the_ends_witness :
  getLargestPrefix (repeat 7 60) 20 = Ok (0, 0) /\
  getLargestPrefix (repeat 7 60) 40 = Ok (0, 0).
Proof.
  split.
  - apply getLargestPrefix_sentinel_at_the_ends. left. lia.
  - apply getLargestPrefix_sentinel_at_the_ends. right. cbn. lia.
Defined.

(** ** The match that is reported is the longest *)

Lemma matchAt_shorter (pix : list Z) (c idx n m : Z) :
  m <= n -> matchAt pix c idx n -> matchAt pix c idx m.
Proof. intros Hle H k Hk. apply H. lia. Qed.

(** No start among [visited] matches more than one byte beyond the size of
    the candidate; a candidate of size 33 is as long as a candidate gets. *)
Definition longest (pix : list Z) (idx : Z) (visited : Z -> Prop)
  (c : candidate) : Prop :=
  0 <= candidateSize c <= 33 /\
  (candidateSize c = 33 \/
   forall i, visited i -> ~ matchAt pix i idx (candidateSize c + 2)).

Lemma matchLoop_longest (pix : list Z) (idx i : Z) :
  inWindow pix idx i -> 0 <= idx < len pix ->
  forall (window : list Z) (j : Z) (c : candidate) (r : flow),
    0 <= j -> j + len window = 34 ->
    (forall k, 0 <= k < len window ->
               nth (Z.to_nat k) window 0 = byteAt pix (idx + j + k)) ->
    matchAt pix i idx j ->
    j - 1 <= candidateSize c <= 33 -> 0 <= candidateSize c ->
    matchLoop pix i window j c = Ok r ->
    exists c', r = Next c' /\
               candidateSize c <= candidateSize c' <= 33 /\
               (candidateSize c' = 33 \/
                ~ matchAt pix i idx (candidateSize c' + 2)).
Proof.
  intros (Hi0 & Hdist & Hroom) Hidx.
  induction window as [|val window IH];
    intros j c r Hj Hlen Hwin Hmatch Hsize Hpos Hrun.
  - cbn [matchLoop] in Hrun. injection Hrun as <-.
    exists c. split; [reflexivity|]. split; [lia|].
    left. change (len (@nil Z)) with 0 in Hlen. lia.
  - rewrite len_cons in Hlen. pose proof (len_nonneg window) as Hw.
    cbn [matchLoop] in Hrun.
    rewrite geb_lt in Hrun by lia.
    rewrite index_in_range in Hrun by lia. cbn [bind] in Hrun.
    assert (Hval : val = byteAt pix (idx + j)).
    { specialize (Hwin 0 ltac:(rewrite len_cons; lia)).
      cbn in Hwin. rewrite Z.add_0_r in Hwin. exact Hwin. }
    fold (byteAt pix (i + j)) in Hrun.
    destruct (val =? byteAt pix (i + j)) eqn:Heq.
    + apply Z.eqb_eq in Heq.
      set (c1 := if j >? candidateSize c
                 then MkCandidate (uint16 i) (uint8 j) else c) in *.
      assert (Hc1 : candidateSize c1 = Z.max j (candidateSize c)).
      { unfold c1. destruct (j >? candidateSize c) eqn:E.
        - apply Z.gtb_lt in E. cbn [candidateSize]. unfold uint8.
          rewrite Z.mod_small by lia. lia.
        - rewrite Z.gtb_ltb in E. apply Z.ltb_ge in E. lia. }
      replace (candidateSize c1 =? 34) with false in Hrun
        by (symmetry; apply Z.eqb_neq; lia).
      destruct (IH (j + 1) c1 r) as (c' & Hr & Hle & Hlast);
        try lia; try assumption.
      * intros k Hk. specialize (Hwin (k + 1) ltac:(rewrite len_cons; lia)).
        replace (Z.to_nat (k + 1)) with (S (Z.to_nat k)) in Hwin by lia.
        cbn [nth] in Hwin. rewrite Hwin. f_equal. lia.
      * intros k Hk. destruct (Z.eq_dec k j) as [-> | Hne].
        -- rewrite <- Heq. exact Hval.
        -- apply Hmatch. lia.
      * exists c'. split; [exact Hr|]. split; [lia | exact Hlast].
    + apply Z.eqb_neq in Heq. injection Hrun as <-.
      exists c. split; [reflexivity|]. split; [lia|]. right.
      intros Hm. apply Heq. rewrite Hval. symmetry.
      apply Hm. lia.
Qed.

Lemma scanLoop_longest (pix : list Z) (idx : Z) :
  0 <= idx < len pix ->
  forall (fuel : nat) (i : Z) (c : candidate) (r : flow),
    i <= idx - 34 ->
    longest pix idx (fun i' => i < i' /\ inWindow pix idx i') c ->
    scanLoop fuel pix idx i c = Ok r ->
    exists c', r = Next c' /\ longest pix idx (inWindow pix idx) c'.
Proof.
  intros Hidx.
  induction fuel as [|fuel IH]; intros i c r Hi Hc Hrun; [discriminate|].
  cbn [scanLoop] in Hrun.
  destruct ((i >=? 0) && (idx - i <? 128)) eqn:Hcond.
  - apply andb_true_iff in Hcond. destruct Hcond as [Hge Hlt].
    apply Z.geb_le in Hge. apply Z.ltb_lt in Hlt.
    rewrite !index_in_range in Hrun by lia. cbn [bind] in Hrun.
    fold (byteAt pix i) in Hrun. fold (byteAt pix idx) in Hrun.
    destruct (byteAt pix i =? byteAt pix idx) eqn:Heq.
    + destruct (idx + 34 >=? len pix) eqn:Hend.
      * (* the guard: no start is in the window at all *)
        injection Hrun as <-. exists c. split; [reflexivity|].
        apply Z.geb_le in Hend.
        destruct Hc as [Hsz _]. split; [exact Hsz|]. right.
        intros i' (_ & _ & Hroom). lia.
      * apply geb_false_lt in Hend.
        rewrite slice_in_range in Hrun by lia. cbn [bind] in Hrun.
        replace (idx + 34 - idx) with 34 in Hrun by lia.
        destruct (matchLoop pix i _ 0 c) as [r1 | |] eqn:Hinner;
          cbn [bind] in Hrun; try discriminate.
        assert (Hwin : inWindow pix idx i) by (unfold inWindow; lia).
        destruct Hc as [Hsz Hc].
        destruct (matchLoop_longest pix idx i Hwin Hidx
                    (firstn (Z.to_nat 34) (skipn (Z.to_nat idx) pix)) 0 c r1)
          as (c1 & -> & Hle & Hlast); try lia; try exact Hinner.
        { unfold len. rewrite length_firstn, length_skipn.
          unfold len in Hend. lia. }
        { intros k Hk. unfold len in Hk.
          rewrite length_firstn, length_skipn in Hk.
          rewrite slice_nth by lia. f_equal. lia. }
        { intros k Hk. lia. }
        apply (IH (i - 1) c1 r); [lia | | exact Hrun].
        split; [lia|].
        destruct Hlast as [H33 | Hlast]; [left; exact H33|].
        destruct Hc as [H33 | Hc]; [left; lia|].
        right. intros i' [Hi' Hw'] Hm.
        destruct (Z.eq_dec i' i) as [-> | Hne]; [exact (Hlast Hm)|].
        apply (Hc i'); [split; [lia | exact Hw']|].
        apply (matchAt_shorter pix i' idx (candidateSize c1 + 2));
          [lia | exact Hm].
    + apply Z.eqb_neq in Heq.
      apply (IH (i - 1) c r); [lia | | exact Hrun].
      destruct Hc as [Hsz Hc]. split; [exact Hsz|].
      destruct Hc as [H33 | Hc]; [left; exact H33|].
      right. intros i' [Hi' Hw'] Hm.
      destruct (Z.eq_dec i' i) as [-> | Hne].
      * apply Heq. specialize (Hm 0 ltac:(lia)).
        now rewrite !Z.add_0_r in Hm.
      * apply (Hc i'); [split; [lia | exact Hw'] | exact Hm].
  - injection Hrun as <-. exists c. split; [reflexivity|].
    destruct Hc as [Hsz Hc]. split; [exact Hsz|].
    destruct Hc as [H33 | Hc]; [left; exact H33|].
    right. intros i' Hw'. apply Hc. split; [|exact Hw'].
    destruct Hw' as (Hi0 & Hdist & _).
    apply andb_false_iff in Hcond. destruct Hcond as [Hneg | Hfar].
    + apply geb_false_lt in Hneg. lia.
    + apply Z.ltb_ge in Hfar. lia.
Qed.

(** What is returned, from the candidate the loops end with. *)
Lemma getLargestPrefix_of_scan (pix : list Z) (idx : Z) (c : candidate) :
  scanLoop 128 pix idx (idx - 34) (MkCandidate 0 0) = Ok (Next c) ->
  getLargestPrefix pix idx
  = if candidateSize c >? 2 then Ok (candidateIdx c, candidateSize c)
    else Ok (0, 0).
Proof.
  intros Hscan. unfold getLargestPrefix. rewrite Hscan. reflexivity.
Qed.

(** X2. At a position inside the input [getLargestPrefix] returns a size [n]
    that is 0 or lies between 3 and 33.  A size other than 0 comes with a
    start of the window at which [n + 1] bytes match: the size is the index
    of the last matching byte, one less than the length of the match.  And
    the match reported is the longest of the window, up to the bound of 34
    bytes: unless [n] is 33 no start of the window matches [n + 2] bytes,
    and none matches 4 bytes when the sentinel is returned. *)
Theorem getLargestPrefix_reports_the_longest_match (pix : list Z) (idx : Z) :
  0 <= idx < len pix ->
  exists c n,
    getLargestPrefix pix idx = Ok (c, n) /\
    (n = 0 \/ 3 <= n <= 33) /\
    (n <> 0 ->
     exists c', c = uint16 c' /\ inWindow pix idx c' /\
                matchAt pix c' idx (n + 1)) /\
    (n < 33 ->
     forall c', inWindow pix idx c' ->
                ~ matchAt pix c' idx (Z.max 4 (n + 2))).
Proof.
  intros Hidx.
  destruct (getLargestPrefix_sound pix idx Hidx)
    as (c & n & Hget & Hfound).
  exists c, n. split; [exact Hget|].
  split; [destruct Hfound as [[_ ->] | [Hn _]]; lia|].
  split.
  { intros Hn. destruct Hfound as [[_ ->] | (_ & c' & H)]; [lia|].
    exists c'. exact H. }
  intros Hn c' Hw Hm.
  destruct (scanLoop_good pix idx Hidx 128 (idx - 34) (MkCandidate 0 0))
    as (r & Hscan & _); try lia.
  { left. split; reflexivity. }
  destruct (scanLoop_longest pix idx Hidx 128 (idx - 34) (MkCandidate 0 0) r
              ltac:(lia)) as (c0 & -> & Hsz & Hlongest); [| exact Hscan |].
  { split; [cbn [candidateSize]; lia|]. right.
    intros i' [Hi' (_ & Hd & _)]. lia. }
  rewrite (getLargestPrefix_of_scan pix idx c0 Hscan) in Hget. clear Hscan.
  set (size := candidateSize c0) in *.
  assert (Hn' : n = if size >? 2 then size else 0).
  { destruct (size >? 2); now injection Hget as _ <-. }
  destruct Hlongest as [H33 | Hnone].
  - rewrite H33 in Hn'. change (33 >? 2) with true in Hn'.
    cbv iota in Hn'. lia.
  - apply (Hnone c' Hw).
    apply (matchAt_shorter pix c' idx (Z.max 4 (n + 2))); [|exact Hm].
    destruct (size >? 2) eqn:E.
    + lia.
    + rewrite Z.gtb_ltb in E. apply Z.ltb_ge in E. lia.
Qed.

Lemma getLargestPrefix_reports_the_longest_match_witness :
  exists c n,
    getLargestPrefix (repeat 0 100) 60 = Ok (c, n) /\ (n = 0 \/ 3 <= n <= 33).
Proof.
  destruct (getLargestPrefix_reports_the_longest_match (repeat 0 100) 60)
    as (c & n & H & Hn & _).
  - cbn. lia.
  - exists c, n. split; assumption.
Defined.

(** ** The tokens of the output

    The tokens as the grammar of image(6) reads them.  A literal run is its
    length less 1, with the high bit set, followed by its bytes; a
    back-reference is two bytes: its length less 3 in the bits 2 to 6 of the
    first, its distance less 1 in the two low bits of the first and in the
    second. *)
Inductive token : Type :=
| Literal (bytes : list Z)
| Backref (length distance : Z).

Definition tokenBytes (t : token) : list Z :=
  match t with
  | Literal bytes => (127 + len bytes) :: bytes
  | Backref length distance =>
      [(length - 3) * 4 + (distance - 1) / 256; (distance - 1) mod 256]
  end.

(** The tokens cover the input from position [i] to its end. *)
Fixpoint covers (pix : list Z) (i : Z) (toks : list token) : Prop :=
  match toks with
  | [] => i = len pix
  | Literal bytes :: toks' =>
      len bytes = Z.min 128 (len pix - i) /\ 1 <= len bytes /\
      bytes = firstn (Z.to_nat (len bytes)) (skipn (Z.to_nat i) pix) /\
      covers pix (i + len bytes) toks'
  | Backref n dist :: toks' =>
      3 <= n <= 33 /\ 34 <= dist <= 127 /\ dist <= i /\ i + n < len pix /\
      matchAt pix (i - dist) i n /\
      covers pix (i + n) toks'
  end.

Lemma literal_header_value (left : Z) :
  1 <= left <= 128 -> Z.lor 128 (uint8 (left - 1)) = 127 + left.
Proof.
  intros H.
  pose proof (range_forallb
    (fun l => Z.lor 128 (uint8 (l - 1)) =? 127 + l) 1 128
    ltac:(vm_compute; reflexivity) left ltac:(lia)) as H0.
  cbv beta in H0. now apply Z.eqb_eq in H0.
Qed.

Lemma compressLoop_covers (pix : list Z) :
  forall (fuel : nat) (i : Z) (val : list Z),
    0 <= i <= len pix -> len pix - i < Z.of_nat fuel ->
    exists toks,
      compressLoop fuel pix i val = Ok (val ++ flat_map tokenBytes toks) /\
      covers pix i toks.
Proof.
  induction fuel as [|fuel IH]; intros i val Hi Hfuel; [lia|].
  cbn [compressLoop].
  destruct (i <? len pix) eqn:Hlt.
  2:{ apply Z.ltb_ge in Hlt. exists []. cbn [flat_map]. rewrite app_nil_r.
      split; [reflexivity|]. cbn [covers]. lia. }
  apply Z.ltb_lt in Hlt.
  destruct (getLargestPrefix_sound pix i ltac:(lia))
    as (c & n & Hget & [[-> ->] | (Hn & c' & -> & (Hc0 & Hdist & Hroom) & Hm)]);
    rewrite Hget; cbn [bind].
  - change (0 >? 2) with false. cbv iota.
    destruct (len pix - i >=? 128) eqn:Hleft.
    + apply Z.geb_le in Hleft.
      rewrite slice_in_range by lia. cbn [bind].
      replace (i + 128 - i) with 128 by lia.
      set (lit := firstn (Z.to_nat 128) (skipn (Z.to_nat i) pix)).
      assert (Hlit : len lit = 128) by (unfold lit; apply len_slice; lia).
      destruct (IH (i + 128) ((val ++ [255]) ++ lit)) as (toks & Hrun & Hcov);
        try lia.
      exists (Literal lit :: toks). split.
      * rewrite Hrun. cbn [flat_map tokenBytes]. rewrite Hlit.
        rewrite <- !app_assoc. reflexivity.
      * cbn [covers]. rewrite Hlit. repeat split; try lia.
        exact Hcov.
    + apply geb_false_lt in Hleft.
      rewrite slice_in_range by lia. cbn [bind].
      replace (i + (len pix - i) - i) with (len pix - i) by lia.
      set (lit := firstn (Z.to_nat (len pix - i)) (skipn (Z.to_nat i) pix)).
      assert (Hlit : len lit = len pix - i) by (unfold lit; apply len_slice; lia).
      destruct (IH (i + (len pix - i))
                  ((val ++ [Z.lor 128 (uint8 (len pix - i - 1))]) ++ lit))
        as (toks & Hrun & Hcov); try lia.
      exists (Literal lit :: toks). split.
      * rewrite Hrun. cbn [flat_map tokenBytes]. rewrite Hlit.
        rewrite literal_header_value by lia.
        rewrite <- !app_assoc. reflexivity.
      * cbn [covers]. rewrite Hlit. repeat split; try lia.
        exact Hcov.
  - rewrite gtb_gt by lia.
    rewrite backref_bytes by lia.
    destruct (IH (i + n) (val ++ [(n - 3) * 4; i - c' - 1]))
      as (toks & Hrun & Hcov); try lia.
    exists (Backref n (i - c') :: toks). split.
    + rewrite Hrun. cbn [flat_map tokenBytes].
      rewrite Z.div_small, Z.mod_small, Z.add_0_r by lia.
      rewrite <- app_assoc. reflexivity.
    + cbn [covers]. repeat split; try lia.
      * replace (i - (i - c')) with c' by lia.
        intros k Hk. apply Hm. lia.
      * exact Hcov.
Qed.

(** X3. The output of [compress] is a sequence of tokens that covers the
    input from its first byte to its last, without gap or overlap.  A
    literal run holds 1 to 128 bytes of the input, always as many as are
    left of it up to 128; a back-reference stands for 3 to 33 bytes equal to
    the bytes 34 to 127 positions before them, and is used only while more
    bytes remain after it. *)
Theorem compress_token_inventory (pix : list Z) :
  exists toks,
    compress pix = Ok (flat_map tokenBytes toks) /\ covers pix 0 toks.
Proof.
  destruct (compressLoop_covers pix (S (length pix)) 0 [])
    as (toks & Hrun & Hcov).
  - pose proof (len_nonneg pix). lia.
  - unfold len. lia.
  - exists toks. split; assumption.
Qed.

(** X4. The output of [compress] for an input that is not empty begins with
    a literal run: the header byte and the first 128 bytes of the input, or
    all of it when it is shorter.  For an input of at most 128 bytes this
    run is the whole output, one byte more than the input. *)
Theorem compress_begins_with_literal (pix : list Z) :
  1 <= len pix ->
  exists rest,
    compress pix
    = Ok ((127 + Z.min 128 (len pix)) :: firstn 128 pix ++ rest) /\
    (len pix <= 128 -> rest = []).
Proof.
  intros Hlen. unfold compress. cbn [compressLoop].
  replace (0 <? len pix) with true by (symmetry; apply Z.ltb_lt; lia).
  rewrite getLargestPrefix_early by lia. cbn [bind].
  change (0 >? 2) with false. cbv iota.
  rewrite Z.sub_0_r.
  destruct (len pix >=? 128) eqn:Hleft.
  - apply Z.geb_le in Hleft.
    rewrite slice_in_range by lia. cbn [bind].
    destruct (compressLoop_tokens pix (length pix) (0 + 128)
                (([] ++ [255]) ++
                 firstn (Z.to_nat (0 + 128 - 0)) (skipn (Z.to_nat 0) pix)))
      as (toks & Hrun & Hsize & _); [lia | unfold len in *; lia |].
    exists toks. split.
    + rewrite Hrun. rewrite Z.min_l by lia. reflexivity.
    + intros Hshort. replace (len pix - (0 + 128)) with 0 in Hsize by lia.
      change ((0 + 127) / 128) with 0 in Hsize.
      destruct toks; [reflexivity|]. rewrite len_cons in Hsize.
      pose proof (len_nonneg toks). lia.
  - apply geb_false_lt in Hleft.
    rewrite slice_in_range by lia. cbn [bind].
    destruct (compressLoop_tokens pix (length pix) (0 + len pix)
                (([] ++ [Z.lor 128 (uint8 (len pix - 1))]) ++
                 firstn (Z.to_nat (0 + len pix - 0)) (skipn (Z.to_nat 0) pix)))
      as (toks & Hrun & Hsize & _); [lia | unfold len in *; lia |].
    assert (Hnil : toks = []).
    { replace (len pix - (0 + len pix)) with 0 in Hsize by lia.
      change ((0 + 127) / 128) with 0 in Hsize.
      destruct toks; [reflexivity|]. rewrite len_cons in Hsize.
      pose proof (len_nonneg toks). lia. }
    exists []. split; [|reflexivity].
    rewrite Hrun, Hnil, literal_header_value by lia.
    rewrite Z.min_r by lia. rewrite !app_nil_r. cbn [app skipn Z.to_nat].
    do 2 f_equal.
    replace (0 + len pix - 0) with (len pix) by lia.
    rewrite !firstn_all2; [reflexivity | unfold len in *; lia | unfold len; lia].
Qed.

Lemma compress_begins_with_literal_witness :
  exists rest, compress [1; 2; 3] = Ok (130 :: [1; 2; 3] ++ rest).
Proof.
  destruct (compress_begins_with_literal [1; 2; 3]) as (rest & H & _).
  - cbn. lia.
  - exists rest. exact H.
Defined.

(** ** Decoding a sequence of compressed pieces *)

(** Copying back looks at the last [dist] bytes of the output only. *)
Lemma copyBack_after (pre : list Z) :
  forall (n : nat) (dist : Z) (out out' : list Z),
    copyBack n dist out = Some out' ->
    copyBack n dist (pre ++ out) = Some (pre ++ out').
Proof.
  induction n as [|n IH]; intros dist out out' H; cbn [copyBack] in *.
  - now injection H as <-.
  - destruct ((1 <=? dist) && (dist <=? len out)) eqn:Hd; [|discriminate].
    apply andb_true_iff in Hd. destruct Hd as [H1 H2].
    apply Z.leb_le in H1, H2.
    rewrite len_app.
    replace ((1 <=? dist) && (dist <=? len pre + len out)) with true
      by (symmetry; apply andb_true_iff; split; apply Z.leb_le;
          pose proof (len_nonneg pre); lia).
    rewrite <- app_assoc.
    replace (nth (Z.to_nat (len pre + len out - dist)) (pre ++ out) 0)
      with (nth (Z.to_nat (len out - dist)) out 0).
    + apply IH. exact H.
    + rewrite app_nth2 by (unfold len in *; lia). f_equal. unfold len. lia.
Qed.

Lemma decodeLoop_after (pre : list Z) :
  forall (fuel : nat) (inp out out' : list Z),
    decodeLoop fuel inp out = Some out' ->
    decodeLoop fuel inp (pre ++ out) = Some (pre ++ out').
Proof.
  induction fuel as [|fuel IH]; intros inp out out' H; [discriminate|].
  cbn [decodeLoop] in *. destruct inp as [|h rest].
  - now injection H as <-.
  - destruct (Z.testbit h 7).
    + destruct (Z.land h 127 + 1 <=? len rest); [|discriminate].
      rewrite <- app_assoc. apply IH. exact H.
    + destruct rest as [|b rest']; [discriminate|].
      destruct (copyBack _ _ out) as [o|] eqn:Hcopy; [|discriminate].
      rewrite (copyBack_after pre _ _ _ _ Hcopy). apply IH. exact H.
Qed.

Lemma decodeLoop_mono :
  forall (fuel : nat) (inp out out' : list Z),
    decodeLoop fuel inp out = Some out' ->
    forall fuel', (fuel <= fuel')%nat ->
                  decodeLoop fuel' inp out = Some out'.
Proof.
  induction fuel as [|fuel IH]; intros inp out out' H fuel' Hf; [discriminate|].
  destruct fuel' as [|fuel']; [lia|].
  cbn [decodeLoop] in *. destruct inp as [|h rest]; [exact H|].
  destruct (Z.testbit h 7).
  - destruct (Z.land h 127 + 1 <=? len rest); [|discriminate].
    apply (IH _ _ _ H). lia.
  - destruct rest as [|b rest']; [discriminate|].
    destruct (copyBack _ _ out) as [o|]; [|discriminate].
    apply (IH _ _ _ H). lia.
Qed.

(** Fuel beyond the length of the input changes nothing. *)
Lemma decodeLoop_enough :
  forall (fuel : nat) (inp out out' : list Z),
    decodeLoop fuel inp out = Some out' ->
    forall fuel', (length inp < fuel')%nat ->
                  decodeLoop fuel' inp out = Some out'.
Proof.
  induction fuel as [|fuel IH]; intros inp out out' H fuel' Hf; [discriminate|].
  destruct fuel' as [|fuel']; [lia|].
  cbn [decodeLoop] in *. destruct inp as [|h rest]; [exact H|].
  cbn [length] in Hf.
  destruct (Z.testbit h 7).
  - destruct (Z.land h 127 + 1 <=? len rest); [|discriminate].
    apply (IH _ _ _ H). rewrite length_skipn. lia.
  - destruct rest as [|b rest']; [discriminate|].
    destruct (copyBack _ _ out) as [o|]; [|discriminate].
    apply (IH _ _ _ H). cbn [length] in Hf. lia.
Qed.

Lemma decodeLoop_app :
  forall (fuel : nat) (inp out out1 : list Z),
    decodeLoop fuel inp out = Some out1 ->
    forall (fuel2 : nat) (inp2 out2 : list Z),
      decodeLoop fuel2 inp2 out1 = Some out2 ->
      decodeLoop (fuel + fuel2) (inp ++ inp2) out = Some out2.
Proof.
  induction fuel as [|fuel IH]; intros inp out out1 H fuel2 inp2 out2 H2;
    [discriminate|].
  destruct inp as [|h rest].
  - cbn [decodeLoop] in H. injection H as <-. cbn [app].
    apply (decodeLoop_mono _ _ _ _ H2). lia.
  - cbn [app]. change (S fuel + fuel2)%nat with (S (fuel + fuel2)).
    cbn [decodeLoop] in *.
    destruct (Z.testbit h 7).
    + destruct (Z.land h 127 + 1 <=? len rest) eqn:Hn; [|discriminate].
      apply Z.leb_le in Hn.
      assert (Hpos : 0 <= Z.land h 127) by (apply Z.land_nonneg; right; lia).
      rewrite len_app.
      replace (Z.land h 127 + 1 <=? len rest + len inp2) with true
        by (symmetry; apply Z.leb_le; pose proof (len_nonneg inp2); lia).
      rewrite firstn_app, skipn_app.
      replace (Z.to_nat (Z.land h 127 + 1) - length rest)%nat with O
        by (unfold len in Hn; lia).
      cbn [firstn skipn]. rewrite app_nil_r.
      apply (IH _ _ _ H _ _ _ H2).
    + destruct rest as [|b rest']; [discriminate|]. cbn [app].
      destruct (copyBack _ _ out) as [o|]; [|discriminate].
      apply (IH _ _ _ H _ _ _ H2).
Qed.

(** [c] decodes to [p], whatever was decoded before it. *)
Definition decodesTo (c p : list Z) : Prop :=
  forall out, exists fuel, decodeLoop fuel c out = Some (out ++ p).

Lemma decodesTo_nil : decodesTo [] [].
Proof. intros out. exists 1%nat. cbn. now rewrite app_nil_r. Qed.

Lemma decodesTo_app (c1 p1 c2 p2 : list Z) :
  decodesTo c1 p1 -> decodesTo c2 p2 -> decodesTo (c1 ++ c2) (p1 ++ p2).
Proof.
  intros H1 H2 out.
  destruct (H1 out) as (f1 & Hf1). destruct (H2 (out ++ p1)) as (f2 & Hf2).
  exists (f1 + f2)%nat. rewrite app_assoc.
  apply (decodeLoop_app _ _ _ _ Hf1 _ _ _ Hf2).
Qed.

Lemma decodesTo_decode (c p : list Z) : decodesTo c p -> decode c = Some p.
Proof.
  intros H. destruct (H []) as (f & Hf). unfold decode.
  apply (decodeLoop_enough _ _ _ _ Hf). lia.
Qed.

Lemma compress_decodesTo (pix : list Z) :
  exists out, compress pix = Ok out /\ decodesTo out pix.
Proof.
  destruct (compressLoop_tokens pix (S (length pix)) 0 [])
    as (toks & Hrun & _ & Hdec).
  - pose proof (len_nonneg pix). lia.
  - unfold len. lia.
  - exists toks. split; [exact Hrun|]. intros pre.
    exists (S (length toks)).
    specialize (Hdec (S (length toks)) ltac:(unfold len; lia)).
    cbn [Z.to_nat firstn] in Hdec.
    pose proof (decodeLoop_after pre _ _ _ _ Hdec) as H.
    now rewrite app_nil_r in H.
Qed.

(** X5. Pieces compressed one by one decode in one go: the outputs of
    [compress] for a sequence of byte strings, put one after the other,
    decode to the byte strings put one after the other.  No token of a
    piece refers to bytes before its piece.  This is what the compressed
    upload relies on when it appends the compressed rows of a block. *)
Theorem compressed_pieces_decode_in_sequence (pieces outs : list (list Z)) :
  Forall2 (fun piece out => compress piece = Ok out) pieces outs ->
  decode (concat outs) = Some (concat pieces).
Proof.
  intros H. apply decodesTo_decode.
  induction H as [|piece out pieces outs Hrun _ IH]; [apply decodesTo_nil|].
  cbn [concat]. apply decodesTo_app; [|exact IH].
  destruct (compress_decodesTo piece) as (out' & Hrun' & Hdec).
  rewrite Hrun in Hrun'. injection Hrun' as <-. exact Hdec.
Qed.

Lemma compressed_pieces_decode_in_sequence_witness :
  decode ([129; 1; 2] ++ [130; 3; 4; 5]) = Some ([1; 2] ++ [3; 4; 5]).
Proof.
  apply (compressed_pieces_decode_in_sequence [[1; 2]; [3; 4; 5]]
           [[129; 1; 2]; [130; 3; 4; 5]]).
  repeat constructor.
Defined.

End LZ77.

(* ================================================================== *)
(** * Geometry and colours of the Go [image] packages *)
(* ================================================================== *)

Module Image.

(** [image.Point] and [image.Rectangle]. *)
Record Point : Type := Pt { X : Z; Y : Z }.
Record Rectangle : Type := Rect { Min : Point; Max : Point }.

(** [image.ZP] *)
Definition ZP : Point := Pt 0 0.

(** [func (r Rectangle) Size() Point] *)
Definition Size (r : Rectangle) : Point :=
  Pt (X (Max r) - X (Min r)) (Y (Max r) - Y (Min r)).

(** A [color.Color], through what its method [RGBA()] returns: four
    channels of 16 bits. *)
Record Color : Type := RGBA { red : Z; green : Z; blue : Z; alpha : Z }.

(** [draw.Op] *)
Inductive Op : Type := Over | Src.

End Image.

(* ================================================================== *)
(** * drawctl.go *)
(* ================================================================== *)

Module DrawCtl.
Import Go Image.

(** ** The data file and the controller

    What [d.data] is to the driver: every [Write] is one message to the
    device, kept in the order written; every [Read] is answered by the
    device with some bytes and possibly an error.  The answers of the device
    are not the driver's to choose: [device k] is the answer to the [k]-th
    [Read] of the session. *)
Record reply : Type := Reply { delivered : list Z; failed : bool }.

(** [type DrawCtrler struct], with the file behind [data] spelled out.
    [drawMu] only orders concurrent callers and has no counterpart in this
    sequential model. *)
Record DrawCtrler : Type := MkCtrler {
  N : Z;
  iounitSize : Z;
  nextId : Z;
  written : list (list Z);
  device : nat -> reply;
  reads : nat
}.

(** A method of [*DrawCtrler]: from the state before to an outcome and the
    state at the point where the method returned or panicked. *)
Definition M (A : Type) : Type := DrawCtrler -> result A * DrawCtrler.

Definition ret {A : Type} (a : A) : M A := fun d => (Ok a, d).

Definition bindM {A B : Type} (c : M A) (k : A -> M B) : M B :=
  fun d =>
    match c d with
    | (Ok a, d') => k a d'
    | (Panic, d') => (Panic, d')
    | (OutOfFuel, d') => (OutOfFuel, d')
    end.

(** A computation that does not touch the controller. *)
Definition lift {A : Type} (c : result A) : M A := fun d => (c, d).

Definition panic {A : Type} : M A := fun d => (Panic, d).
Definition outOfFuel {A : Type} : M A := fun d => (OutOfFuel, d).

Declare Scope drv_scope.
Notation "x <- c ;; k" := (bindM c (fun x => k))
  (at level 61, c at next level, right associativity) : drv_scope.
Notation "c ;;; k" := (bindM c (fun _ => k))
  (at level 61, right associativity) : drv_scope.

(** ** Bytes of a message *)

(** The command letter of a message. *)
Definition tag (c : Ascii.ascii) : Z := Z.of_nat (Ascii.nat_of_ascii c).

(** [make([]byte, n)]: panics on a negative length. *)
Definition make (n : Z) : result (list Z) :=
  if n <? 0 then Panic else Ok (repeat 0 (Z.to_nat n)).

(** The four bytes [binary.LittleEndian.PutUint32] stores for [v]. *)
Definition le32 (v : Z) : list Z :=
  [v mod 256; (v / 256) mod 256; (v / 65536) mod 256; (v / 16777216) mod 256].

(** Overwriting [msg] from offset [off] on with [bytes]; used where the
    target range is inside [msg]. *)
Definition store (msg : list Z) (off : nat) (bytes : list Z) : list Z :=
  firstn off msg ++ bytes ++ skipn (off + length bytes) msg.

(** [binary.LittleEndian.PutUint32(msg[off:], v)] *)
Definition putUint32 (msg : list Z) (off : nat) (v : Z) : list Z :=
  store msg off (le32 v).

(** [msg[off] = b] *)
Definition putByte (msg : list Z) (off : nat) (b : Z) : list Z :=
  store msg off [b].

(** [copy(dst, src)]: copies [min(len(dst), len(src))] elements. *)
Definition copy (dst src : list Z) : list Z :=
  let n := Nat.min (length dst) (length src) in
  firstn n src ++ skipn n dst.

(** [copy(msg[off:], src)] *)
Definition copyAt (msg : list Z) (off : nat) (src : list Z) : list Z :=
  firstn off msg ++ copy (skipn off msg) src.

(** Go's integer division: truncated, and a panic on a zero divisor. *)
Definition quo (a b : Z) : result Z :=
  if b =? 0 then Panic else Ok (Z.quot a b).

Notation "' p <- c ;; k" := (bindM c (fun x => match x with p => k end))
  (at level 61, p pattern, c at next level, right associativity) : drv_scope.
Local Open Scope drv_scope.

(** ** The methods *)

Definition get : M DrawCtrler := fun d => (Ok d, d).

(** The controller [NewDrawCtrler] returns when it succeeds, for the draw
    index [n] parsed from /dev/draw/new and the iounit [iounit] parsed from
    /proc/$pid/fd: [dc := &DrawCtrler{nextId: 2}], nothing written to the
    data file and nothing read from it yet. *)
Definition NewDrawCtrler (n iounit : Z) (dev : nat -> reply) : DrawCtrler :=
  MkCtrler n iounit 2 [] dev O.

(** [func (d DrawCtrler) sendMessage(cmd byte, val []byte) error]: one
    [Write] of [cmd] followed by [val].  No caller modelled here looks at the
    error it returns. *)
Definition sendMessage (cmd : Z) (val : list Z) : M unit :=
  fun d =>
    (Ok tt,
     MkCtrler (N d) (iounitSize d) (nextId d) (written d ++ [cmd :: val])
       (device d) (reads d)).

(** [n, err := d.data.Read(buf)]: the device's next answer is copied to the
    front of [buf]; the buffer after the read and whether [err != nil] are
    returned.  Both callers drop [n]. *)
Definition dataRead (buf : list Z) : M (list Z * bool) :=
  fun d =>
    let answer := device d (reads d) in
    (Ok (copy buf (delivered answer), failed answer),
     MkCtrler (N d) (iounitSize d) (nextId d) (written d) (device d)
       (S (reads d))).

(** [d.nextId += 1] on a [uint32]. *)
Definition bumpNextId : M Z :=
  fun d =>
    let next := uint32 (nextId d + 1) in
    (Ok next,
     MkCtrler (N d) (iounitSize d) next (written d) (device d) (reads d)).

(** The 50 bytes [AllocBuffer] builds. *)
Definition allocMessage (newId refresh : Z) (repl : bool) (r clipr : Rectangle)
  (color : Color) : list Z :=
  let msg := repeat 0 50 in
  let msg := putUint32 msg 0 newId in
  let msg := putByte msg 8 refresh in
  let msg := putByte msg 9 8 in
  let msg := putByte msg 10 24 in
  let msg := putByte msg 11 40 in
  let msg := putByte msg 12 72 in
  let msg := if repl then putByte msg 13 1 else msg in
  let msg := putUint32 msg 14 (uint32 (X (Min r))) in
  let msg := putUint32 msg 18 (uint32 (Y (Min r))) in
  let msg := putUint32 msg 22 (uint32 (X (Max r))) in
  let msg := putUint32 msg 26 (uint32 (Y (Max r))) in
  let msg := putUint32 msg 30 (uint32 (X (Min clipr))) in
  let msg := putUint32 msg 34 (uint32 (Y (Min clipr))) in
  let msg := putUint32 msg 38 (uint32 (X (Max clipr))) in
  let msg := putUint32 msg 42 (uint32 (Y (Max clipr))) in
  let msg := putByte msg 46 (uint8 (Z.shiftr (alpha color) 8)) in
  let msg := putByte msg 47 (uint8 (Z.shiftr (blue color) 8)) in
  let msg := putByte msg 48 (uint8 (Z.shiftr (green color) 8)) in
  let msg := putByte msg 49 (uint8 (Z.shiftr (red color) 8)) in
  msg.

(** [func (d *DrawCtrler) AllocBuffer(refresh byte, repl bool, r, clipr
    image.Rectangle, color color.Color) uint32] *)
Definition AllocBuffer (refresh : Z) (repl : bool) (r clipr : Rectangle)
  (color : Color) : M Z :=
  newId <- bumpNextId ;;
  sendMessage (tag "b") (allocMessage newId refresh repl r clipr color) ;;;
  ret newId.

(** [func (d *DrawCtrler) FreeID(id uint32)] *)
Definition FreeID (id : Z) : M unit :=
  sendMessage (tag "f") (putUint32 (repeat 0 4) 0 id).

(** [func (d *DrawCtrler) setOp(op draw.Op)] *)
Definition setOp (op : Op) : M unit :=
  let msg := repeat 0 1 in
  let msg := match op with
             | Src => putByte msg 0 10
             | Over => putByte msg 0 11
             end in
  sendMessage (tag "O") msg.

(** [func (d *DrawCtrler) Draw(dstid, srcid, maskid uint32, r
    image.Rectangle, srcp, maskp image.Point, op draw.Op)] *)
Definition Draw (dstid srcid maskid : Z) (r : Rectangle) (srcp maskp : Point)
  (op : Op) : M unit :=
  setOp op ;;;
  let msg := repeat 0 44 in
  let msg := putUint32 msg 0 dstid in
  let msg := putUint32 msg 4 srcid in
  let msg := putUint32 msg 8 maskid in
  let msg := putUint32 msg 12 (uint32 (X (Min r))) in
  let msg := putUint32 msg 16 (uint32 (Y (Min r))) in
  let msg := putUint32 msg 20 (uint32 (X (Max r))) in
  let msg := putUint32 msg 24 (uint32 (Y (Max r))) in
  let msg := putUint32 msg 28 (uint32 (X srcp)) in
  let msg := putUint32 msg 32 (uint32 (Y srcp)) in
  let msg := putUint32 msg 36 (uint32 (X maskp)) in
  let msg := putUint32 msg 40 (uint32 (Y maskp)) in
  sendMessage (tag "d") msg.

(** The message of one flush of [compressedReplaceSubimage]: the rows
    [y0, y1) of the rectangle and the compressed bytes gathered so far. *)
Definition compressedMessage (dstid : Z) (r : Rectangle) (y0 y1 : Z)
  (compressed : list Z) : list Z :=
  let msg := repeat 0 (20 + length compressed) in
  let msg := putUint32 msg 0 dstid in
  let msg := putUint32 msg 4 (uint32 (X (Min r))) in
  let msg := putUint32 msg 8 (uint32 y0) in
  let msg := putUint32 msg 12 (uint32 (X (Max r))) in
  let msg := putUint32 msg 16 (uint32 y1) in
  copyAt msg 20 compressed.

(** The loop [for i := 0; i < rSize.Y; i += 1] of
    [compressedReplaceSubimage].  The bounds of the row, [i * 4 * rSize.X]
    and [rSize.X * 4], are products in [Z]: they are the code's while
    [rSize.X * rSize.Y * 4] is within [int]. *)
Fixpoint compressedRows (fuel : nat) (dstid : Z) (r : Rectangle)
  (pixels : list Z) (i blockYStart : Z) (compressed : list Z) : M unit :=
  match fuel with
  | O => outOfFuel
  | S fuel' =>
      let rSize := Size r in
      if i <? Y rSize then
        let rowStart := i * 4 * X rSize in
        linePixels <- lift (slice pixels rowStart (rowStart + X rSize * 4)) ;;
        compressedLine <- lift (LZ77.compress linePixels) ;;
        d <- get ;;
        if (len compressed + len compressedLine >=? iounitSize d)
           || (i =? Y rSize - 1)
        then
          sendMessage (tag "Y")
            (compressedMessage dstid r (Y (Min r) + blockYStart)
               (Y (Min r) + i) compressed) ;;;
          compressedRows fuel' dstid r pixels (i + 1) i compressedLine
        else
          compressedRows fuel' dstid r pixels (i + 1) blockYStart
            (compressed ++ compressedLine)
      else ret tt
  end.

(** [func (d *DrawCtrler) compressedReplaceSubimage(dstid uint32, r
    image.Rectangle, pixels []byte)] *)
Definition compressedReplaceSubimage (dstid : Z) (r : Rectangle)
  (pixels : list Z) : M unit :=
  compressedRows (S (Z.to_nat (Y (Size r)))) dstid r pixels 0 0 [].

(** [binary.LittleEndian.PutUint32(msg[off:], v)] on a buffer whose length
    was computed: a panic when the four bytes do not fit. *)
Definition putUint32At (msg : list Z) (off : nat) (v : Z) : result (list Z) :=
  if (off + 4 <=? length msg)%nat then Ok (putUint32 msg off v) else Panic.

(** The loop [for i := r.Min.Y; i < r.Max.Y; i += lineSize] of
    [ReplaceSubimage].  The sizes and the offset [i * rSize.X * 4] are
    products in [Z]: they are the code's while they are within [int]. *)
Fixpoint plainRows (fuel : nat) (dstid : Z) (r : Rectangle) (pixels : list Z)
  (lineSize : Z) (msg : list Z) (i : Z) : M unit :=
  match fuel with
  | O => outOfFuel
  | S fuel' =>
      let rSize := Size r in
      if i <? Y (Max r) then
        let over := i + lineSize >? Y (Max r) in
        let endline := if over then Y (Max r) else i + lineSize in
        msg <- (if over
                then
                  fresh <- lift (make (20 + X rSize * (endline - i) * 4)) ;;
                  fresh <- lift (putUint32At fresh 0 dstid) ;;
                  fresh <- lift (putUint32At fresh 4 (uint32 (X (Min r)))) ;;
                  lift (putUint32At fresh 12 (uint32 (X (Max r))))
                else ret msg) ;;
        msg <- lift (putUint32At msg 8 (uint32 i)) ;;
        msg <- lift (putUint32At msg 16 (uint32 endline)) ;;
        rest <- lift (sliceFrom pixels (i * X rSize * 4)) ;;
        let msg := copyAt msg 20 rest in
        sendMessage (tag "y") msg ;;;
        plainRows fuel' dstid r pixels lineSize msg (i + lineSize)
      else ret tt
  end.

(** [func (d *DrawCtrler) ReplaceSubimage(dstid uint32, r image.Rectangle,
    pixels []byte)].  The byte size [rSize.X * rSize.Y * 4] is a product in
    [Z]: it is the code's while it is within [int]. *)
Definition ReplaceSubimage (dstid : Z) (r : Rectangle) (pixels : list Z)
  : M unit :=
  d <- get ;;
  if (iounitSize d <? 65535) && (len pixels >? 256) then
    compressedReplaceSubimage dstid r pixels
  else
    let rSize := Size r in
    if X rSize * Y rSize * 4 + 21 <? iounitSize d then
      msg <- lift (make (20 + X rSize * Y rSize * 4)) ;;
      msg <- lift (putUint32At msg 0 dstid) ;;
      msg <- lift (putUint32At msg 4 (uint32 (X (Min r)))) ;;
      msg <- lift (putUint32At msg 8 (uint32 (Y (Min r)))) ;;
      msg <- lift (putUint32At msg 12 (uint32 (X (Max r)))) ;;
      msg <- lift (putUint32At msg 16 (uint32 (Y (Max r)))) ;;
      sendMessage (tag "y") (copyAt msg 20 pixels)
    else
      quarter <- lift (quo (iounitSize d) 4) ;;
      lineSize <- lift (quo quarter (X rSize)) ;;
      msg <- lift (make (20 + X rSize * lineSize * 4)) ;;
      msg <- lift (putUint32At msg 0 dstid) ;;
      msg <- lift (putUint32At msg 4 (uint32 (X (Min r)))) ;;
      msg <- lift (putUint32At msg 12 (uint32 (X (Max r)))) ;;
      plainRows (S (Z.to_nat (Y rSize))) dstid r pixels lineSize msg
        (Y (Min r)).

(** The loop [for i := r.Min.Y; i < r.Max.Y; i += lineSize] of
    [ReadSubimage].  The row counter and the offset are sums and products
    in [Z]: they are the code's while [r.Max.Y + lineSize] and the byte
    size of the rectangle are within [int]. *)
Fixpoint readRows (fuel : nat) (r : Rectangle) (lineSize : Z)
  (msg pixels : list Z) (i : Z) : M (list Z) :=
  match fuel with
  | O => outOfFuel
  | S fuel' =>
      if i <? Y (Max r) then
        let endline :=
          if i + lineSize >? Y (Max r) then Y (Max r) else i + lineSize in
        let msg := putUint32 msg 8 (uint32 i) in
        let msg := putUint32 msg 16 (uint32 endline) in
        let pixelsOffset := (i - Y (Min r)) * X (Size r) * 4 in
        sendMessage (tag "r") msg ;;;
        buf <- lift (sliceFrom pixels pixelsOffset) ;;
        '(buf', err) <- dataRead buf ;;
        if err : bool then panic
        else
          readRows fuel' r lineSize msg
            (firstn (Z.to_nat pixelsOffset) pixels ++ buf') (i + lineSize)
      else ret pixels
  end.

(** [func (d *DrawCtrler) ReadSubimage(src uint32, r image.Rectangle)
    []uint8].  The byte size [rSize.X * rSize.Y * 4] is a product in [Z]: it
    is the code's while it is within [int] ([sizeFitsInt] below). *)
Definition ReadSubimage (src : Z) (r : Rectangle) : M (list Z) :=
  let rSize := Size r in
  let msg := repeat 0 20 in
  pixels <- lift (make (X rSize * Y rSize * 4)) ;;
  d <- get ;;
  if X rSize * Y rSize * 4 <? iounitSize d then
    let msg := putUint32 msg 0 src in
    let msg := putUint32 msg 4 (uint32 (X (Min r))) in
    let msg := putUint32 msg 8 (uint32 (Y (Min r))) in
    let msg := putUint32 msg 12 (uint32 (X (Max r))) in
    let msg := putUint32 msg 16 (uint32 (Y (Max r))) in
    sendMessage (tag "r") msg ;;;
    '(pixels', err) <- dataRead pixels ;;
    if err : bool then panic else ret pixels'
  else
    let msg := putUint32 msg 0 src in
    let msg := putUint32 msg 4 (uint32 (X (Min r))) in
    let msg := putUint32 msg 12 (uint32 (X (Max r))) in
    quarter <- lift (quo (iounitSize d) 4) ;;
    lineSize <- lift (quo quarter (X rSize)) ;;
    readRows (S (Z.to_nat (Y rSize))) r lineSize msg pixels (Y (Min r)).

(** ** A session as a sequence of calls *)

Inductive call : Type :=
| CallAllocBuffer (refresh : Z) (repl : bool) (r clipr : Rectangle)
    (color : Color)
| CallFreeID (id : Z).

(** The ids the [AllocBuffer] calls of a sequence of calls return, in the
    order of the calls. *)
Fixpoint issued (calls : list call) (d : DrawCtrler) : list Z :=
  match calls with
  | [] => []
  | CallAllocBuffer refresh repl r clipr color :: calls' =>
      match AllocBuffer refresh repl r clipr color d with
      | (Ok id, d') => id :: issued calls' d'
      | (_, d') => issued calls' d'
      end
  | CallFreeID id :: calls' => issued calls' (snd (FreeID id d))
  end.

Definition isAlloc (c : call) : bool :=
  match c with CallAllocBuffer _ _ _ _ _ => true | CallFreeID _ => false end.

(** ** Results on [AllocBuffer] *)

Lemma AllocBuffer_run (refresh : Z) (repl : bool) (r clipr : Rectangle)
  (color : Color) (d : DrawCtrler) :
  AllocBuffer refresh repl r clipr color d
  = (Ok (uint32 (nextId d + 1)),
     MkCtrler (N d) (iounitSize d) (uint32 (nextId d + 1))
       (written d ++
        [tag "b" ::
           allocMessage (uint32 (nextId d + 1)) refresh repl r clipr color])
       (device d) (reads d)).
Proof. reflexivity. Qed.

Lemma FreeID_run (id : Z) (d : DrawCtrler) :
  FreeID id d
  = (Ok tt,
     MkCtrler (N d) (iounitSize d) (nextId d)
       (written d ++ [tag "f" :: putUint32 (repeat 0 4) 0 id])
       (device d) (reads d)).
Proof. reflexivity. Qed.

(** C9, as the code has it.  Every 'b' message of [AllocBuffer] carries,
    after the command letter, 50 bytes: newId(4), four zero bytes (the
    screenid field of draw(3), never filled in), refresh(1), the channel
    format as the four bytes 8, 24, 40, 72, repl(1), bounds(4x4), clip(4x4)
    and the colour as the bytes a, b, g, r; the integers little-endian. *)
Theorem AllocBuffer_message_layout (refresh : Z) (repl : bool)
  (r clipr : Rectangle) (color : Color) (d : DrawCtrler) :
  let newId := uint32 (nextId d + 1) in
  let payload :=
    le32 newId ++ [0; 0; 0; 0] ++ [refresh] ++ [8; 24; 40; 72] ++
    [if repl then 1 else 0] ++
    le32 (uint32 (X (Min r))) ++ le32 (uint32 (Y (Min r))) ++
    le32 (uint32 (X (Max r))) ++ le32 (uint32 (Y (Max r))) ++
    le32 (uint32 (X (Min clipr))) ++ le32 (uint32 (Y (Min clipr))) ++
    le32 (uint32 (X (Max clipr))) ++ le32 (uint32 (Y (Max clipr))) ++
    [uint8 (Z.shiftr (alpha color) 8); uint8 (Z.shiftr (blue color) 8);
     uint8 (Z.shiftr (green color) 8); uint8 (Z.shiftr (red color) 8)] in
  fst (AllocBuffer refresh repl r clipr color d) = Ok newId /\
  written (snd (AllocBuffer refresh repl r clipr color d))
  = written d ++ [tag "b" :: payload] /\
  length payload = 50%nat.
Proof.
  intros newId payload. rewrite AllocBuffer_run. cbn [fst snd written].
  split; [reflexivity|]. split.
  - do 2 f_equal. f_equal. unfold payload. destruct repl; reflexivity.
  - unfold payload. destruct repl; reflexivity.
Qed.

(** C9 as stated fails: the payload is 50 bytes long, not 46, and refresh is
    at offset 8, not 4 (offsets 4 to 7 hold the zero screenid). *)
Lemma AllocBuffer_payload_is_50_bytes :
  let d := NewDrawCtrler 1 65535 (fun _ => Reply [] false) in
  let r := Rect (Pt 0 0) (Pt 1 1) in
  let msg := last (written (snd (AllocBuffer 7 true r r (RGBA 0 0 0 65535) d))) [] in
  length (tl msg) = 50%nat /\ nth 4 (tl msg) 0 = 0 /\ nth 8 (tl msg) 0 = 7.
Proof. vm_compute. repeat split. Qed.

(** ** Results on the allocation of ids *)

(** The number of [AllocBuffer] calls in a sequence of calls. *)
Definition allocations (calls : list call) : nat :=
  length (filter isAlloc calls).

(** The ids issued are the values the counter takes: the [k]-th
    [AllocBuffer] call (from 0) returns the counter's start plus [k+1],
    reduced to 32 bits; [FreeID] calls in between change nothing. *)
Lemma issued_counter (calls : list call) :
  forall d : DrawCtrler,
    0 <= nextId d < 4294967296 ->
    issued calls d
    = map (fun k => uint32 (nextId d + 1 + Z.of_nat k))
        (seq 0 (allocations calls)).
Proof.
  induction calls as [|c calls IH]; intros d Hd.
  - reflexivity.
  - destruct c as [refresh repl r clipr color | id].
    + cbn [issued]. rewrite AllocBuffer_run.
      unfold allocations. cbn [filter isAlloc length seq map].
      rewrite Z.add_0_r. f_equal.
      rewrite IH by (cbn [nextId]; apply Z.mod_pos_bound; lia).
      cbn [nextId]. rewrite <- seq_shift, map_map.
      apply map_ext. intros k. unfold uint32.
      rewrite <- Z.add_assoc, Zplus_mod_idemp_l. f_equal. lia.
    + cbn [issued]. rewrite FreeID_run. cbn [snd].
      rewrite IH by exact Hd. reflexivity.
Qed.

Lemma nth_map_seq (f : nat -> Z) (n k : nat) :
  (k < n)%nat -> nth k (map f (seq 0 n)) 0 = f k.
Proof.
  intros Hk.
  rewrite (nth_indep _ 0 (f O)) by (rewrite length_map, length_seq; exact Hk).
  rewrite map_nth, seq_nth by exact Hk. reflexivity.
Qed.

Lemma issued_nth (calls : list call) (d : DrawCtrler) (k : nat) :
  0 <= nextId d < 4294967296 ->
  (k < allocations calls)%nat ->
  nth k (issued calls d) 0 = uint32 (nextId d + 1 + Z.of_nat k).
Proof.
  intros Hd Hk. rewrite issued_counter by exact Hd.
  now rewrite nth_map_seq by exact Hk.
Qed.

(** C5. The first id of a session is 3, not 2.  [NewDrawCtrler] sets the
    counter to 2 ("start allocating new IDs at 2"), and [AllocBuffer], which
    calls the counter "the next available ID", adds one to it before it uses
    it.  So in every session, whatever the device and whatever the calls,
    the first [AllocBuffer] call returns 3, and id 2 is returned by none of
    the calls as long as there are fewer than 2^32 of them. *)
Theorem first_id_of_a_session_is_3 (n iounit : Z) (dev : nat -> reply)
  (calls : list call) :
  (1 <= allocations calls)%nat ->
  Z.of_nat (allocations calls) < 4294967296 ->
  let ids := issued calls (NewDrawCtrler n iounit dev) in
  nth 0 ids 0 = 3 /\ ~ In 2 ids.
Proof.
  intros Hsome Hfew ids.
  assert (Hd : 0 <= nextId (NewDrawCtrler n iounit dev) < 4294967296)
    by (cbn; lia).
  split.
  - unfold ids. rewrite issued_nth by (try exact Hd; lia). reflexivity.
  - unfold ids. rewrite issued_counter by exact Hd.
    intros Hin. apply in_map_iff in Hin. destruct Hin as (k & Hk & Hseq).
    apply in_seq in Hseq. cbn [nextId NewDrawCtrler] in Hk.
    unfold uint32 in Hk.
    destruct (Z.lt_ge_cases (2 + 1 + Z.of_nat k) 4294967296) as [Hlt | Hge].
    + rewrite Z.mod_small in Hk by lia. lia.
    + replace (2 + 1 + Z.of_nat k)
        with (2 + 1 + Z.of_nat k - 4294967296 + 1 * 4294967296) in Hk by lia.
      rewrite Z.mod_add in Hk by lia.
      rewrite Z.mod_small in Hk by lia. lia.
Qed.

Lemma first_id_of_a_session_is_3_witness :
  let r := Rect (Pt 0 0) (Pt 1 1) in
  let c := RGBA 0 0 0 65535 in
  let calls := [CallAllocBuffer 0 false r r c; CallFreeID 3;
                CallAllocBuffer 0 true r r c] in
  let ids := issued calls (NewDrawCtrler 1 65535 (fun _ => Reply [] false)) in
  ids = [3; 4] /\ nth 0 ids 0 = 3 /\ ~ In 2 ids.
Proof.
  intros r c calls ids.
  split; [reflexivity|].
  apply (first_id_of_a_session_is_3 1 65535 (fun _ => Reply [] false) calls).
  - cbn. lia.
  - cbn. lia.
Defined.

(** The rest of what is said of the ids holds on the code while the counter
    has not gone round.  [AllocBuffer] returns the counter's value plus
    one, reduced to 32 bits, and stores it; [FreeID] leaves the counter alone
    (freed ids are not recycled).  So in a sequence of [AllocBuffer] and
    [FreeID] calls that does not take the counter past 2^32 - 1, the ids
    issued are consecutive, every id is strictly greater than all ids issued
    before it, and no id is issued twice. *)
Lemma issued_ids_increase (calls : list call) (d : DrawCtrler) :
  0 <= nextId d ->
  nextId d + Z.of_nat (allocations calls) < 4294967296 ->
  issued calls d
  = map (fun k => nextId d + 1 + Z.of_nat k) (seq 0 (allocations calls)) /\
  (forall i j, (i < j < length (issued calls d))%nat ->
               nth i (issued calls d) 0 < nth j (issued calls d) 0) /\
  NoDup (issued calls d).
Proof.
  intros Hd Hroom.
  assert (Hids : issued calls d
                 = map (fun k => nextId d + 1 + Z.of_nat k)
                     (seq 0 (allocations calls))).
  { rewrite issued_counter by lia. apply map_ext_in.
    intros k Hk. apply in_seq in Hk. unfold uint32.
    apply Z.mod_small. lia. }
  split; [exact Hids|]. rewrite Hids. split.
  - intros i j. rewrite length_map, length_seq. intros Hij.
    rewrite !nth_map_seq by lia. lia.
  - apply Injective_map_NoDup.
    + intros a b Hab. lia.
    + apply seq_NoDup.
Qed.

Example issued_ids_increase_in_a_session :
  let d := NewDrawCtrler 1 65535 (fun _ => Reply [] false) in
  let r := Rect (Pt 0 0) (Pt 1 1) in
  let c := RGBA 0 0 0 65535 in
  let calls := [CallAllocBuffer 0 false r r c; CallFreeID 3;
                CallAllocBuffer 0 true r r c; CallAllocBuffer 0 false r r c] in
  issued calls d = [3; 4; 5] /\ NoDup (issued calls d).
Proof.
  intros d r c calls.
  destruct (issued_ids_increase calls d) as (Hids & _ & Hnodup).
  - cbn. lia.
  - cbn. lia.
  - split; [reflexivity | exact Hnodup].
Qed.

(** The counter has 32 bits: in a session of 2^32 + 1 [AllocBuffer] calls
    the last call returns the id the first call returned. *)
Example issued_ids_wrap_around :
  let d := NewDrawCtrler 1 65535 (fun _ => Reply [] false) in
  let alloc := CallAllocBuffer 0 false (Rect ZP ZP) (Rect ZP ZP) (RGBA 0 0 0 0) in
  let calls := repeat alloc (Z.to_nat 4294967297) in
  nth 0 (issued calls d) 0 = 3 /\
  nth (Z.to_nat 4294967296) (issued calls d) 0 = 3.
Proof.
  intros d alloc calls.
  assert (Hn : allocations calls = Z.to_nat 4294967297).
  { unfold allocations, calls.
    generalize (Z.to_nat 4294967297). intros n.
    induction n as [|n IH]; [reflexivity|].
    cbn [repeat filter]. unfold alloc at 1. cbn [isAlloc length].
    now rewrite IH. }
  assert (Hd : 0 <= nextId d < 4294967296) by (cbn; lia).
  split.
  - rewrite issued_nth; [reflexivity | exact Hd | rewrite Hn; lia].
  - rewrite issued_nth; [| exact Hd | rewrite Hn; lia].
    rewrite Z2Nat.id by lia. reflexivity.
Qed.

(** The first call by itself: [nextId] starts at 2 and is incremented
    before it is used. *)
Example first_AllocBuffer_returns_3 :
  forall refresh repl r clipr color n iounit dev,
    fst (AllocBuffer refresh repl r clipr color (NewDrawCtrler n iounit dev))
    = Ok 3.
Proof. reflexivity. Qed.

(** ** Results on [compressedReplaceSubimage] *)

(** The controller after further messages were written. *)
Definition appendWritten (d : DrawCtrler) (msgs : list (list Z)) : DrawCtrler :=
  MkCtrler (N d) (iounitSize d) (nextId d) (written d ++ msgs) (device d)
    (reads d).

Lemma appendWritten_app (d : DrawCtrler) (a b : list (list Z)) :
  appendWritten (appendWritten d a) b = appendWritten d (a ++ b).
Proof. unfold appendWritten. cbn. now rewrite app_assoc. Qed.

(** A flushed block: the rows [y0, y1) of the rectangle (counted from its
    first row) and their compressed bytes; and the 'Y' message it becomes. *)
Definition block : Type := (Z * Z * list Z)%type.

Definition blockMessage (dstid : Z) (r : Rectangle) (b : block) : list Z :=
  let '(y0, y1, compressed) := b in
  tag "Y" ::
    compressedMessage dstid r (Y (Min r) + y0) (Y (Min r) + y1) compressed.

(** The row ranges of the blocks follow one another from row [a] to row
    [b], the last one ending before [b]. *)
Fixpoint chained (a b : Z) (blocks : list block) : Prop :=
  match blocks with
  | [] => a = b
  | (y0, y1, _) :: rest => y0 = a /\ y0 <= y1 /\ chained y1 b rest
  end.

Lemma chained_bounds (blocks : list block) :
  forall a b, chained a b blocks ->
    a <= b /\
    forall y0 y1 c, In (y0, y1, c) blocks -> a <= y0 /\ y0 <= y1 /\ y1 <= b.
Proof.
  induction blocks as [|[[y0 y1] c] rest IH]; intros a b H.
  - cbn in H. split; [lia | intros ? ? ? []].
  - cbn in H. destruct H as (-> & Hle & Hrest).
    destruct (IH _ _ Hrest) as [Hab Hin]. split; [lia|].
    intros y0' y1' c' [Heq | Hin'].
    + injection Heq as <- <- <-. lia.
    + specialize (Hin _ _ _ Hin'). lia.
Qed.

Lemma compressedRows_blocks (dstid : Z) (r : Rectangle) (pixels : list Z) :
  0 <= X (Size r) -> X (Size r) * Y (Size r) * 4 <= len pixels ->
  forall (fuel : nat) (i blockYStart : Z) (compressed : list Z)
         (d : DrawCtrler),
    0 <= blockYStart <= i -> i < Y (Size r) ->
    Y (Size r) - i < Z.of_nat fuel ->
    exists blocks,
      compressedRows fuel dstid r pixels i blockYStart compressed d
      = (Ok tt, appendWritten d (map (blockMessage dstid r) blocks)) /\
      chained blockYStart (Y (Size r) - 1) blocks.
Proof.
  intros Hw Hpix.
  induction fuel as [|fuel IH]; intros i bs compressed d Hbs Hi Hfuel; [lia|].
  cbn [compressedRows].
  replace (i <? Y (Size r)) with true by (symmetry; apply Z.ltb_lt; lia).
  unfold bindM at 1, lift at 1.
  rewrite LZ77.slice_in_range by nia.
  destruct (LZ77.compress_returns
              (firstn (Z.to_nat (i * 4 * X (Size r) + X (Size r) * 4
                                 - i * 4 * X (Size r)))
                 (skipn (Z.to_nat (i * 4 * X (Size r))) pixels)))
    as (line & Hline).
  unfold bindM at 1, lift at 1. rewrite Hline.
  unfold bindM at 1, get at 1.
  destruct ((len compressed + len line >=? iounitSize d)
            || (i =? Y (Size r) - 1)) eqn:Hflush.
  - (* the rows gathered so far are sent; the current row starts a block *)
    unfold bindM at 1, sendMessage at 1.
    fold (appendWritten d
            [tag "Y" :: compressedMessage dstid r (Y (Min r) + bs)
                          (Y (Min r) + i) compressed]).
    destruct (Z.eq_dec i (Y (Size r) - 1)) as [Hlast | Hmore].
    + exists [(bs, i, compressed)]. split.
      * destruct fuel as [|fuel]; [lia|]. cbn [compressedRows].
        replace (i + 1 <? Y (Size r)) with false
          by (symmetry; apply Z.ltb_ge; lia).
        reflexivity.
      * cbn [chained]. lia.
    + destruct (IH (i + 1) i line
                  (appendWritten d
                     [tag "Y" :: compressedMessage dstid r (Y (Min r) + bs)
                                   (Y (Min r) + i) compressed]))
        as (blocks & Hrun & Hchain); try lia.
      exists ((bs, i, compressed) :: blocks). split.
      * rewrite Hrun, appendWritten_app. reflexivity.
      * cbn [chained]. repeat split; try lia. exact Hchain.
  - apply orb_false_iff in Hflush. destruct Hflush as [_ Hlast].
    apply Z.eqb_neq in Hlast.
    destruct (IH (i + 1) bs (compressed ++ line) d)
      as (blocks & Hrun & Hchain); try lia.
    exists blocks. split; assumption.
Qed.

(** C1 on the code.  For a 50x50 upload (10000 bytes) at the origin with a
    transfer unit of 1000 bytes, whatever the pixels, [ReplaceSubimage] takes
    the compressed path and sends 'Y' messages whose row ranges follow one
    another from row 0 and end at row 49, exclusive: rows 0 to 48 are sent
    once, and row 49, the last row, is in no message (each message carries
    the rows gathered before the row that triggered it, and the row in hand
    at the end of the loop is never sent). *)
Theorem ReplaceSubimage_omits_last_row (dstid n : Z) (dev : nat -> reply)
  (pixels : list Z) :
  len pixels = 10000 ->
  let d := NewDrawCtrler n 1000 dev in
  let r := Rect (Pt 0 0) (Pt 50 50) in
  exists blocks,
    ReplaceSubimage dstid r pixels d
    = (Ok tt, appendWritten d (map (blockMessage dstid r) blocks)) /\
    chained 0 49 blocks /\
    (forall y0 y1 c, In (y0, y1, c) blocks -> 0 <= y0 <= y1 /\ y1 <= 49).
Proof.
  intros Hlen d r.
  destruct (compressedRows_blocks dstid r pixels ltac:(cbn; lia)
              ltac:(cbn; lia) (S (Z.to_nat (Y (Size r)))) 0 0 [] d)
    as (blocks & Hrun & Hchain); try (cbn; lia).
  exists blocks. split; [|split].
  - unfold ReplaceSubimage, bindM at 1, get at 1.
    replace ((iounitSize d <? 65535) && (len pixels >? 256)) with true
      by (rewrite Hlen; reflexivity).
    exact Hrun.
  - exact Hchain.
  - intros y0 y1 c Hin.
    destruct (chained_bounds _ _ _ Hchain) as [_ Hb].
    specialize (Hb _ _ _ Hin). cbn in Hb. lia.
Qed.

Lemma ReplaceSubimage_omits_last_row_witness :
  let d := NewDrawCtrler 1 1000 (fun _ => Reply [] false) in
  let r := Rect (Pt 0 0) (Pt 50 50) in
  exists blocks,
    ReplaceSubimage 7 r (repeat 0 (Z.to_nat 10000)) d
    = (Ok tt, appendWritten d (map (blockMessage 7 r) blocks)) /\
    chained 0 49 blocks.
Proof.
  intros d r.
  destruct (ReplaceSubimage_omits_last_row 7 1 (fun _ => Reply [] false)
              (repeat 0 (Z.to_nat 10000)))
    as (blocks & Hrun & Hchain & _).
  - unfold len. rewrite repeat_length. lia.
  - exists blocks. split; assumption.
Defined.

(** The run on 10000 zero bytes: seven messages, for the rows [0,7), [7,14),
    ..., [42,49). *)
Example ReplaceSubimage_zero_pixels :
  let d := NewDrawCtrler 1 1000 (fun _ => Reply [] false) in
  let r := Rect (Pt 0 0) (Pt 50 50) in
  let sent := written (snd (ReplaceSubimage 7 r (repeat 0 (Z.to_nat 10000)) d)) in
  map (fun msg => (nth 0 msg 0, nth 9 msg 0, nth 17 msg 0)) sent
  = [(89, 0, 7); (89, 7, 14); (89, 14, 21); (89, 21, 28); (89, 28, 35);
     (89, 35, 42); (89, 42, 49)].
Proof. vm_compute. reflexivity. Qed.

(** ** Results on [ReadSubimage] *)

Lemma length_copy (dst src : list Z) : length (copy dst src) = length dst.
Proof.
  unfold copy. rewrite length_app, length_firstn, length_skipn. lia.
Qed.

Lemma sliceFrom_in_range (s : list Z) (lo : Z) :
  0 <= lo <= len s ->
  sliceFrom s lo = Ok (skipn (Z.to_nat lo) s).
Proof.
  intros H. unfold sliceFrom. rewrite LZ77.slice_in_range by lia.
  f_equal. apply firstn_all2. rewrite length_skipn. unfold len. lia.
Qed.

(** [math.MaxInt32]: what does not exceed it is within the range of [int],
    whether [int] has 32 or 64 bits, and a buffer of that many bytes is
    within the range of [make]. *)
Definition maxInt32 : Z := 2147483647.

(** The sizes the code computes from [r] are within the range of [int]: the
    width, the height, and the number of bytes of its pixels,
    [rSize.X * rSize.Y * 4]. *)
Definition sizeFitsInt (r : Rectangle) : Prop :=
  X (Size r) <= maxInt32 /\ Y (Size r) <= maxInt32 /\
  X (Size r) * Y (Size r) * 4 <= maxInt32.

(** What a run of reads looks like from outside: [k] reads were made and
    [k] messages written; an [Ok] run saw no error on any read; a panic came
    with the error of the last read, the reads before it being free of
    errors. *)
Definition readsOutcome (d d' : DrawCtrler) (k : nat) (size : Z)
  (res : result (list Z)) : Prop :=
  reads d' = (reads d + k)%nat /\
  length (written d') = (length (written d) + k)%nat /\
  device d' = device d /\
  match res with
  | Ok pixels =>
      len pixels = size /\
      forall j, (j < k)%nat -> failed (device d (reads d + j)%nat) = false
  | Panic =>
      (1 <= k)%nat /\
      failed (device d (reads d + k - 1)%nat) = true /\
      forall j, (j < k - 1)%nat -> failed (device d (reads d + j)%nat) = false
  | OutOfFuel => False
  end.

(** One turn of the loop of [ReadSubimage]. *)
Lemma readRows_step (fuel : nat) (r : Rectangle) (lineSize : Z)
  (msg pixels : list Z) (i : Z) (d : DrawCtrler) :
  i < Y (Max r) ->
  0 <= (i - Y (Min r)) * X (Size r) * 4 <= len pixels ->
  let off := (i - Y (Min r)) * X (Size r) * 4 in
  let endline :=
    if i + lineSize >? Y (Max r) then Y (Max r) else i + lineSize in
  let msg' := putUint32 (putUint32 msg 8 (uint32 i)) 16 (uint32 endline) in
  let answer := device d (reads d) in
  let d2 := MkCtrler (N d) (iounitSize d) (nextId d)
              (written d ++ [tag "r" :: msg']) (device d) (S (reads d)) in
  let pixels' := firstn (Z.to_nat off) pixels
                 ++ copy (skipn (Z.to_nat off) pixels) (delivered answer) in
  readRows (S fuel) r lineSize msg pixels i d
  = if failed answer then (Panic, d2)
    else readRows fuel r lineSize msg' pixels' (i + lineSize) d2.
Proof.
  intros Hlt Hoff off endline msg' answer d2 pixels'.
  cbn [readRows]. apply Z.ltb_lt in Hlt. rewrite Hlt.
  unfold bindM at 1, sendMessage at 1.
  unfold bindM at 1, lift at 1.
  rewrite (sliceFrom_in_range pixels _ Hoff).
  unfold bindM at 1, dataRead at 1. cbn [device reads written N iounitSize nextId].
  fold answer. fold off. fold msg'.
  destruct (failed answer); reflexivity.
Qed.

Lemma readRows_outcome (r : Rectangle) (lineSize : Z) :
  0 <= X (Size r) -> 1 <= lineSize ->
  forall (fuel : nat) (msg pixels : list Z) (i : Z) (d : DrawCtrler),
    Y (Min r) <= i ->
    len pixels = X (Size r) * Y (Size r) * 4 ->
    Z.max 0 (Y (Max r) - i) < Z.of_nat fuel ->
    exists k,
      (i < Y (Max r) -> (1 <= k)%nat) /\
      readsOutcome d (snd (readRows fuel r lineSize msg pixels i d)) k
        (X (Size r) * Y (Size r) * 4)
        (fst (readRows fuel r lineSize msg pixels i d)).
Proof.
  intros Hw Hline.
  induction fuel as [|fuel IH]; intros msg pixels i d Hi Hlen Hfuel.
  { exfalso. cbn in Hfuel. lia. }
  destruct (i <? Y (Max r)) eqn:Hlt.
  2:{ apply Z.ltb_ge in Hlt. exists O. split; [lia|].
      cbn [readRows]. apply Z.ltb_ge in Hlt. rewrite Hlt.
      cbn [ret fst snd]. unfold readsOutcome.
      rewrite !Nat.add_0_r. repeat split; try assumption.
      intros j Hj. lia. }
  apply Z.ltb_lt in Hlt.
  assert (Hoff : 0 <= (i - Y (Min r)) * X (Size r) * 4 <= len pixels).
  { rewrite Hlen. cbn [Size X Y] in *. nia. }
  rewrite (readRows_step fuel r lineSize msg pixels i d Hlt Hoff).
  set (off := (i - Y (Min r)) * X (Size r) * 4) in *.
  set (answer := device d (reads d)).
  set (msg' := putUint32 _ 16 _).
  destruct (failed answer) eqn:Hfailed.
  - (* the read reports an error: panic, with nothing after it *)
    exists 1%nat. split; [lia|]. cbn [fst snd].
    unfold readsOutcome. cbn [reads written device].
    rewrite length_app. cbn [length].
    repeat split; try lia.
    replace (reads d + 1 - 1)%nat with (reads d) by lia. exact Hfailed.
  - (* no error: the buffer is taken as it is, however few bytes came *)
    set (d2 := MkCtrler (N d) (iounitSize d) (nextId d)
                 (written d ++ [tag "r" :: msg']) (device d) (S (reads d))).
    set (pixels' := firstn (Z.to_nat off) pixels
                    ++ copy (skipn (Z.to_nat off) pixels) (delivered answer)).
    assert (Hlen' : len pixels' = X (Size r) * Y (Size r) * 4).
    { rewrite <- Hlen. unfold pixels', len.
      rewrite length_app, length_firstn, length_copy, length_skipn.
      unfold len in Hoff. lia. }
    destruct (IH msg' pixels' (i + lineSize) d2) as (k & Hk & Hout);
      try lia.
    exists (S k). split; [lia|].
    destruct Hout as (Hreads & Hwritten & Hdev & Hres).
    unfold readsOutcome.
    rewrite Hreads, Hwritten, Hdev. cbn [reads written device d2].
    rewrite length_app. cbn [length].
    split; [lia|]. split; [lia|]. split; [reflexivity|].
    destruct (fst (readRows fuel r lineSize msg' pixels' (i + lineSize) d2))
      as [px | |].
    + destruct Hres as [Hpx Hall]. split; [exact Hpx|].
      intros j Hj. destruct j as [|j].
      * rewrite Nat.add_0_r. exact Hfailed.
      * replace (reads d + S j)%nat with (S (reads d) + j)%nat by lia.
        apply Hall. lia.
    + destruct Hres as (Hk1 & Hlast & Hall). split; [lia|]. split.
      * replace (reads d + S k - 1)%nat with (S (reads d) + k - 1)%nat by lia.
        exact Hlast.
      * intros j Hj. destruct j as [|j].
        -- rewrite Nat.add_0_r. exact Hfailed.
        -- replace (reads d + S j)%nat with (S (reads d) + j)%nat by lia.
           apply Hall. lia.
    + exact Hres.
Qed.

Lemma make_nonneg (n : Z) : 0 <= n -> make n = Ok (repeat 0 (Z.to_nat n)).
Proof.
  intros H. unfold make.
  replace (n <? 0) with false by (symmetry; apply Z.ltb_ge; exact H).
  reflexivity.
Qed.

Lemma quo_nonzero (a b : Z) : b <> 0 -> quo a b = Ok (Z.quot a b).
Proof.
  intros H. unfold quo. apply Z.eqb_neq in H. now rewrite H.
Qed.

(** The single-message path of [ReadSubimage]. *)
Lemma ReadSubimage_single (src : Z) (r : Rectangle) (d : DrawCtrler) :
  0 <= X (Size r) * Y (Size r) * 4 < iounitSize d ->
  exists msg,
    let answer := device d (reads d) in
    let d2 := MkCtrler (N d) (iounitSize d) (nextId d)
                (written d ++ [tag "r" :: msg]) (device d) (S (reads d)) in
    let pixels := repeat 0 (Z.to_nat (X (Size r) * Y (Size r) * 4)) in
    ReadSubimage src r d
    = if failed answer then (Panic, d2)
      else (Ok (copy pixels (delivered answer)), d2).
Proof.
  intros Hsize.
  exists (putUint32
            (putUint32
               (putUint32
                  (putUint32 (putUint32 (repeat 0 20) 0 src) 4
                     (uint32 (X (Min r))))
                  8 (uint32 (Y (Min r))))
               12 (uint32 (X (Max r))))
            16 (uint32 (Y (Max r)))).
  intros answer d2 pixels.
  unfold ReadSubimage.
  unfold bindM at 1, lift at 1. rewrite make_nonneg by lia.
  unfold bindM at 1, get at 1.
  replace (X (Size r) * Y (Size r) * 4 <? iounitSize d) with true
    by (symmetry; apply Z.ltb_lt; lia).
  unfold bindM at 1, sendMessage at 1.
  unfold bindM at 1, dataRead at 1.
  cbn [device reads written N iounitSize nextId].
  fold answer. fold pixels.
  destruct (failed answer); reflexivity.
Qed.

(** The chunked path of [ReadSubimage]. *)
Lemma ReadSubimage_chunked (src : Z) (r : Rectangle) (d : DrawCtrler) :
  0 < iounitSize d <= X (Size r) * Y (Size r) * 4 ->
  0 < X (Size r) ->
  exists msg,
    ReadSubimage src r d
    = readRows (S (Z.to_nat (Y (Size r)))) r
        (iounitSize d / 4 / X (Size r)) msg
        (repeat 0 (Z.to_nat (X (Size r) * Y (Size r) * 4))) (Y (Min r)) d.
Proof.
  intros Hsize Hw.
  exists (putUint32
            (putUint32 (putUint32 (repeat 0 20) 0 src) 4
               (uint32 (X (Min r))))
            12 (uint32 (X (Max r)))).
  unfold ReadSubimage.
  unfold bindM at 1, lift at 1. rewrite make_nonneg by lia.
  unfold bindM at 1, get at 1.
  replace (X (Size r) * Y (Size r) * 4 <? iounitSize d) with false
    by (symmetry; apply Z.ltb_ge; lia).
  unfold bindM at 1, lift at 1. rewrite quo_nonzero by lia.
  unfold bindM at 1, lift at 1. rewrite quo_nonzero by lia.
  rewrite (Z.quot_div_nonneg (iounitSize d) 4) by lia.
  rewrite Z.quot_div_nonneg by (try apply Z.div_pos; lia).
  reflexivity.
Qed.

(** C6, as the code has it.  Take a well-formed rectangle whose width,
    height and byte size do not exceed [maxInt32], a positive transfer unit
    with [Max.Y + iounitSize] within the same bound (the row counter of the
    loop does not wrap), and, where the rectangle does not fit one message,
    a transfer unit that holds at least one row.  Then [ReadSubimage] makes
    one read for each request it writes, at least one, and either panics or
    returns.  It panics at the first read that reports an error, and that
    read is the last thing it does (no further request, no retry).  When
    none of its reads reports an error it returns a buffer of the
    rectangle's byte size, whatever the number of bytes the reads delivered
    ([readsOutcome]). *)
Theorem ReadSubimage_fatal_on_read_error (src : Z) (r : Rectangle)
  (d : DrawCtrler) :
  X (Min r) <= X (Max r) -> Y (Min r) <= Y (Max r) ->
  sizeFitsInt r ->
  0 < iounitSize d -> Y (Max r) + iounitSize d <= maxInt32 ->
  (iounitSize d <= X (Size r) * Y (Size r) * 4 ->
   4 * X (Size r) <= iounitSize d) ->
  exists k,
    (1 <= k)%nat /\
    readsOutcome d (snd (ReadSubimage src r d)) k
      (X (Size r) * Y (Size r) * 4) (fst (ReadSubimage src r d)).
Proof.
  intros HX HY _ Hunit _ Hrow.
  assert (Hw : 0 <= X (Size r)) by (cbn; lia).
  assert (Hh : 0 <= Y (Size r)) by (cbn; lia).
  assert (Harea : 0 <= X (Size r) * Y (Size r) * 4) by nia.
  destruct (Z.lt_ge_cases (X (Size r) * Y (Size r) * 4) (iounitSize d))
    as [Hsmall | Hlarge].
  - (* one message, one read *)
    destruct (ReadSubimage_single src r d ltac:(lia)) as (msg & Heq).
    cbv zeta in Heq. rewrite Heq. exists 1%nat. split; [lia|].
    destruct (failed (device d (reads d))) eqn:Hfailed;
      cbn [fst snd]; unfold readsOutcome; cbn [reads written device];
      rewrite length_app; cbn [length].
    + repeat split; try lia.
      replace (reads d + 1 - 1)%nat with (reads d) by lia. exact Hfailed.
    + repeat split; try lia.
      * unfold len. rewrite length_copy, repeat_length. lia.
      * intros j Hj. replace j with O by lia.
        rewrite Nat.add_0_r. exact Hfailed.
  - (* one message and one read per chunk of rows *)
    specialize (Hrow Hlarge).
    assert (Hw' : 0 < X (Size r)) by nia.
    assert (Hh' : 0 < Y (Size r)) by nia.
    destruct (ReadSubimage_chunked src r d ltac:(lia) Hw') as (msg & Heq).
    rewrite Heq.
    assert (Hline : 1 <= iounitSize d / 4 / X (Size r)).
    { apply Z.div_le_lower_bound; [lia|].
      apply Z.div_le_lower_bound; lia. }
    destruct (readRows_outcome r _ Hw Hline (S (Z.to_nat (Y (Size r)))) msg
                (repeat 0 (Z.to_nat (X (Size r) * Y (Size r) * 4)))
                (Y (Min r)) d) as (k & Hk & Hout).
    + lia.
    + unfold len. rewrite repeat_length. lia.
    + cbn [Size Y] in *. lia.
    + exists k. split; [|exact Hout]. apply Hk. cbn [Size Y] in Hh'. lia.
Qed.

Lemma ReadSubimage_fatal_on_read_error_witness :
  let d := NewDrawCtrler 1 10 (fun k => Reply [1; 2; 3; 4; 5; 6; 7; 8]
                                          (Nat.eqb k 1)) in
  let r := Rect (Pt 0 0) (Pt 2 3) in
  exists k,
    (1 <= k)%nat /\
    readsOutcome d (snd (ReadSubimage 7 r d)) k 24 (fst (ReadSubimage 7 r d)).
Proof.
  intros d r.
  apply (ReadSubimage_fatal_on_read_error 7 r d);
    try (unfold sizeFitsInt, maxInt32); cbn; lia.
Defined.

(** The two outcomes, run: on a 2x3 rectangle with a transfer unit of 10
    bytes (one row per message) a second read that reports an error stops
    the method after two messages and two reads; without errors three
    messages are written and the buffer is returned. *)
Example ReadSubimage_panics_at_second_read :
  let d := NewDrawCtrler 1 10 (fun k => Reply [1; 2; 3; 4; 5; 6; 7; 8]
                                          (Nat.eqb k 1)) in
  let run := ReadSubimage 7 (Rect (Pt 0 0) (Pt 2 3)) d in
  fst run = Panic /\ length (written (snd run)) = 2%nat /\
  reads (snd run) = 2%nat.
Proof. vm_compute. repeat split. Qed.

(** C6 as stated fails: a read that returns fewer bytes than requested is
    accepted when it comes without an error.  For a 1x1 rectangle 4 bytes are
    requested; the device delivers 2 and reports no error; [ReadSubimage]
    returns the 2 bytes followed by the 2 zero bytes the buffer was made
    with. *)
Lemma ReadSubimage_accepts_short_read :
  let d := NewDrawCtrler 1 1000 (fun _ => Reply [9; 9] false) in
  ReadSubimage 7 (Rect (Pt 0 0) (Pt 1 1)) d
  = (Ok [9; 9; 0; 0],
     MkCtrler 1 1000 2
       [[114; 7; 0; 0; 0; 0; 0; 0; 0; 0; 0; 0; 0; 1; 0; 0; 0; 1; 0; 0; 0]]
       (device d) 1).
Proof. reflexivity. Qed.

(** The same on the chunked path, where every read is handed the whole rest
    of the buffer: each read delivers the 8 bytes of one row of a 2x3
    rectangle, fewer than the 24, 16 bytes the first two reads were given. *)
Example ReadSubimage_chunked_reads_are_short :
  let d := NewDrawCtrler 1 10 (fun _ => Reply [1; 2; 3; 4; 5; 6; 7; 8] false) in
  fst (ReadSubimage 7 (Rect (Pt 0 0) (Pt 2 3)) d)
  = Ok [1; 2; 3; 4; 5; 6; 7; 8; 1; 2; 3; 4; 5; 6; 7; 8; 1; 2; 3; 4; 5; 6; 7; 8].
Proof. vm_compute. reflexivity. Qed.

(** ** The compressed upload, for every rectangle *)

(** The 20 header bytes of an upload message followed by its data. *)
Definition uploadBytes (dstid : Z) (r : Rectangle) (y0 y1 : Z)
  (data : list Z) : list Z :=
  le32 dstid ++ le32 (uint32 (X (Min r))) ++ le32 (uint32 y0) ++
  le32 (uint32 (X (Max r))) ++ le32 (uint32 y1) ++ data.

Lemma compressedMessage_bytes (dstid : Z) (r : Rectangle) (y0 y1 : Z)
  (compressed : list Z) :
  compressedMessage dstid r y0 y1 compressed
  = uploadBytes dstid r y0 y1 compressed.
Proof.
  unfold compressedMessage, uploadBytes, copyAt, copy.
  change (repeat 0 (20 + length compressed))
    with (repeat 0 20 ++ repeat 0 (length compressed)).
  unfold putUint32, store, le32. cbn [repeat app firstn skipn length Nat.add].
  do 20 f_equal.
  rewrite repeat_length, Nat.min_id, firstn_all, skipn_all2
    by (rewrite repeat_length; lia).
  apply app_nil_r.
Qed.

(** The rows [y0, y1) of a buffer of packed rows of [w] pixels. *)
Definition rowsOf (pixels : list Z) (w y0 y1 : Z) : list Z :=
  firstn (Z.to_nat ((y1 - y0) * 4 * w)) (skipn (Z.to_nat (y0 * 4 * w)) pixels).

Lemma rowsOf_empty (pixels : list Z) (w y : Z) : rowsOf pixels w y y = [].
Proof. unfold rowsOf. now rewrite Z.sub_diag. Qed.

Lemma rowsOf_snoc (pixels : list Z) (w y0 y1 : Z) :
  0 <= w -> 0 <= y0 <= y1 ->
  rowsOf pixels w y0 y1 ++ rowsOf pixels w y1 (y1 + 1)
  = rowsOf pixels w y0 (y1 + 1).
Proof.
  intros Hw Hy. unfold rowsOf.
  replace (Z.to_nat (y1 * 4 * w))
    with (Z.to_nat ((y1 - y0) * 4 * w) + Z.to_nat (y0 * 4 * w))%nat by nia.
  rewrite <- skipn_skipn, LZ77.firstn_extend. f_equal. nia.
Qed.

(** What a flushed block holds: compressed bytes that decode to the rows the
    message announces, and fewer of them than the transfer unit unless the
    block is a single row. *)
Definition blockHolds (pixels : list Z) (w iounit : Z) (b : block) : Prop :=
  let '(y0, y1, compressed) := b in
  LZ77.decode compressed = Some (rowsOf pixels w y0 y1) /\
  (y0 + 1 < y1 -> len compressed < iounit).

Lemma compressedRows_content (dstid : Z) (r : Rectangle) (pixels : list Z) :
  0 <= X (Size r) -> X (Size r) * Y (Size r) * 4 <= len pixels ->
  forall (fuel : nat) (i blockYStart : Z) (compressed : list Z)
         (d : DrawCtrler),
    0 <= blockYStart <= i -> i < Y (Size r) ->
    Y (Size r) - i < Z.of_nat fuel ->
    LZ77.decodesTo compressed (rowsOf pixels (X (Size r)) blockYStart i) ->
    (blockYStart + 1 < i -> len compressed < iounitSize d) ->
    exists blocks,
      compressedRows fuel dstid r pixels i blockYStart compressed d
      = (Ok tt, appendWritten d (map (blockMessage dstid r) blocks)) /\
      chained blockYStart (Y (Size r) - 1) blocks /\
      Forall (blockHolds pixels (X (Size r)) (iounitSize d)) blocks.
Proof.
  intros Hw Hpix.
  induction fuel as [|fuel IH];
    intros i bs compressed d Hbs Hi Hfuel Hdec Hsmall; [lia|].
  cbn [compressedRows].
  replace (i <? Y (Size r)) with true by (symmetry; apply Z.ltb_lt; lia).
  unfold bindM at 1, lift at 1.
  rewrite LZ77.slice_in_range by nia.
  replace (i * 4 * X (Size r) + X (Size r) * 4 - i * 4 * X (Size r))
    with ((i + 1 - i) * 4 * X (Size r)) by lia.
  fold (rowsOf pixels (X (Size r)) i (i + 1)).
  destruct (LZ77.compress_decodesTo (rowsOf pixels (X (Size r)) i (i + 1)))
    as (line & Hline & Hlinedec).
  unfold bindM at 1, lift at 1. rewrite Hline.
  unfold bindM at 1, get at 1.
  assert (Hblock : blockHolds pixels (X (Size r)) (iounitSize d)
                     (bs, i, compressed)).
  { split; [apply LZ77.decodesTo_decode; exact Hdec | exact Hsmall]. }
  destruct ((len compressed + len line >=? iounitSize d)
            || (i =? Y (Size r) - 1)) eqn:Hflush.
  - unfold bindM at 1, sendMessage at 1.
    fold (appendWritten d
            [tag "Y" :: compressedMessage dstid r (Y (Min r) + bs)
                          (Y (Min r) + i) compressed]).
    destruct (Z.eq_dec i (Y (Size r) - 1)) as [Hlast | Hmore].
    + exists [(bs, i, compressed)]. split; [|split].
      * destruct fuel as [|fuel]; [lia|]. cbn [compressedRows].
        replace (i + 1 <? Y (Size r)) with false
          by (symmetry; apply Z.ltb_ge; lia).
        reflexivity.
      * cbn [chained]. lia.
      * constructor; [exact Hblock | constructor].
    + destruct (IH (i + 1) i line
                  (appendWritten d
                     [tag "Y" :: compressedMessage dstid r (Y (Min r) + bs)
                                   (Y (Min r) + i) compressed]))
        as (blocks & Hrun & Hchain & Hall); try lia.
      { exact Hlinedec. }
      exists ((bs, i, compressed) :: blocks). split; [|split].
      * rewrite Hrun, appendWritten_app. reflexivity.
      * cbn [chained]. repeat split; try lia. exact Hchain.
      * constructor; [exact Hblock | exact Hall].
  - apply orb_false_iff in Hflush. destruct Hflush as [Hroom Hlast].
    apply Z.eqb_neq in Hlast. apply LZ77.geb_false_lt in Hroom.
    destruct (IH (i + 1) bs (compressed ++ line) d)
      as (blocks & Hrun & Hchain & Hall); try lia.
    { rewrite <- rowsOf_snoc by lia. apply LZ77.decodesTo_app; assumption. }
    { intros _. rewrite LZ77.len_app. exact Hroom. }
    exists blocks. split; [|split]; assumption.
Qed.

Lemma blockMessage_bytes (dstid : Z) (r : Rectangle) (y0 y1 : Z)
  (compressed : list Z) :
  blockMessage dstid r (y0, y1, compressed)
  = tag "Y" :: uploadBytes dstid r (Y (Min r) + y0) (Y (Min r) + y1) compressed.
Proof. unfold blockMessage. now rewrite compressedMessage_bytes. Qed.

(** X6. On the compressed path (a transfer unit below 65535 and more than
    256 bytes of pixels), for a rectangle of at least one row whose pixels
    are all in the buffer, [ReplaceSubimage] returns after writing 'Y'
    messages only.  Their row ranges, counted from the top of the rectangle,
    follow one another from row 0 to the last row, which no message holds.
    The compressed bytes of each message decode to the rows the message
    names, and a message of more than one row carries fewer compressed bytes
    than the transfer unit. *)
Theorem compressed_upload_sends_all_rows_but_the_last (dstid : Z)
  (r : Rectangle) (pixels : list Z) (d : DrawCtrler) :
  iounitSize d < 65535 -> 256 < len pixels ->
  0 <= X (Size r) -> 1 <= Y (Size r) ->
  X (Size r) * Y (Size r) * 4 <= len pixels ->
  exists blocks,
    ReplaceSubimage dstid r pixels d
    = (Ok tt,
       appendWritten d
         (map (fun b : block =>
                 let '(y0, y1, compressed) := b in
                 tag "Y" :: uploadBytes dstid r (Y (Min r) + y0)
                              (Y (Min r) + y1) compressed) blocks)) /\
    chained 0 (Y (Size r) - 1) blocks /\
    Forall (blockHolds pixels (X (Size r)) (iounitSize d)) blocks.
Proof.
  intros Hunit Hlen Hw Hh Hpix.
  destruct (compressedRows_content dstid r pixels Hw Hpix
              (S (Z.to_nat (Y (Size r)))) 0 0 [] d)
    as (blocks & Hrun & Hchain & Hall); try lia.
  { rewrite rowsOf_empty. apply LZ77.decodesTo_nil. }
  exists blocks. split; [|split; assumption].
  unfold ReplaceSubimage, bindM at 1, get at 1.
  replace ((iounitSize d <? 65535) && (len pixels >? 256)) with true
    by (symmetry; apply andb_true_iff; split;
        [apply Z.ltb_lt | apply Z.gtb_lt]; lia).
  unfold compressedReplaceSubimage. rewrite Hrun. do 2 f_equal.
  apply map_ext. intros [[y0 y1] c]. apply blockMessage_bytes.
Qed.

Lemma compressed_upload_sends_all_rows_but_the_last_witness :
  let d := NewDrawCtrler 1 1000 (fun _ => Reply [] false) in
  let r := Rect (Pt 0 0) (Pt 10 10) in
  exists blocks,
    written (snd (ReplaceSubimage 3 r (repeat 0 400) d))
    = map (fun b : block =>
             let '(y0, y1, compressed) := b in
             tag "Y" :: uploadBytes 3 r y0 y1 compressed) blocks /\
    chained 0 9 blocks /\
    Forall (blockHolds (repeat 0 400) 10 1000) blocks.
Proof.
  intros d r.
  destruct (compressed_upload_sends_all_rows_but_the_last 3 r (repeat 0 400) d)
    as (blocks & Hrun & Hchain & Hall).
  - cbn. lia.
  - cbn. lia.
  - cbn. lia.
  - cbn. lia.
  - cbn. lia.
  - exists blocks. split; [|split; assumption]. rewrite Hrun. reflexivity.
Defined.

Lemma compressedRows_one_row (dstid : Z) (r : Rectangle) (pixels : list Z)
  (d : DrawCtrler) :
  Y (Size r) = 1 -> 0 <= X (Size r) -> X (Size r) * 4 <= len pixels ->
  compressedReplaceSubimage dstid r pixels d
  = (Ok tt,
     appendWritten d
       [tag "Y" :: uploadBytes dstid r (Y (Min r)) (Y (Min r)) []]).
Proof.
  intros Hh Hw Hpix. unfold compressedReplaceSubimage. rewrite Hh.
  change (S (Z.to_nat 1)) with 2%nat. cbn [compressedRows]. rewrite Hh.
  change (0 <? 1) with true. cbv iota.
  unfold bindM at 1, lift at 1.
  rewrite LZ77.slice_in_range by lia.
  destruct (LZ77.compress_returns
              (firstn (Z.to_nat (0 * 4 * X (Size r) + X (Size r) * 4
                                 - 0 * 4 * X (Size r)))
                 (skipn (Z.to_nat (0 * 4 * X (Size r))) pixels)))
    as (line & Hline).
  unfold bindM at 1, lift at 1. rewrite Hline.
  unfold bindM at 1, get at 1.
  change (0 =? 1 - 1) with true. rewrite orb_true_r.
  unfold bindM at 1, sendMessage at 1.
  change (0 + 1 <? 1) with false. cbv iota.
  rewrite compressedMessage_bytes, Z.add_0_r. reflexivity.
Qed.

(** X7. On the compressed path a rectangle of one row is answered by one 'Y'
    message for the empty row range from [Min.Y] to [Min.Y], with no data
    after the header: no pixel is sent. *)
Theorem compressed_upload_of_one_row_sends_no_pixels (dstid : Z)
  (r : Rectangle) (pixels : list Z) (d : DrawCtrler) :
  iounitSize d < 65535 -> 256 < len pixels ->
  Y (Size r) = 1 -> 0 <= X (Size r) -> X (Size r) * 4 <= len pixels ->
  ReplaceSubimage dstid r pixels d
  = (Ok tt,
     appendWritten d
       [tag "Y" ::
          le32 dstid ++ le32 (uint32 (X (Min r))) ++
          le32 (uint32 (Y (Min r))) ++ le32 (uint32 (X (Max r))) ++
          le32 (uint32 (Y (Min r)))]).
Proof.
  intros Hunit Hlen Hh Hw Hpix.
  unfold ReplaceSubimage, bindM at 1, get at 1.
  replace ((iounitSize d <? 65535) && (len pixels >? 256)) with true
    by (symmetry; apply andb_true_iff; split;
        [apply Z.ltb_lt | apply Z.gtb_lt]; lia).
  rewrite compressedRows_one_row by assumption.
  unfold uploadBytes. now rewrite !app_nil_r.
Qed.

Lemma compressed_upload_of_one_row_sends_no_pixels_witness :
  let d := NewDrawCtrler 1 1000 (fun _ => Reply [] false) in
  written (snd (ReplaceSubimage 3 (Rect (Pt 0 5) (Pt 100 6)) (repeat 0 400) d))
  = [[tag "Y"; 3; 0; 0; 0; 0; 0; 0; 0; 5; 0; 0; 0; 100; 0; 0; 0;
      5; 0; 0; 0]].
Proof.
  intros d.
  rewrite (compressed_upload_of_one_row_sends_no_pixels 3
             (Rect (Pt 0 5) (Pt 100 6)) (repeat 0 400) d).
  - reflexivity.
  - cbn. lia.
  - cbn. lia.
  - reflexivity.
  - cbn. lia.
  - cbn. lia.
Defined.

Lemma compressedRows_short (dstid : Z) (r : Rectangle) (pixels : list Z) :
  0 < X (Size r) -> len pixels < X (Size r) * Y (Size r) * 4 ->
  forall (fuel : nat) (i blockYStart : Z) (compressed : list Z)
         (d : DrawCtrler),
    0 <= i < Y (Size r) -> Y (Size r) - i < Z.of_nat fuel ->
    fst (compressedRows fuel dstid r pixels i blockYStart compressed d)
    = Panic.
Proof.
  intros Hw Hpix.
  induction fuel as [|fuel IH]; intros i bs compressed d Hi Hfuel; [lia|].
  cbn [compressedRows].
  replace (i <? Y (Size r)) with true by (symmetry; apply Z.ltb_lt; lia).
  unfold bindM at 1, lift at 1.
  destruct (Z.le_gt_cases (i * 4 * X (Size r) + X (Size r) * 4) (len pixels))
    as [Hfits | Hout].
  - rewrite LZ77.slice_in_range by nia.
    destruct (LZ77.compress_returns
                (firstn (Z.to_nat (i * 4 * X (Size r) + X (Size r) * 4
                                   - i * 4 * X (Size r)))
                   (skipn (Z.to_nat (i * 4 * X (Size r))) pixels)))
      as (line & Hline).
    unfold bindM at 1, lift at 1. rewrite Hline.
    unfold bindM at 1, get at 1.
    destruct ((len compressed + len line >=? iounitSize d)
              || (i =? Y (Size r) - 1)).
    + unfold bindM at 1, sendMessage at 1. apply IH; nia.
    + apply IH; nia.
  - unfold slice.
    replace (i * 4 * X (Size r) + X (Size r) * 4 <=? len pixels) with false
      by (symmetry; apply Z.leb_gt; lia).
    rewrite andb_false_r. reflexivity.
Qed.

(** X8. On the compressed path a pixel buffer shorter than the rectangle
    needs, at 4 bytes a pixel, makes [ReplaceSubimage] panic: the slice of
    a row reaches beyond the buffer (a buffer whose capacity is its length,
    as [Go.slice] has it).  The byte size of the rectangle is within [int],
    so that the bounds of the slices do not wrap. *)
Theorem compressed_upload_panics_on_short_buffer (dstid : Z) (r : Rectangle)
  (pixels : list Z) (d : DrawCtrler) :
  iounitSize d < 65535 -> 256 < len pixels ->
  0 < X (Size r) -> len pixels < X (Size r) * Y (Size r) * 4 ->
  X (Size r) * Y (Size r) * 4 <= maxInt32 ->
  fst (ReplaceSubimage dstid r pixels d) = Panic.
Proof.
  intros Hunit Hlen Hw Hpix _.
  unfold ReplaceSubimage, bindM at 1, get at 1.
  replace ((iounitSize d <? 65535) && (len pixels >? 256)) with true
    by (symmetry; apply andb_true_iff; split;
        [apply Z.ltb_lt | apply Z.gtb_lt]; lia).
  apply compressedRows_short; try assumption; nia.
Qed.

Lemma compressed_upload_panics_on_short_buffer_witness :
  let d := NewDrawCtrler 1 1000 (fun _ => Reply [] false) in
  fst (ReplaceSubimage 3 (Rect (Pt 0 0) (Pt 100 2)) (repeat 0 400) d) = Panic.
Proof.
  intros d.
  apply compressed_upload_panics_on_short_buffer;
    try unfold maxInt32; cbn; lia.
Defined.

(** ** The uncompressed upload *)

Ltac store_fields :=
  cbn [putUint32At putUint32 putByte store le32 length Nat.add Nat.leb
       firstn skipn app repeat].

(** A buffer made for [n] bytes of data, after its three fixed fields were
    stored. *)
Lemma fresh_message (dstid : Z) (r : Rectangle) (n : Z) (d : DrawCtrler) :
  0 <= n ->
  (fresh <- lift (make (20 + n)) ;;
   fresh <- lift (putUint32At fresh 0 dstid) ;;
   fresh <- lift (putUint32At fresh 4 (uint32 (X (Min r)))) ;;
   lift (putUint32At fresh 12 (uint32 (X (Max r))))) d
  = (Ok (uploadBytes dstid r 0 0 (repeat 0 (Z.to_nat n))), d).
Proof.
  intros Hn. unfold bindM at 1, lift at 1. rewrite make_nonneg by lia.
  replace (Z.to_nat (20 + n)) with (20 + Z.to_nat n)%nat by lia.
  store_fields.
  unfold bindM at 1, lift at 1. store_fields.
  unfold bindM at 1, lift at 1. store_fields.
  unfold lift. store_fields.
  reflexivity.
Qed.

Lemma copy_prefix (dst src : list Z) :
  (length dst <= length src)%nat -> copy dst src = firstn (length dst) src.
Proof.
  intros H. unfold copy. rewrite Nat.min_l by exact H.
  rewrite skipn_all. apply app_nil_r.
Qed.

(** The message of a chunk of rows of the uncompressed upload. *)
Definition plainMessage (dstid : Z) (r : Rectangle) (b : block) : list Z :=
  let '(y0, y1, data) := b in tag "y" :: uploadBytes dstid r y0 y1 data.

(** One turn of the loop of [ReplaceSubimage]; the rows are taken from
    [pixels] by their own number [i]. *)
Lemma plainRows_step (fuel : nat) (dstid : Z) (r : Rectangle)
  (pixels : list Z) (lineSize a b : Z) (area : list Z) (i : Z)
  (d : DrawCtrler) :
  0 < X (Size r) -> 1 <= lineSize -> 0 <= i < Y (Max r) ->
  X (Size r) * Y (Max r) * 4 <= len pixels ->
  len area = X (Size r) * lineSize * 4 ->
  let endline := Z.min (i + lineSize) (Y (Max r)) in
  let data := rowsOf pixels (X (Size r)) i endline in
  plainRows (S fuel) dstid r pixels lineSize (uploadBytes dstid r a b area) i d
  = plainRows fuel dstid r pixels lineSize (uploadBytes dstid r i endline data)
      (i + lineSize)
      (appendWritten d [tag "y" :: uploadBytes dstid r i endline data]).
Proof.
  intros Hw Hline Hi Hpix Harea endline data.
  cbn [plainRows].
  replace (i <? Y (Max r)) with true by (symmetry; apply Z.ltb_lt; lia).
  assert (Htail : forall a' b' area',
    len area' = X (Size r) * (endline - i) * 4 ->
    (msg <- lift (putUint32At (uploadBytes dstid r a' b' area') 8 (uint32 i)) ;;
     msg <- lift (putUint32At msg 16 (uint32 endline)) ;;
     rest <- lift (sliceFrom pixels (i * X (Size r) * 4)) ;;
     sendMessage (tag "y") (copyAt msg 20 rest) ;;;
     plainRows fuel dstid r pixels lineSize (copyAt msg 20 rest)
       (i + lineSize)) d
    = plainRows fuel dstid r pixels lineSize
        (uploadBytes dstid r i endline data) (i + lineSize)
        (appendWritten d [tag "y" :: uploadBytes dstid r i endline data])).
  { intros a' b' area' Hlen.
    unfold bindM at 1, lift at 1, uploadBytes at 1. store_fields.
    unfold bindM at 1, lift at 1. store_fields.
    unfold bindM at 1, lift at 1.
    rewrite sliceFrom_in_range by nia.
    unfold copyAt. store_fields.
    assert (Hdata : copy area' (skipn (Z.to_nat (i * X (Size r) * 4)) pixels)
                    = data).
    { rewrite copy_prefix
        by (rewrite length_skipn; unfold len in *; unfold endline in *; nia).
      unfold data, rowsOf. f_equal; [|f_equal; lia].
      unfold len in Hlen. lia. }
    rewrite Hdata.
    unfold bindM at 1, sendMessage at 1. reflexivity. }
  destruct (i + lineSize >? Y (Max r)) eqn:Hover.
  - apply Z.gtb_lt in Hover.
    assert (Hend : endline = Y (Max r)) by (unfold endline; lia).
    unfold bindM at 1. rewrite fresh_message by nia.
    rewrite <- Hend. apply Htail.
    unfold len. rewrite repeat_length. nia.
  - assert (Hend : endline = i + lineSize).
    { unfold endline. rewrite Z.gtb_ltb in Hover. apply Z.ltb_ge in Hover. lia. }
    unfold bindM at 1, ret at 1.
    replace (uint32 (i + lineSize)) with (uint32 endline) by now rewrite Hend.
    apply Htail. rewrite Harea, Hend. lia.
Qed.

Lemma plainRows_done (fuel : nat) (dstid : Z) (r : Rectangle)
  (pixels : list Z) (lineSize : Z) (msg : list Z) (i : Z) (d : DrawCtrler) :
  Y (Max r) <= i ->
  plainRows (S fuel) dstid r pixels lineSize msg i d = (Ok tt, d).
Proof.
  intros H. cbn [plainRows].
  replace (i <? Y (Max r)) with false by (symmetry; apply Z.ltb_ge; lia).
  reflexivity.
Qed.

(** What a chunk of the uncompressed upload holds: at most [lineSize] rows,
    and the bytes of these rows. *)
Definition chunkHolds (pixels : list Z) (w lineSize : Z) (b : block) : Prop :=
  let '(y0, y1, data) := b in
  y0 < y1 <= y0 + lineSize /\ data = rowsOf pixels w y0 y1.

Lemma plainRows_blocks (dstid : Z) (r : Rectangle) (pixels : list Z)
  (lineSize : Z) :
  0 < X (Size r) -> 1 <= lineSize ->
  X (Size r) * Y (Max r) * 4 <= len pixels ->
  forall (fuel : nat) (a b : Z) (area : list Z) (i : Z) (d : DrawCtrler),
    0 <= i < Y (Max r) -> Y (Max r) - i < Z.of_nat fuel ->
    len area = X (Size r) * lineSize * 4 ->
    exists blocks,
      plainRows fuel dstid r pixels lineSize (uploadBytes dstid r a b area) i d
      = (Ok tt, appendWritten d (map (plainMessage dstid r) blocks)) /\
      chained i (Y (Max r)) blocks /\
      Forall (chunkHolds pixels (X (Size r)) lineSize) blocks.
Proof.
  intros Hw Hline Hpix.
  induction fuel as [|fuel IH]; intros a b area i d Hi Hfuel Harea; [lia|].
  rewrite plainRows_step by assumption.
  set (endline := Z.min (i + lineSize) (Y (Max r))).
  set (data := rowsOf pixels (X (Size r)) i endline).
  assert (Hholds : chunkHolds pixels (X (Size r)) lineSize (i, endline, data)).
  { split; [unfold endline; lia | reflexivity]. }
  destruct (Z.le_gt_cases (Y (Max r)) (i + lineSize)) as [Hlast | Hmore].
  - exists [(i, endline, data)].
    destruct fuel as [|fuel]; [lia|].
    rewrite plainRows_done by lia. split; [reflexivity|]. split.
    + cbn [chained]. unfold endline. lia.
    + constructor; [exact Hholds | constructor].
  - assert (Hend : endline = i + lineSize) by (unfold endline; lia).
    destruct (IH i endline data (i + lineSize)
                (appendWritten d [tag "y" :: uploadBytes dstid r i endline data]))
      as (blocks & Hrun & Hchain & Hall); try lia.
    { unfold data, rowsOf, len. rewrite length_firstn, length_skipn.
      unfold len in Hpix. rewrite Hend. nia. }
    exists ((i, endline, data) :: blocks). split; [|split].
    + rewrite Hrun, appendWritten_app. reflexivity.
    + cbn [chained]. rewrite Hend. repeat split; try lia. exact Hchain.
    + constructor; [exact Hholds | exact Hall].
Qed.

(** X9. On the uncompressed path, for a rectangle too large for one message
    and a transfer unit that holds a row, [ReplaceSubimage] returns after
    writing 'y' messages whose row ranges divide the rows from [Min.Y] to
    [Max.Y]: each has at most [iounitSize / 4 / width] rows and carries the
    bytes of its rows, every row once.  The rows are taken from the buffer
    by their number on the screen, so the buffer has to reach to row
    [Max.Y]; they are the rows of the rectangle when [Min.Y] is 0. *)
Theorem plain_upload_sends_every_row_once (dstid : Z) (r : Rectangle)
  (pixels : list Z) (d : DrawCtrler) :
  65535 <= iounitSize d \/ len pixels <= 256 ->
  iounitSize d <= X (Size r) * Y (Size r) * 4 + 21 ->
  0 < X (Size r) -> 4 * X (Size r) <= iounitSize d ->
  0 <= Y (Min r) < Y (Max r) ->
  X (Size r) * Y (Max r) * 4 <= len pixels ->
  let lineSize := iounitSize d / 4 / X (Size r) in
  exists blocks,
    ReplaceSubimage dstid r pixels d
    = (Ok tt,
       appendWritten d
         (map (fun b : block =>
                 let '(y0, y1, data) := b in
                 tag "y" :: uploadBytes dstid r y0 y1 data) blocks)) /\
    chained (Y (Min r)) (Y (Max r)) blocks /\
    Forall (chunkHolds pixels (X (Size r)) lineSize) blocks.
Proof.
  intros Hpath Hlarge Hw Hrow Hy Hpix lineSize.
  assert (Hline : 1 <= lineSize).
  { unfold lineSize. apply Z.div_le_lower_bound; [lia|].
    apply Z.div_le_lower_bound; lia. }
  destruct (plainRows_blocks dstid r pixels lineSize Hw Hline Hpix
              (S (Z.to_nat (Y (Size r)))) 0 0
              (repeat 0 (Z.to_nat (X (Size r) * lineSize * 4)))
              (Y (Min r)) d)
    as (blocks & Hrun & Hchain & Hall).
  { lia. }
  { cbn [Size Y]. lia. }
  { unfold len. rewrite repeat_length. nia. }
  exists blocks. split; [|split; assumption].
  unfold ReplaceSubimage, bindM at 1, get at 1.
  replace ((iounitSize d <? 65535) && (len pixels >? 256)) with false.
  2:{ symmetry. apply andb_false_iff. destruct Hpath as [H | H].
      - left. apply Z.ltb_ge. lia.
      - right. rewrite Z.gtb_ltb. apply Z.ltb_ge. lia. }
  replace (X (Size r) * Y (Size r) * 4 + 21 <? iounitSize d) with false
    by (symmetry; apply Z.ltb_ge; lia).
  unfold bindM at 1, lift at 1. rewrite quo_nonzero by lia.
  unfold bindM at 1, lift at 1. rewrite quo_nonzero by lia.
  rewrite (Z.quot_div_nonneg (iounitSize d) 4) by lia.
  rewrite Z.quot_div_nonneg by (try apply Z.div_pos; lia).
  fold lineSize.
  unfold bindM at 1, lift at 1. rewrite make_nonneg by nia.
  replace (Z.to_nat (20 + X (Size r) * lineSize * 4))
    with (20 + Z.to_nat (X (Size r) * lineSize * 4))%nat by nia.
  store_fields.
  unfold bindM at 1, lift at 1. store_fields.
  unfold bindM at 1, lift at 1. store_fields.
  unfold bindM at 1, lift at 1. store_fields.
  exact Hrun.
Qed.

Lemma plain_upload_sends_every_row_once_witness :
  let d := NewDrawCtrler 1 100 (fun _ => Reply [] false) in
  let r := Rect (Pt 0 0) (Pt 8 8) in
  let pixels := map Z.of_nat (seq 0 256) in
  exists blocks,
    written (snd (ReplaceSubimage 7 r pixels d))
    = map (fun b : block =>
             let '(y0, y1, data) := b in
             tag "y" :: uploadBytes 7 r y0 y1 data) blocks /\
    chained 0 8 blocks.
Proof.
  intros d r pixels.
  destruct (plain_upload_sends_every_row_once 7 r pixels d)
    as (blocks & Hrun & Hchain & _).
  - right. cbn. lia.
  - cbn. lia.
  - cbn. lia.
  - cbn. lia.
  - cbn. lia.
  - cbn. lia.
  - exists blocks. split; [|exact Hchain]. rewrite Hrun. reflexivity.
Defined.

(** With [Min.Y] other than 0 the rows sent are not those of the rectangle.
    For the rows 1 to 9 of width 8, a buffer of 8 rows whose bytes are their
    own indices, and chunks of 3 rows: the data of the three messages begins
    at the bytes 32, 128 and 224 of the buffer, so the first row of the
    buffer is not sent, and the last message, for two rows, ends with a row
    of zero bytes. *)
Example plain_upload_skips_the_rows_above :
  let d := NewDrawCtrler 1 100 (fun _ => Reply [] false) in
  let pixels := map Z.of_nat (seq 0 256) in
  let sent := written (snd (ReplaceSubimage 7 (Rect (Pt 0 1) (Pt 8 9))
                              pixels d)) in
  map (fun msg => nth 21 msg 0) sent = [32; 128; 224] /\
  skipn 53 (last sent []) = repeat 0 32.
Proof. vm_compute. split; reflexivity. Qed.

Lemma skipn_zeros (k n : nat) : skipn k (repeat 0 n) = repeat 0 (n - k).
Proof.
  revert n. induction k as [|k IH]; intros n.
  - now rewrite Nat.sub_0_r.
  - destruct n as [|n]; [reflexivity|]. cbn [repeat skipn]. apply IH.
Qed.

Lemma firstn_zeros (k n : nat) : firstn k (repeat 0 n) = repeat 0 (Nat.min k n).
Proof.
  revert n. induction k as [|k IH]; intros n.
  - reflexivity.
  - destruct n as [|n]; [reflexivity|]. cbn [repeat firstn Nat.min].
    now rewrite IH.
Qed.

(** X10. On the uncompressed path a rectangle that fits the transfer unit
    with its 21 bytes of header is sent as one 'y' message: the whole
    rectangle, and as many bytes as it has pixels, taken from the start of
    the buffer, with zero bytes where the buffer is too short. *)
Theorem plain_upload_in_one_message (dstid : Z) (r : Rectangle)
  (pixels : list Z) (d : DrawCtrler) :
  65535 <= iounitSize d \/ len pixels <= 256 ->
  0 <= X (Size r) * Y (Size r) ->
  X (Size r) * Y (Size r) * 4 + 21 < iounitSize d ->
  let n := Z.to_nat (X (Size r) * Y (Size r) * 4) in
  ReplaceSubimage dstid r pixels d
  = (Ok tt,
     appendWritten d
       [tag "y" ::
          uploadBytes dstid r (Y (Min r)) (Y (Max r))
            (firstn n (pixels ++ repeat 0 n))]).
Proof.
  intros Hpath Harea Hsmall n.
  unfold ReplaceSubimage, bindM at 1, get at 1.
  replace ((iounitSize d <? 65535) && (len pixels >? 256)) with false.
  2:{ symmetry. apply andb_false_iff. destruct Hpath as [H | H].
      - left. apply Z.ltb_ge. lia.
      - right. rewrite Z.gtb_ltb. apply Z.ltb_ge. lia. }
  replace (X (Size r) * Y (Size r) * 4 + 21 <? iounitSize d) with true
    by (symmetry; apply Z.ltb_lt; lia).
  unfold bindM at 1, lift at 1. rewrite make_nonneg by lia.
  replace (Z.to_nat (20 + X (Size r) * Y (Size r) * 4))
    with (20 + n)%nat by (unfold n; lia).
  store_fields.
  unfold bindM at 1, lift at 1. store_fields.
  unfold bindM at 1, lift at 1. store_fields.
  unfold bindM at 1, lift at 1. store_fields.
  unfold bindM at 1, lift at 1. store_fields.
  unfold bindM at 1, lift at 1. store_fields.
  unfold sendMessage, appendWritten, copyAt, uploadBytes. store_fields.
  do 3 f_equal. do 20 f_equal.
  unfold copy. rewrite repeat_length.
  destruct (Nat.le_gt_cases n (length pixels)) as [Hle | Hgt].
  - rewrite Nat.min_l by exact Hle.
    rewrite skipn_all2 by (rewrite repeat_length; lia).
    rewrite firstn_app. replace (n - length pixels)%nat with O by lia.
    reflexivity.
  - rewrite Nat.min_r by lia. rewrite firstn_all.
    rewrite firstn_app, firstn_all2 by lia. f_equal.
    rewrite skipn_zeros, firstn_zeros, Nat.min_l by lia. reflexivity.
Qed.

Lemma plain_upload_in_one_message_witness :
  let d := NewDrawCtrler 1 65535 (fun _ => Reply [] false) in
  written (snd (ReplaceSubimage 3 (Rect (Pt 1 2) (Pt 3 4)) [9; 8; 7] d))
  = [[tag "y"; 3; 0; 0; 0; 1; 0; 0; 0; 2; 0; 0; 0; 3; 0; 0; 0; 4; 0; 0; 0;
      9; 8; 7; 0; 0; 0; 0; 0; 0; 0; 0; 0; 0; 0; 0; 0]].
Proof.
  intros d.
  rewrite (plain_upload_in_one_message 3 (Rect (Pt 1 2) (Pt 3 4)) [9; 8; 7] d).
  - reflexivity.
  - right. cbn. lia.
  - cbn. lia.
  - cbn. lia.
Defined.

(** ** What the methods leave alone *)

(** From [d] to [d'] only messages whose command letter is among [tags] were
    written, and no id was allocated: the controller's fields and the device
    are as they were. *)
Definition wrote (tags : list Z) (d d' : DrawCtrler) : Prop :=
  N d' = N d /\ iounitSize d' = iounitSize d /\ nextId d' = nextId d /\
  device d' = device d /\
  exists msgs,
    written d' = written d ++ msgs /\
    Forall (fun msg => exists rest, In (hd 0 msg) tags /\ msg = hd 0 msg :: rest)
      msgs.

(** The same, and nothing was read. *)
Definition wroteOnly (tags : list Z) (d d' : DrawCtrler) : Prop :=
  wrote tags d d' /\ reads d' = reads d.

Lemma wrote_refl (tags : list Z) (d : DrawCtrler) : wrote tags d d.
Proof.
  repeat split. exists []. split; [now rewrite app_nil_r | constructor].
Qed.

Lemma wrote_trans (tags : list Z) (d1 d2 d3 : DrawCtrler) :
  wrote tags d1 d2 -> wrote tags d2 d3 -> wrote tags d1 d3.
Proof.
  intros (HN & Hu & Hn & Hd & m1 & Hw1 & Hf1)
         (HN' & Hu' & Hn' & Hd' & m2 & Hw2 & Hf2).
  repeat split; try congruence.
  exists (m1 ++ m2). split.
  - rewrite Hw2, Hw1. now rewrite app_assoc.
  - apply Forall_app. split; assumption.
Qed.

Lemma wroteOnly_refl (tags : list Z) (d : DrawCtrler) : wroteOnly tags d d.
Proof. split; [apply wrote_refl | reflexivity]. Qed.

Lemma wroteOnly_trans (tags : list Z) (d1 d2 d3 : DrawCtrler) :
  wroteOnly tags d1 d2 -> wroteOnly tags d2 d3 -> wroteOnly tags d1 d3.
Proof.
  intros [H1 Hr1] [H2 Hr2].
  split; [eapply wrote_trans; eassumption | congruence].
Qed.

Section Frames.

(** A relation between the controller before and after, kept by doing
    nothing and by doing one thing after another. *)
Variable R : DrawCtrler -> DrawCtrler -> Prop.
Hypothesis R_refl : forall d, R d d.
Hypothesis R_trans : forall d1 d2 d3, R d1 d2 -> R d2 d3 -> R d1 d3.

(** A computation that keeps [R] whatever its outcome. *)
Definition keeps {A : Type} (c : M A) : Prop := forall d, R d (snd (c d)).

Lemma keeps_ret {A : Type} (a : A) : keeps (ret a).
Proof. intros d. apply R_refl. Qed.

Lemma keeps_lift {A : Type} (c : result A) : keeps (lift c).
Proof. intros d. apply R_refl. Qed.

Lemma keeps_get : keeps get.
Proof. intros d. apply R_refl. Qed.

Lemma keeps_outOfFuel {A : Type} : keeps (@outOfFuel A).
Proof. intros d. apply R_refl. Qed.

Lemma keeps_panic {A : Type} : keeps (@panic A).
Proof. intros d. apply R_refl. Qed.

Lemma keeps_bind {A B : Type} (c : M A) (k : A -> M B) :
  keeps c -> (forall a, keeps (k a)) -> keeps (bindM c k).
Proof.
  intros Hc Hk d. unfold bindM. specialize (Hc d).
  destruct (c d) as [[a | |] d']; cbn [snd] in *; try exact Hc.
  apply (R_trans _ _ _ Hc). apply Hk.
Qed.

End Frames.

Lemma sendMessage_wroteOnly (tags : list Z) (cmd : Z) (val : list Z) :
  In cmd tags -> keeps (wroteOnly tags) (sendMessage cmd val).
Proof.
  intros Hin d. unfold sendMessage.
  split; [|reflexivity]. repeat split.
  exists [cmd :: val]. split; [reflexivity|].
  constructor; [|constructor]. exists val. split; [exact Hin | reflexivity].
Qed.

(** The steps of a method that keep a relation for the plain reason that
    they do not touch the controller. *)
Ltac keeps_pure R_refl R_trans :=
  repeat match goal with
         | |- keeps _ (bindM (lift _) _) =>
             apply (keeps_bind _ R_trans);
             [apply (keeps_lift _ R_refl) | intros ?]
         | |- keeps _ (bindM get _) =>
             apply (keeps_bind _ R_trans);
             [apply (keeps_get _ R_refl) | intros ?]
         end.

Lemma compressedRows_wroteOnly (dstid : Z) (r : Rectangle) (pixels : list Z) :
  forall (fuel : nat) (i blockYStart : Z) (compressed : list Z),
    keeps (wroteOnly [tag "y"; tag "Y"])
      (compressedRows fuel dstid r pixels i blockYStart compressed).
Proof.
  pose proof (wroteOnly_refl [tag "y"; tag "Y"]) as Hrefl.
  pose proof (wroteOnly_trans [tag "y"; tag "Y"]) as Htrans.
  induction fuel as [|fuel IH]; intros i bs compressed; cbn [compressedRows].
  - apply keeps_outOfFuel, Hrefl.
  - destruct (i <? Y (Size r)); [|apply keeps_ret, Hrefl].
    keeps_pure Hrefl Htrans.
    destruct (_ || _); [|apply IH].
    apply (keeps_bind _ Htrans); [|intros _; apply IH].
    apply sendMessage_wroteOnly. right. left. reflexivity.
Qed.

Lemma plainRows_wroteOnly (dstid : Z) (r : Rectangle) (pixels : list Z)
  (lineSize : Z) :
  forall (fuel : nat) (msg : list Z) (i : Z),
    keeps (wroteOnly [tag "y"; tag "Y"])
      (plainRows fuel dstid r pixels lineSize msg i).
Proof.
  pose proof (wroteOnly_refl [tag "y"; tag "Y"]) as Hrefl.
  pose proof (wroteOnly_trans [tag "y"; tag "Y"]) as Htrans.
  induction fuel as [|fuel IH]; intros msg i; cbn [plainRows].
  - apply keeps_outOfFuel, Hrefl.
  - destruct (i <? Y (Max r)); [|apply keeps_ret, Hrefl].
    apply (keeps_bind _ Htrans).
    { destruct (i + lineSize >? Y (Max r)); [|apply keeps_ret, Hrefl].
      keeps_pure Hrefl Htrans. apply keeps_lift, Hrefl. }
    intros msg1. keeps_pure Hrefl Htrans.
    apply (keeps_bind _ Htrans); [|intros _; apply IH].
    apply sendMessage_wroteOnly. left. reflexivity.
Qed.

Lemma ReplaceSubimage_wroteOnly (dstid : Z) (r : Rectangle)
  (pixels : list Z) :
  keeps (wroteOnly [tag "y"; tag "Y"]) (ReplaceSubimage dstid r pixels).
Proof.
  pose proof (wroteOnly_refl [tag "y"; tag "Y"]) as Hrefl.
  pose proof (wroteOnly_trans [tag "y"; tag "Y"]) as Htrans.
  unfold ReplaceSubimage. keeps_pure Hrefl Htrans.
  destruct (_ && _); [apply compressedRows_wroteOnly|].
  destruct (_ <? _); keeps_pure Hrefl Htrans.
  - apply sendMessage_wroteOnly. left. reflexivity.
  - apply plainRows_wroteOnly.
Qed.

(** X11. Whatever its arguments and however it ends (a return, a panic, a
    loop cut short), [ReplaceSubimage] only appends 'y' and 'Y' messages to
    what was written: it reads nothing from the device, allocates no id and
    leaves the fields of the controller as they were. *)
Theorem ReplaceSubimage_only_uploads (dstid : Z) (r : Rectangle)
  (pixels : list Z) (d : DrawCtrler) :
  let d' := snd (ReplaceSubimage dstid r pixels d) in
  N d' = N d /\ iounitSize d' = iounitSize d /\ nextId d' = nextId d /\
  device d' = device d /\ reads d' = reads d /\
  exists msgs,
    written d' = written d ++ msgs /\
    Forall (fun msg => exists rest, msg = tag "y" :: rest \/ msg = tag "Y" :: rest)
      msgs.
Proof.
  intros d'.
  destruct (ReplaceSubimage_wroteOnly dstid r pixels d)
    as ((HN & Hu & Hn & Hd & msgs & Hw & Hall) & Hr).
  fold d' in HN, Hu, Hd, Hw, Hn, Hr.
  repeat (split; [assumption|]).
  exists msgs. split; [exact Hw|].
  apply Forall_impl with (2 := Hall).
  intros msg (rest & [H | [H | []]] & Hmsg); exists rest; rewrite Hmsg, <- H; auto.
Qed.

(** [ReadSubimage] writes 'r' messages only, and allocates nothing. *)
Lemma dataRead_wrote (tags : list Z) (buf : list Z) :
  keeps (wrote tags) (dataRead buf).
Proof.
  intros d. unfold dataRead. repeat split.
  exists []. split; [cbn; now rewrite app_nil_r | constructor].
Qed.

Lemma sendMessage_wrote (tags : list Z) (cmd : Z) (val : list Z) :
  In cmd tags -> keeps (wrote tags) (sendMessage cmd val).
Proof. intros Hin d. apply (sendMessage_wroteOnly tags cmd val Hin d). Qed.

Lemma readRows_wrote (r : Rectangle) (lineSize : Z) :
  forall (fuel : nat) (msg pixels : list Z) (i : Z),
    keeps (wrote [tag "r"]) (readRows fuel r lineSize msg pixels i).
Proof.
  pose proof (wrote_refl [tag "r"]) as Hrefl.
  pose proof (wrote_trans [tag "r"]) as Htrans.
  induction fuel as [|fuel IH]; intros msg pixels i; cbn [readRows].
  - apply keeps_outOfFuel, Hrefl.
  - destruct (i <? Y (Max r)); [|apply keeps_ret, Hrefl].
    apply (keeps_bind _ Htrans);
      [apply sendMessage_wrote; left; reflexivity | intros _].
    keeps_pure Hrefl Htrans.
    apply (keeps_bind _ Htrans); [apply dataRead_wrote | intros [buf' err]].
    destruct err; [apply keeps_panic, Hrefl | apply IH].
Qed.

Lemma ReadSubimage_wrote (src : Z) (r : Rectangle) :
  keeps (wrote [tag "r"]) (ReadSubimage src r).
Proof.
  pose proof (wrote_refl [tag "r"]) as Hrefl.
  pose proof (wrote_trans [tag "r"]) as Htrans.
  unfold ReadSubimage. keeps_pure Hrefl Htrans.
  destruct (_ <? _).
  - apply (keeps_bind _ Htrans);
      [apply sendMessage_wrote; left; reflexivity | intros _].
    apply (keeps_bind _ Htrans); [apply dataRead_wrote | intros [buf' err]].
    destruct err; [apply keeps_panic, Hrefl | apply keeps_ret, Hrefl].
  - keeps_pure Hrefl Htrans. apply readRows_wrote.
Qed.

(** ** Reading back in chunks *)

(** The number of chunks of [lineSize] rows that [h] rows make. *)
Definition chunkCount (h lineSize : Z) : nat :=
  Z.to_nat ((h + lineSize - 1) / lineSize).

Lemma chunkCount_spec (h lineSize : Z) (j : nat) :
  1 <= lineSize -> 0 <= h ->
  (Z.of_nat j * lineSize < h <-> (j < chunkCount h lineSize)%nat).
Proof.
  intros HL Hh. unfold chunkCount.
  pose proof (Z.div_mod (h + lineSize - 1) lineSize ltac:(lia)) as Hdm.
  pose proof (Z.mod_pos_bound (h + lineSize - 1) lineSize ltac:(lia)) as Hm.
  set (q := (h + lineSize - 1) / lineSize) in *.
  split; intros H.
  - assert (Z.of_nat j < q) by nia. lia.
  - assert (Z.of_nat j < q) by lia. nia.
Qed.

Lemma copy_whole (dst src : list Z) :
  (length src <= length dst)%nat ->
  copy dst src = src ++ skipn (length src) dst.
Proof.
  intros H. unfold copy. rewrite Nat.min_r by exact H.
  now rewrite firstn_all.
Qed.

Lemma readRows_reassembles (r : Rectangle) (lineSize : Z)
  (dev : nat -> reply) (n0 : nat) :
  0 < X (Size r) -> 1 <= lineSize -> 0 <= Y (Size r) ->
  (forall j, (j < chunkCount (Y (Size r)) lineSize)%nat ->
     failed (dev (n0 + j)%nat) = false /\
     len (delivered (dev (n0 + j)%nat))
     = 4 * X (Size r) * Z.min lineSize (Y (Size r) - Z.of_nat j * lineSize)) ->
  forall (fuel : nat) (msg done rest : list Z) (k : nat) (d : DrawCtrler),
    device d = dev -> reads d = (n0 + k)%nat ->
    len done
    = 4 * X (Size r)
      * (Z.min (Y (Min r) + Z.of_nat k * lineSize) (Y (Max r)) - Y (Min r)) ->
    len (done ++ rest) = X (Size r) * Y (Size r) * 4 ->
    Z.max 0 (Y (Max r) - (Y (Min r) + Z.of_nat k * lineSize)) < Z.of_nat fuel ->
    fst (readRows fuel r lineSize msg (done ++ rest)
           (Y (Min r) + Z.of_nat k * lineSize) d)
    = Ok (done ++
          concat (map (fun j => delivered (dev (n0 + j)%nat))
                    (seq k (chunkCount (Y (Size r)) lineSize - k)))).
Proof.
  intros Hw HL Hh Hdev.
  induction fuel as [|fuel IH];
    intros msg done rest k d Hd Hr Hdone Hlen Hfuel; [lia|].
  set (i := Y (Min r) + Z.of_nat k * lineSize) in *.
  assert (Hsize : Y (Size r) = Y (Max r) - Y (Min r)) by reflexivity.
  destruct (Z.lt_ge_cases i (Y (Max r))) as [Hlt | Hge].
  - assert (Hk : (k < chunkCount (Y (Size r)) lineSize)%nat).
    { apply chunkCount_spec; try assumption. unfold i in Hlt. lia. }
    destruct (Hdev k Hk) as [Hok Hbytes].
    assert (Hoff : (i - Y (Min r)) * X (Size r) * 4 = len done) by lia.
    rewrite readRows_step by (rewrite ?Hoff, ?LZ77.len_app;
                              pose proof (LZ77.len_nonneg done);
                              pose proof (LZ77.len_nonneg rest); lia).
    cbv zeta. rewrite Hd, Hr, Hok. rewrite Hoff.
    replace (Z.to_nat (len done)) with (length done) by (unfold len; lia).
    rewrite firstn_app, firstn_all, Nat.sub_diag, skipn_app, skipn_all,
      Nat.sub_diag.
    cbn [firstn skipn app]. rewrite app_nil_r.
    set (bytes := delivered (dev (n0 + k)%nat)) in *.
    assert (Hrest : len rest = 4 * X (Size r) * (Y (Max r) - i)).
    { rewrite LZ77.len_app in Hlen. lia. }
    rewrite copy_whole by (unfold len in *; unfold i in *; nia).
    rewrite app_assoc.
    replace (i + lineSize) with (Y (Min r) + Z.of_nat (S k) * lineSize)
      by (unfold i; lia).
    rewrite IH.
    + replace (chunkCount (Y (Size r)) lineSize - k)%nat
        with (S (chunkCount (Y (Size r)) lineSize - S k)) by lia.
      cbn [seq map concat]. fold bytes. now rewrite app_assoc.
    + reflexivity.
    + cbn [reads]. lia.
    + rewrite LZ77.len_app, Hbytes. unfold i in *. lia.
    + rewrite !LZ77.len_app. unfold len at 3. rewrite length_skipn.
      rewrite LZ77.len_app in Hlen. unfold len in *. unfold i in *. nia.
    + unfold i in *. lia.
  - cbn [readRows].
    replace (i <? Y (Max r)) with false by (symmetry; apply Z.ltb_ge; lia).
    cbn [ret fst].
    assert (Hk : (chunkCount (Y (Size r)) lineSize - k = 0)%nat).
    { destruct (Nat.le_gt_cases (chunkCount (Y (Size r)) lineSize) k) as [|Hgt];
        [lia|].
      apply chunkCount_spec in Hgt; try assumption. unfold i in Hge. lia. }
    rewrite Hk. cbn [seq map concat]. rewrite app_nil_r.
    assert (Hnil : rest = []).
    { rewrite LZ77.len_app in Hlen.
      destruct rest; [reflexivity|]. rewrite LZ77.len_cons in Hlen.
      pose proof (LZ77.len_nonneg rest). lia. }
    now rewrite Hnil, app_nil_r.
Qed.

(** X12. When the device answers every read without an error and with the
    bytes of the rows that were asked for, [ReadSubimage] returns these
    bytes in the order of the reads: one read for a rectangle that fits the
    transfer unit, and else one read for every [iounitSize / 4 / width] rows
    with a shorter last one, put together to the pixels of the rectangle.
    The width, the height and the byte size of the rectangle are within
    [int], and so is [Max.Y + iounitSize], so that neither the size of the
    buffer nor the row counter of the loop wraps. *)
Theorem ReadSubimage_reassembles (src : Z) (r : Rectangle) (d : DrawCtrler) :
  0 < X (Size r) -> 1 <= Y (Size r) -> 4 * X (Size r) <= iounitSize d ->
  sizeFitsInt r -> Y (Max r) + iounitSize d <= maxInt32 ->
  let lineSize := iounitSize d / 4 / X (Size r) in
  let chunks := chunkCount (Y (Size r)) lineSize in
  (forall j, (j < chunks)%nat ->
     failed (device d (reads d + j)%nat) = false /\
     len (delivered (device d (reads d + j)%nat))
     = 4 * X (Size r) * Z.min lineSize (Y (Size r) - Z.of_nat j * lineSize)) ->
  fst (ReadSubimage src r d)
  = Ok (concat (map (fun j => delivered (device d (reads d + j)%nat))
                  (seq 0 chunks))).
Proof.
  intros Hw Hh Hrow _ _ lineSize chunks Hdev.
  assert (HL : 1 <= lineSize).
  { unfold lineSize. apply Z.div_le_lower_bound; [lia|].
    apply Z.div_le_lower_bound; lia. }
  destruct (Z.lt_ge_cases (X (Size r) * Y (Size r) * 4) (iounitSize d))
    as [Hsmall | Hlarge].
  - (* one request for the whole rectangle *)
    assert (Hfit : Y (Size r) <= lineSize).
    { unfold lineSize. apply Z.div_le_lower_bound; [lia|].
      apply Z.div_le_lower_bound; lia. }
    assert (Hone : chunks = 1%nat).
    { unfold chunks, chunkCount.
      replace (Y (Size r) + lineSize - 1)
        with ((Y (Size r) - 1) + 1 * lineSize) by lia.
      rewrite Z.div_add, Z.div_small by lia. reflexivity. }
    destruct (ReadSubimage_single src r d ltac:(nia)) as (msg & Heq).
    cbv zeta in Heq. rewrite Heq, Hone.
    destruct (Hdev O ltac:(lia)) as [Hok Hbytes].
    rewrite Nat.add_0_r in Hok, Hbytes. rewrite Hok. cbn [fst seq map concat].
    rewrite Nat.add_0_r, app_nil_r.
    rewrite copy_whole by (rewrite repeat_length; unfold len in Hbytes; lia).
    rewrite skipn_all2 by (rewrite repeat_length; unfold len in Hbytes; lia).
    now rewrite app_nil_r.
  - destruct (ReadSubimage_chunked src r d ltac:(lia) Hw) as (msg & Heq).
    rewrite Heq. fold lineSize.
    pose proof (readRows_reassembles r lineSize (device d) (reads d) Hw HL
                  ltac:(lia) Hdev (S (Z.to_nat (Y (Size r)))) msg []
                  (repeat 0 (Z.to_nat (X (Size r) * Y (Size r) * 4))) O d
                  eq_refl ltac:(lia)) as H.
    cbn [app Z.of_nat] in H. rewrite Z.mul_0_l, Z.add_0_r in H.
    rewrite H.
    + now rewrite Nat.sub_0_r.
    + cbn [Size Y] in Hh. unfold len. cbn [length]. lia.
    + unfold len. rewrite repeat_length. nia.
    + cbn [Size Y] in *. lia.
Qed.

Lemma ReadSubimage_reassembles_witness :
  let d := NewDrawCtrler 1 10 (fun _ => Reply (repeat 5 8) false) in
  fst (ReadSubimage 3 (Rect (Pt 0 0) (Pt 2 3)) d) = Ok (repeat 5 24).
Proof.
  intros d.
  rewrite (ReadSubimage_reassembles 3 (Rect (Pt 0 0) (Pt 2 3)) d).
  - reflexivity.
  - cbn. lia.
  - cbn. lia.
  - cbn. lia.
  - unfold sizeFitsInt, maxInt32. cbn. lia.
  - unfold maxInt32. cbn. lia.
  - intros j Hj. destruct j as [|[|[|j]]];
      [split; reflexivity .. | vm_compute in Hj; lia].
Defined.

(** ** Screens *)

(** An [error] as the callers see it. *)
Inductive error : Type := NoScreen | WriteFailed.

Section WriteErrors.

(** Whether the device answers the [Write] of a message with an error, given
    the messages written before it. *)
Variable refused : list (list Z) -> list Z -> bool.

(** [sendMessage], for the callers that look at the error it returns.  The
    message is handed to [Write] and recorded whether the device takes it or
    not. *)
Definition sendMessageErr (cmd : Z) (val : list Z) : M (option error) :=
  fun d =>
    (Ok (if refused (written d) (cmd :: val) then Some WriteFailed else None),
     snd (sendMessage cmd val d)).

(** The loop [for i := 0; i < 255; i++] of [AllocScreen]. *)
Fixpoint allocScreenLoop (fuel : nat) (msg : list Z) (i : Z)
  : M (Z * option error) :=
  match fuel with
  | O => outOfFuel
  | S fuel' =>
      if i <? 255 then
        let msg := putUint32 msg 0 (uint32 i) in
        err <- sendMessageErr (tag "A") msg ;;
        match err with
        | None => ret (uint32 i, None)
        | Some _ => allocScreenLoop fuel' msg (i + 1)
        end
      else ret (0, Some NoScreen)
  end.

(** [func (d *DrawCtrler) AllocScreen() (screenId, error)] *)
Definition AllocScreen : M (Z * option error) :=
  allocScreenLoop 256 (repeat 0 13) 0.

(** [func (d *DrawCtrler) FreeScreen(id screenId)] *)
Definition FreeScreen (id : Z) : M unit :=
  sendMessage (tag "F") (putUint32 (repeat 0 4) 0 id).

(** [func (d *DrawCtrler) ReallocScreen(id screenId) error] *)
Definition ReallocScreen (id : Z) : M (option error) :=
  sendMessage (tag "F") (putUint32 (repeat 0 4) 0 id) ;;;
  sendMessageErr (tag "A") (putUint32 (repeat 0 13) 0 id).

(** The 'A' message that asks for the screen [i], and the first [n] of
    them. *)
Definition screenRequest (i : Z) : list Z :=
  tag "A" :: le32 i ++ repeat 0 9.

Definition screenRequests (n : nat) : list (list Z) :=
  map (fun j => screenRequest (Z.of_nat j)) (seq 0 n).

(** The device refuses the request for the screen [j], made after the
    requests for the screens below it. *)
Definition refusedAt (d : DrawCtrler) (j : nat) : bool :=
  refused (written d ++ screenRequests j) (screenRequest (Z.of_nat j)).

Lemma screenRequests_S (n : nat) :
  screenRequests (S n) = screenRequests n ++ [screenRequest (Z.of_nat n)].
Proof.
  unfold screenRequests. rewrite seq_S, map_app. reflexivity.
Qed.

(** One turn of the loop of [AllocScreen]. *)
Lemma allocScreenLoop_step (d0 : DrawCtrler) (fuel k : nat) (a b c e : Z) :
  (k < 255)%nat ->
  allocScreenLoop (S fuel) ([a; b; c; e] ++ repeat 0 9) (Z.of_nat k)
    (appendWritten d0 (screenRequests k))
  = if refusedAt d0 k
    then allocScreenLoop fuel (le32 (Z.of_nat k) ++ repeat 0 9)
           (Z.of_nat (S k)) (appendWritten d0 (screenRequests (S k)))
    else (Ok (Z.of_nat k, None), appendWritten d0 (screenRequests (S k))).
Proof.
  intros Hk. cbn [allocScreenLoop].
  replace (Z.of_nat k <? 255) with true by (symmetry; apply Z.ltb_lt; lia).
  replace (uint32 (Z.of_nat k)) with (Z.of_nat k)
    by (unfold uint32; rewrite Z.mod_small; lia).
  unfold bindM, sendMessageErr, sendMessage, refusedAt, appendWritten.
  cbn [snd written N iounitSize nextId device reads].
  rewrite screenRequests_S, app_assoc.
  replace (Z.of_nat (S k)) with (Z.of_nat k + 1) by lia.
  destruct (refused _ _); reflexivity.
Qed.

Lemma allocScreenLoop_run (d0 : DrawCtrler) :
  forall (fuel : nat) (k : nat) (a b c e : Z),
    (255 - k < fuel)%nat -> (k <= 255)%nat ->
    (forall j, (j < k)%nat -> refusedAt d0 j = true) ->
    let run := allocScreenLoop fuel ([a; b; c; e] ++ repeat 0 9)
                 (Z.of_nat k) (appendWritten d0 (screenRequests k)) in
    (exists n, (n < 255)%nat /\
       (forall j, (j < n)%nat -> refusedAt d0 j = true) /\
       refusedAt d0 n = false /\
       run = (Ok (Z.of_nat n, None),
              appendWritten d0 (screenRequests (S n)))) \/
    ((forall j, (j < 255)%nat -> refusedAt d0 j = true) /\
     run = (Ok (0, Some NoScreen), appendWritten d0 (screenRequests 255))).
Proof.
  induction fuel as [|fuel IH]; intros k a b c e Hfuel Hk Hbefore run; [lia|].
  destruct (Nat.eq_dec k 255) as [-> | Hne].
  - right. split; [exact Hbefore | reflexivity].
  - unfold run. rewrite allocScreenLoop_step by lia.
    destruct (refusedAt d0 k) eqn:Hr.
    + apply IH; try lia.
      intros j Hj. destruct (Nat.eq_dec j k) as [-> | Hjk];
        [exact Hr | apply Hbefore; lia].
    + left. exists k. split; [lia|]. split; [exact Hbefore|].
      split; [exact Hr | reflexivity].
Qed.

(** X13. [AllocScreen] asks for the screens 0, 1, 2, ... in this order and
    returns the first one the device accepts, after one 'A' message for it
    and for each screen before it.  When the device refuses the screens 0 to
    254 it returns the error after 255 messages; screen 255 is never asked
    for. *)
Theorem AllocScreen_takes_the_first_screen_accepted (d : DrawCtrler) :
  (exists n, (n < 255)%nat /\
     (forall j, (j < n)%nat -> refusedAt d j = true) /\
     refusedAt d n = false /\
     AllocScreen d
     = (Ok (Z.of_nat n, None), appendWritten d (screenRequests (S n)))) \/
  ((forall j, (j < 255)%nat -> refusedAt d j = true) /\
   AllocScreen d
   = (Ok (0, Some NoScreen), appendWritten d (screenRequests 255))).
Proof.
  pose proof (allocScreenLoop_run d 256 0 0 0 0 0 ltac:(lia) ltac:(lia)) as H.
  cbv zeta in H.
  replace (appendWritten d (screenRequests 0)) with d in H
    by (destruct d; unfold appendWritten; cbn; now rewrite app_nil_r).
  apply H. intros j Hj. lia.
Qed.

End WriteErrors.

(** ** Reading the messages back *)

(** A 32-bit little-endian integer at the head of [bytes], unsigned and
    signed, as the draw device reads the fields of a message. *)
Definition readUint32 (bytes : list Z) : Z :=
  nth 0 bytes 0 + 256 * nth 1 bytes 0 + 65536 * nth 2 bytes 0
  + 16777216 * nth 3 bytes 0.

Definition readInt32 (bytes : list Z) : Z :=
  let u := readUint32 bytes in
  if u <? 2147483648 then u else u - 4294967296.

Lemma readUint32_le32 (v : Z) (rest : list Z) :
  0 <= v < 4294967296 -> readUint32 (le32 v ++ rest) = v.
Proof.
  intros Hv. unfold readUint32, le32. cbn [app nth].
  pose proof (Z.div_mod v 256 ltac:(lia)).
  pose proof (Z.div_mod (v / 256) 256 ltac:(lia)).
  pose proof (Z.div_mod (v / 256 / 256) 256 ltac:(lia)).
  rewrite !Z.div_div in * by lia.
  change (256 * 256) with 65536 in *.
  change (65536 * 256) with 16777216 in *.
  assert (v / 16777216 < 256) by (apply Z.div_lt_upper_bound; lia).
  assert (0 <= v / 16777216) by (apply Z.div_pos; lia).
  rewrite (Z.mod_small (v / 16777216)) by lia.
  lia.
Qed.

Lemma readInt32_le32 (x : Z) (rest : list Z) :
  - 2147483648 <= x < 2147483648 ->
  readInt32 (le32 (uint32 x) ++ rest) = x.
Proof.
  intros Hx. unfold readInt32.
  rewrite readUint32_le32 by (apply Z.mod_pos_bound; lia).
  unfold uint32.
  destruct (Z.lt_ge_cases x 0) as [Hneg | Hpos].
  - replace (x mod 4294967296) with (x + 4294967296).
    + replace (x + 4294967296 <? 2147483648) with false
        by (symmetry; apply Z.ltb_ge; lia).
      lia.
    + apply Z.mod_unique with (q := -1); lia.
  - rewrite Z.mod_small by lia.
    replace (x <? 2147483648) with true by (symmetry; apply Z.ltb_lt; lia).
    reflexivity.
Qed.

(** The arguments of a 'd' message, read field by field after the command
    letter: [d dstid[4] srcid[4] maskid[4] dstr[4*4] srcp[2*4] maskp[2*4]]. *)
Definition parseDraw (msg : list Z)
  : option (Z * Z * Z * Rectangle * Point * Point) :=
  match msg with
  | cmd :: args =>
      if (cmd =? tag "d") && (length args =? 44)%nat then
        Some (readUint32 args,
              readUint32 (skipn 4 args),
              readUint32 (skipn 8 args),
              Rect (Pt (readInt32 (skipn 12 args)) (readInt32 (skipn 16 args)))
                   (Pt (readInt32 (skipn 20 args)) (readInt32 (skipn 24 args))),
              Pt (readInt32 (skipn 28 args)) (readInt32 (skipn 32 args)),
              Pt (readInt32 (skipn 36 args)) (readInt32 (skipn 40 args)))
      else None
  | [] => None
  end.

Definition isUint32 (v : Z) : Prop := 0 <= v < 4294967296.
Definition isInt32 (v : Z) : Prop := - 2147483648 <= v < 2147483648.
Definition pointFits (p : Point) : Prop := isInt32 (X p) /\ isInt32 (Y p).

(** X14. The 'd' message of [Draw] read back.  For ids of 32 bits and
    coordinates that are 32-bit signed integers, [Draw] writes the set-op
    message and a 'd' message of 45 bytes whose fields, read as the draw
    device reads them (little-endian, the coordinates signed), are the
    arguments of the call: negative coordinates included. *)
Theorem Draw_message_reads_back (dstid srcid maskid : Z) (r : Rectangle)
  (srcp maskp : Point) (op : Op) (d : DrawCtrler) :
  isUint32 dstid -> isUint32 srcid -> isUint32 maskid ->
  pointFits (Min r) -> pointFits (Max r) -> pointFits srcp ->
  pointFits maskp ->
  exists opMsg drawMsg,
    Draw dstid srcid maskid r srcp maskp op d
    = (Ok tt, appendWritten d [opMsg; drawMsg]) /\
    opMsg = [tag "O"; match op with Src => 10 | Over => 11 end] /\
    parseDraw drawMsg = Some (dstid, srcid, maskid, r, srcp, maskp).
Proof.
  intros Hd Hs Hm [Hx0 Hy0] [Hx1 Hy1] [Hsx Hsy] [Hmx Hmy].
  do 2 eexists. split; [|split].
  - unfold Draw, bindM, setOp, sendMessage, appendWritten.
    cbn [written N iounitSize nextId device reads].
    rewrite <- app_assoc. reflexivity.
  - destruct op; reflexivity.
  - unfold parseDraw. cbn [putUint32 store le32 length Nat.add Nat.leb
                           firstn skipn app repeat Nat.eqb andb].
    rewrite Z.eqb_refl. cbn [andb].
    destruct r as [[x0 y0] [x1 y1]], srcp as [sx sy], maskp as [mx my].
    cbn [X Y Min Max] in *.
    repeat match goal with
           | |- context [readUint32 (?v mod 256 :: ?a :: ?b :: ?c :: ?rest)] =>
               change (v mod 256 :: a :: b :: c :: rest) with (le32 v ++ rest)
           | |- context [readInt32 (?v mod 256 :: ?a :: ?b :: ?c :: ?rest)] =>
               change (v mod 256 :: a :: b :: c :: rest) with (le32 v ++ rest)
           end.
    rewrite !readUint32_le32 by assumption.
    rewrite !readInt32_le32 by assumption.
    reflexivity.
Qed.

Lemma Draw_message_reads_back_witness :
  let d := NewDrawCtrler 1 1000 (fun _ => Reply [] false) in
  let r := Rect (Pt (-1) 0) (Pt 5 5) in
  exists opMsg drawMsg,
    Draw 1 2 3 r ZP (Pt 7 (-7)) Over d
    = (Ok tt, appendWritten d [opMsg; drawMsg]) /\
    parseDraw drawMsg = Some (1, 2, 3, r, ZP, Pt 7 (-7)).
Proof.
  intros d r.
  destruct (Draw_message_reads_back 1 2 3 r ZP (Pt 7 (-7)) Over d)
    as (opMsg & drawMsg & Hrun & _ & Hparse).
  - unfold isUint32. lia.
  - unfold isUint32. lia.
  - unfold isUint32. lia.
  - split; unfold isInt32; cbn; lia.
  - split; unfold isInt32; cbn; lia.
  - split; unfold isInt32; cbn; lia.
  - split; unfold isInt32; cbn; lia.
  - exists opMsg, drawMsg. split; assumption.
Defined.

(** ** Images allocated and freed *)

(** What a message does to the image [id]: a 'b' message naming it allocates
    it, an 'f' message naming it frees it. *)
Definition effect (id : Z) (msg : list Z) : Z :=
  match msg with
  | cmd :: args =>
      if readUint32 args =? id then
        if cmd =? tag "b" then 1 else if cmd =? tag "f" then -1 else 0
      else 0
  | [] => 0
  end.

(** Allocations less frees of the image [id] in a log of messages. *)
Definition balance (id : Z) (log : list (list Z)) : Z :=
  fold_right (fun msg sum => effect id msg + sum) 0 log.

Lemma balance_app (id : Z) (a b : list (list Z)) :
  balance id (a ++ b) = balance id a + balance id b.
Proof.
  induction a as [|msg a IH]; cbn [app balance fold_right].
  - reflexivity.
  - fold (balance id (a ++ b)). fold (balance id a). rewrite IH. lia.
Qed.

Lemma balance_others (id : Z) (tags : list Z) (msgs : list (list Z)) :
  ~ In (tag "b") tags -> ~ In (tag "f") tags ->
  Forall (fun msg => exists rest, In (hd 0 msg) tags /\ msg = hd 0 msg :: rest)
    msgs ->
  balance id msgs = 0.
Proof.
  intros Hb Hf Hall. induction Hall as [|msg msgs (rest & Hin & Hmsg) _ IH].
  - reflexivity.
  - cbn [balance fold_right]. fold (balance id msgs). rewrite IH.
    rewrite Hmsg. cbn [effect].
    destruct (readUint32 rest =? id); [|reflexivity].
    destruct (hd 0 msg =? tag "b") eqn:E1.
    + apply Z.eqb_eq in E1. rewrite E1 in Hin. contradiction.
    + destruct (hd 0 msg =? tag "f") eqn:E2; [|reflexivity].
      apply Z.eqb_eq in E2. rewrite E2 in Hin. contradiction.
Qed.

Lemma effect_alloc (id newId refresh : Z) (repl : bool) (r clipr : Rectangle)
  (color : Color) :
  0 <= newId < 4294967296 ->
  effect id (tag "b" :: allocMessage newId refresh repl r clipr color)
  = if newId =? id then 1 else 0.
Proof.
  intros H. unfold effect, allocMessage.
  assert (Hid : forall rest, readUint32 (newId mod 256 :: (newId / 256) mod 256
                               :: (newId / 65536) mod 256
                               :: (newId / 16777216) mod 256 :: rest) = newId).
  { intros rest. apply (readUint32_le32 newId rest H). }
  destruct repl; store_fields; rewrite Hid; reflexivity.
Qed.

Lemma effect_free (id freed : Z) :
  0 <= freed < 4294967296 ->
  effect id (tag "f" :: putUint32 (repeat 0 4) 0 freed)
  = if freed =? id then -1 else 0.
Proof.
  intros H. unfold effect. store_fields.
  change [freed mod 256; (freed / 256) mod 256; (freed / 65536) mod 256;
          (freed / 16777216) mod 256] with (le32 freed ++ []).
  rewrite readUint32_le32 by exact H. reflexivity.
Qed.

Lemma uint32_range (z : Z) : 0 <= uint32 z < 4294967296.
Proof. unfold uint32. apply Z.mod_pos_bound. lia. Qed.

(** The 'O' and 'd' messages of a [Draw] call. *)
Definition drawMessages (dstid srcid maskid : Z) (r : Rectangle)
  (srcp maskp : Point) (op : Op) : list (list Z) :=
  [[tag "O"; match op with Src => 10 | Over => 11 end];
   tag "d" ::
     le32 dstid ++ le32 srcid ++ le32 maskid ++
     le32 (uint32 (X (Min r))) ++ le32 (uint32 (Y (Min r))) ++
     le32 (uint32 (X (Max r))) ++ le32 (uint32 (Y (Max r))) ++
     le32 (uint32 (X srcp)) ++ le32 (uint32 (Y srcp)) ++
     le32 (uint32 (X maskp)) ++ le32 (uint32 (Y maskp))].

Lemma balance_drawMessages (id dstid srcid maskid : Z) (r : Rectangle)
  (srcp maskp : Point) (op : Op) :
  balance id (drawMessages dstid srcid maskid r srcp maskp op) = 0.
Proof.
  unfold drawMessages. cbn [balance fold_right effect].
  change (tag "O" =? tag "b") with false. change (tag "O" =? tag "f") with false.
  change (tag "d" =? tag "b") with false. change (tag "d" =? tag "f") with false.
  repeat match goal with |- context [if ?c then _ else _] => destruct c end;
    reflexivity.
Qed.

End DrawCtl.

(* ================================================================== *)
(** * wctl.go: the mouse translator *)
(* ================================================================== *)

Module Mouse.

(** [type ButtonMask int] and its constants. *)
Definition MouseButtonLeft : Z := 1.
Definition MouseButtonMiddle : Z := 2.
Definition MouseButtonRight : Z := 4.
Definition MouseScrollUp : Z := 8.
Definition MouseScrollDown : Z := 16.

(** The values of [mouse.Button] and [mouse.Direction] the handler uses. *)
Inductive Button : Type :=
| ButtonNone | ButtonLeft | ButtonMiddle | ButtonRight
| ButtonWheelUp | ButtonWheelDown.

Inductive Direction : Type := DirNone | DirPress | DirRelease.

Section Translator.

(** The type of the coordinates of an event ([float32] in Go); the
    translator only passes them on. *)
Variable coord : Type.

(** [mouse.Event], with the fields the handler sets. *)
Record Event : Type := MkEvent {
  X : coord; Y : coord; button : Button; direction : Direction
}.

(** The handler's locals while it goes through the ten tests: what was
    sent on [notifier] so far, and [sentEvt]. *)
Record progress : Type := MkProgress { sent : list Event; sentEvt : bool }.

(** [if cond { notifier <- &mouse.Event{...}; sentEvt = true }] *)
Definition sendIf (cond : bool) (e : Event) (p : progress) : progress :=
  if cond then MkProgress (sent p ++ [e]) true else p.

(** The body of [case 'm'] from [sentEvt := false] to [prevmask = buttons],
    for a record whose three fields parsed: the events sent on [notifier],
    in order, and the new value of [prevmask]. *)
Definition buttonEvents (x y : coord) (buttons prevmask : Z)
  : list Event * Z :=
  let p := MkProgress [] false in
  let p := sendIf (negb (Z.land buttons MouseButtonLeft =? 0)
                   && (Z.land prevmask MouseButtonLeft =? 0))
             (MkEvent x y ButtonLeft DirPress) p in
  let p := sendIf ((Z.land buttons MouseButtonLeft =? 0)
                   && negb (Z.land prevmask MouseButtonLeft =? 0))
             (MkEvent x y ButtonLeft DirRelease) p in
  let p := sendIf (negb (Z.land buttons MouseButtonMiddle =? 0)
                   && (Z.land prevmask MouseButtonMiddle =? 0))
             (MkEvent x y ButtonMiddle DirPress) p in
  let p := sendIf ((Z.land buttons MouseButtonMiddle =? 0)
                   && negb (Z.land prevmask MouseButtonMiddle =? 0))
             (MkEvent x y ButtonMiddle DirRelease) p in
  let p := sendIf (negb (Z.land buttons MouseButtonRight =? 0)
                   && (Z.land prevmask MouseButtonRight =? 0))
             (MkEvent x y ButtonRight DirPress) p in
  let p := sendIf ((Z.land buttons MouseButtonRight =? 0)
                   && negb (Z.land prevmask MouseButtonRight =? 0))
             (MkEvent x y ButtonRight DirRelease) p in
  let p := sendIf (negb (Z.land buttons MouseScrollUp =? 0)
                   && (Z.land prevmask MouseScrollUp =? 0))
             (MkEvent x y ButtonWheelUp DirPress) p in
  let p := sendIf ((Z.land buttons MouseScrollUp =? 0)
                   && negb (Z.land prevmask MouseScrollUp =? 0))
             (MkEvent x y ButtonWheelUp DirRelease) p in
  let p := sendIf (negb (Z.land buttons MouseScrollDown =? 0)
                   && (Z.land prevmask MouseScrollDown =? 0))
             (MkEvent x y ButtonWheelDown DirPress) p in
  let p := sendIf ((Z.land buttons MouseScrollDown =? 0)
                   && negb (Z.land prevmask MouseScrollDown =? 0))
             (MkEvent x y ButtonWheelDown DirRelease) p in
  let p := if negb (sentEvt p)
           then MkProgress (sent p ++ [MkEvent x y ButtonNone DirNone])
                  (sentEvt p)
           else p in
  (sent p, buttons).

(** An 'm' record as the handler sees it after parsing: each of the three
    fields parsed ([Some]) or not ([None]). *)
Record moveRecord : Type := MkMove {
  parsedX : option coord; parsedY : option coord; parsedMask : option Z
}.

(** The whole [case 'm']: a field that does not parse makes the handler
    [continue], sending nothing and leaving [prevmask] as it was. *)
Definition handleMove (m : moveRecord) (prevmask : Z) : list Event * Z :=
  match parsedX m, parsedY m, parsedMask m with
  | Some x, Some y, Some buttons => buttonEvents x y buttons prevmask
  | _, _, _ => ([], prevmask)
  end.

(** The loop over the records read from /dev/mouse, [prevmask] carried from
    one record to the next: everything sent on [notifier]. *)
Fixpoint handleMoves (records : list moveRecord) (prevmask : Z)
  : list Event :=
  match records with
  | [] => []
  | m :: records' =>
      let '(events, prevmask') := handleMove m prevmask in
      events ++ handleMoves records' prevmask'
  end.

(** ** The translation, as the specification words it *)

(** The five tracked bits in their fixed order, each with its button. *)
Definition tracked : list (Button * Z) :=
  [(ButtonLeft, 0); (ButtonMiddle, 1); (ButtonRight, 2);
   (ButtonWheelUp, 3); (ButtonWheelDown, 4)].

(** A bit newly set is a press, a bit newly cleared a release. *)
Definition transition (x y : coord) (new old : Z) (b : Button * Z)
  : list Event :=
  let '(btn, bit) := b in
  if Z.testbit new bit && negb (Z.testbit old bit)
  then [MkEvent x y btn DirPress]
  else if negb (Z.testbit new bit) && Z.testbit old bit
       then [MkEvent x y btn DirRelease]
       else [].

Definition transitions (x y : coord) (new old : Z) : list Event :=
  flat_map (transition x y new old) tracked.

Definition expectedEvents (x y : coord) (new old : Z) : list Event :=
  match transitions x y new old with
  | [] => [MkEvent x y ButtonNone DirNone]
  | events => events
  end.

End Translator.

Arguments MkEvent {coord} X Y button direction.
Arguments MkMove {coord} parsedX parsedY parsedMask.

(** ** Results on the translator *)

(** Testing a mask against a one-bit constant is testing that bit. *)
Lemma land_bit (m k : Z) :
  0 <= k -> (Z.land m (2 ^ k) =? 0) = negb (Z.testbit m k).
Proof.
  intros Hk. destruct (Z.testbit m k) eqn:Hbit; cbn [negb].
  - apply Z.eqb_neq. intros H0.
    assert (Hk' : Z.testbit (Z.land m (2 ^ k)) k = true)
      by (rewrite Z.land_spec, Hbit, Z.pow2_bits_true by exact Hk; reflexivity).
    rewrite H0, Z.bits_0 in Hk'. discriminate.
  - apply Z.eqb_eq. apply Z.bits_inj'. intros n Hn.
    rewrite Z.land_spec, Z.bits_0.
    destruct (Z.eq_dec n k) as [-> | Hne].
    + now rewrite Hbit.
    + rewrite (Z.pow2_bits_false k n) by congruence. apply andb_false_r.
Qed.

Lemma buttonEvents_expected (coord : Type) (x y : coord)
  (buttons prevmask : Z) :
  buttonEvents coord x y buttons prevmask
  = (expectedEvents coord x y buttons prevmask, buttons).
Proof.
  assert (E0 : forall m, (Z.land m MouseButtonLeft =? 0) = negb (Z.testbit m 0))
    by (intros m; apply (land_bit m 0); lia).
  assert (E1 : forall m, (Z.land m MouseButtonMiddle =? 0) = negb (Z.testbit m 1))
    by (intros m; apply (land_bit m 1); lia).
  assert (E2 : forall m, (Z.land m MouseButtonRight =? 0) = negb (Z.testbit m 2))
    by (intros m; apply (land_bit m 2); lia).
  assert (E3 : forall m, (Z.land m MouseScrollUp =? 0) = negb (Z.testbit m 3))
    by (intros m; apply (land_bit m 3); lia).
  assert (E4 : forall m, (Z.land m MouseScrollDown =? 0) = negb (Z.testbit m 4))
    by (intros m; apply (land_bit m 4); lia).
  (* the tests are rewritten under the [let]s, which are kept *)
  cbv delta [buttonEvents expectedEvents transitions tracked]. cbv beta.
  rewrite !E0, !E1, !E2, !E3, !E4.
  cbn [flat_map transition].
  destruct (Z.testbit buttons 0), (Z.testbit prevmask 0),
    (Z.testbit buttons 1), (Z.testbit prevmask 1),
    (Z.testbit buttons 2), (Z.testbit prevmask 2),
    (Z.testbit buttons 3), (Z.testbit prevmask 3),
    (Z.testbit buttons 4), (Z.testbit prevmask 4); reflexivity.
Qed.

Lemma expectedEvents_coords (coord : Type) (x y : coord) (new old : Z) :
  Forall (fun e => X coord e = x /\ Y coord e = y)
    (expectedEvents coord x y new old).
Proof.
  assert (H : Forall (fun e => X coord e = x /\ Y coord e = y)
                (transitions coord x y new old)).
  { unfold transitions. apply Forall_flat_map, Forall_forall.
    intros [btn bit] _. unfold transition.
    destruct (Z.testbit new bit && negb (Z.testbit old bit));
      [repeat constructor|].
    destruct (negb (Z.testbit new bit) && Z.testbit old bit);
      repeat constructor. }
  unfold expectedEvents.
  destruct (transitions coord x y new old); [repeat constructor | exact H].
Qed.

Lemma expectedEvents_unchanged (coord : Type) (x y : coord) (mask : Z) :
  expectedEvents coord x y mask mask = [MkEvent x y ButtonNone DirNone].
Proof.
  unfold expectedEvents, transitions, tracked, transition. cbn [flat_map].
  destruct (Z.testbit mask 0), (Z.testbit mask 1), (Z.testbit mask 2),
    (Z.testbit mask 3), (Z.testbit mask 4); reflexivity.
Qed.

(** C4.  For every mouse record whose fields parse, the handler sends, for
    the five tracked bits in the order left, middle, right, wheel-up,
    wheel-down, a press event for a bit newly set and a release event for a
    bit newly cleared, or the single "moved, no button" event when none of
    them changed; every event carries the record's X and Y; the stored mask
    becomes the record's mask.  In particular the masks 1, 3, 0 read after
    the initial mask 0 give LeftPress; MiddlePress; LeftRelease,
    MiddleRelease and no "moved" event. *)
Theorem mouse_button_translation (coord : Type) :
  (forall (x y : coord) (buttons prevmask : Z),
      handleMove coord (MkMove (Some x) (Some y) (Some buttons)) prevmask
      = (expectedEvents coord x y buttons prevmask, buttons)) /\
  (forall (x y : coord) (buttons prevmask : Z),
      Forall (fun e => X coord e = x /\ Y coord e = y)
        (expectedEvents coord x y buttons prevmask)) /\
  (forall (x y : coord) (mask : Z),
      expectedEvents coord x y mask mask = [MkEvent x y ButtonNone DirNone]) /\
  (forall x1 y1 x2 y2 x3 y3 : coord,
      handleMoves coord
        [MkMove (Some x1) (Some y1) (Some 1);
         MkMove (Some x2) (Some y2) (Some 3);
         MkMove (Some x3) (Some y3) (Some 0)] 0
      = [MkEvent x1 y1 ButtonLeft DirPress;
         MkEvent x2 y2 ButtonMiddle DirPress;
         MkEvent x3 y3 ButtonLeft DirRelease;
         MkEvent x3 y3 ButtonMiddle DirRelease]).
Proof.
  split; [|split; [|split]].
  - intros x y buttons prevmask. cbn [handleMove parsedX parsedY parsedMask].
    apply buttonEvents_expected.
  - intros. apply expectedEvents_coords.
  - intros. apply expectedEvents_unchanged.
  - intros. cbn [handleMoves handleMove parsedX parsedY parsedMask].
    rewrite !buttonEvents_expected. reflexivity.
Qed.

(** A record with a field that does not parse is dropped: nothing is sent
    and the stored mask stays. *)
Example malformed_record_is_skipped (coord : Type) (x : coord) :
  handleMove coord (MkMove (Some x) None (Some 1)) 4 = ([], 4).
Proof. reflexivity. Qed.

(** ** The events of one button *)

Definition sameButton (a b : Button) : bool :=
  match a, b with
  | ButtonNone, ButtonNone | ButtonLeft, ButtonLeft
  | ButtonMiddle, ButtonMiddle | ButtonRight, ButtonRight
  | ButtonWheelUp, ButtonWheelUp | ButtonWheelDown, ButtonWheelDown => true
  | _, _ => false
  end.

Section Stream.

Variable coord : Type.

(** The directions of the events of the button [b], in the order sent. *)
Definition directionsOf (b : Button) (events : list (Event coord))
  : list Direction :=
  map (direction coord)
    (filter (fun e => sameButton (button coord e) b) events).

(** The value of [prevmask] after the records were handled. *)
Fixpoint maskAfter (records : list (moveRecord coord)) (prevmask : Z) : Z :=
  match records with
  | [] => prevmask
  | m :: records' => maskAfter records' (snd (handleMove coord m prevmask))
  end.

End Stream.

(** A button that is up can only be pressed and a button that is down can
    only be released: the state after a run of directions that respects
    this, from the state [down]. *)
Fixpoint alternates (down : bool) (dirs : list Direction) : option bool :=
  match dirs with
  | [] => Some down
  | DirPress :: dirs' => if down then None else alternates true dirs'
  | DirRelease :: dirs' => if down then alternates false dirs' else None
  | DirNone :: dirs' => None
  end.

Lemma alternates_app (down : bool) (a b : list Direction) :
  alternates down (a ++ b)
  = match alternates down a with
    | Some down' => alternates down' b
    | None => None
    end.
Proof.
  revert down. induction a as [|dir a IH]; intros down; [reflexivity|].
  cbn [app alternates]. destruct dir, down; try reflexivity; apply IH.
Qed.

Lemma directionsOf_app (coord : Type) (b : Button)
  (e1 e2 : list (Event coord)) :
  directionsOf coord b (e1 ++ e2)
  = directionsOf coord b e1 ++ directionsOf coord b e2.
Proof. unfold directionsOf. now rewrite filter_app, map_app. Qed.

(** What one record sends for one tracked button. *)
Lemma expectedEvents_of_button (coord : Type) (x y : coord) (new old : Z)
  (btn : Button) (bit : Z) :
  In (btn, bit) tracked ->
  directionsOf coord btn (expectedEvents coord x y new old)
  = if Z.testbit new bit && negb (Z.testbit old bit) then [DirPress]
    else if negb (Z.testbit new bit) && Z.testbit old bit then [DirRelease]
         else [].
Proof.
  intros Hin.
  unfold expectedEvents, transitions, tracked, transition in *.
  cbn [flat_map].
  destruct Hin as [H | [H | [H | [H | [H | []]]]]]; injection H as <- <-;
    destruct (Z.testbit new 0), (Z.testbit old 0),
      (Z.testbit new 1), (Z.testbit old 1),
      (Z.testbit new 2), (Z.testbit old 2),
      (Z.testbit new 3), (Z.testbit old 3),
      (Z.testbit new 4), (Z.testbit old 4); reflexivity.
Qed.

(** X15. Whatever records arrive from the mouse, parsed or not, the events
    of each of the five buttons alternate: a press is sent only for a button
    that is up and a release only for a button that is down, beginning with
    the state the stored mask gives; after the records the state of the
    button is its bit of the stored mask. *)
Theorem button_events_alternate (coord : Type)
  (records : list (moveRecord coord)) (prevmask : Z) (btn : Button)
  (bit : Z) :
  In (btn, bit) tracked ->
  alternates (Z.testbit prevmask bit)
    (directionsOf coord btn (handleMoves coord records prevmask))
  = Some (Z.testbit (maskAfter coord records prevmask) bit).
Proof.
  intros Hin. revert prevmask.
  induction records as [|m records IH]; intros prevmask; [reflexivity|].
  cbn [handleMoves maskAfter].
  destruct (handleMove coord m prevmask) as [events prevmask'] eqn:Hm.
  cbn [snd]. rewrite directionsOf_app, alternates_app.
  assert (Hstep : alternates (Z.testbit prevmask bit)
                    (directionsOf coord btn events)
                  = Some (Z.testbit prevmask' bit)).
  { unfold handleMove in Hm.
    destruct (parsedX coord m) as [x|], (parsedY coord m) as [y|],
      (parsedMask coord m) as [buttons|];
      try (injection Hm as <- <-; reflexivity).
    rewrite buttonEvents_expected in Hm. injection Hm as <- <-.
    rewrite (expectedEvents_of_button coord x y buttons prevmask btn bit Hin).
    destruct (Z.testbit buttons bit), (Z.testbit prevmask bit); reflexivity. }
  rewrite Hstep. apply IH.
Qed.

Lemma button_events_alternate_witness :
  let records :=
    [MkMove (Some tt) (Some tt) (Some 1); MkMove (Some tt) None (Some 0);
     MkMove (Some tt) (Some tt) (Some 3); MkMove (Some tt) (Some tt) (Some 2)] in
  alternates false (directionsOf unit ButtonLeft (handleMoves unit records 0))
  = Some false.
Proof.
  intros records.
  apply (button_events_alternate unit records 0 ButtonLeft 0).
  left. reflexivity.
Defined.

(** X16. Only the five low bits of the button masks are looked at: the
    events sent for a record are those sent for its mask and the stored
    mask cut to five bits. *)
Theorem untracked_bits_send_nothing (coord : Type) (x y : coord)
  (buttons prevmask : Z) :
  fst (handleMove coord (MkMove (Some x) (Some y) (Some buttons)) prevmask)
  = fst (handleMove coord
           (MkMove (Some x) (Some y) (Some (Z.land buttons 31)))
           (Z.land prevmask 31)).
Proof.
  cbn [handleMove parsedX parsedY parsedMask].
  rewrite !buttonEvents_expected. cbn [fst].
  unfold expectedEvents, transitions, tracked, transition. cbn [flat_map].
  rewrite !Z.land_spec.
  change (Z.testbit 31 0) with true. change (Z.testbit 31 1) with true.
  change (Z.testbit 31 2) with true. change (Z.testbit 31 3) with true.
  change (Z.testbit 31 4) with true. rewrite !andb_true_r. reflexivity.
Qed.

End Mouse.

(* ================================================================== *)
(** * Go's [float64] *)
(* ================================================================== *)

Module Float64.

(** IEEE 754 binary64, by the Standard Library's specification of
    floating-point arithmetic: 53 bits of precision, infinities at exponent
    1024, round to nearest even. *)
Definition float64 : Type := spec_float.

Definition prec : Z := 53.
Definition emax : Z := 1024.

Definition mul (x y : float64) : float64 := SFmul prec emax x y.
Definition add (x y : float64) : float64 := SFadd prec emax x y.

(** [x == y] on floats. *)
Definition eqb (x y : float64) : bool := SFeqb x y.

(** The constants [1] and [0] as [float64]. *)
Definition one : float64 := S754_finite false 4503599627370496 (-52).
Definition zero : float64 := S754_zero false.

(** [float64(n)] for an [int] [n]: the nearest binary64. *)
Definition ofInt (n : Z) : float64 := binary_normalize prec emax n 0 false.

(** [int(f)]: the fraction is discarded (truncation towards zero).  Where
    the value does not fit an [int] (or is NaN or an infinity) Go leaves the
    result to the implementation; the value stored by amd64 is used. *)
Definition minInt : Z := -9223372036854775808.
Definition maxInt : Z := 9223372036854775807.

Definition toInt (f : float64) : Z :=
  match f with
  | S754_zero _ => 0
  | S754_finite s m e =>
      let magnitude :=
        if 0 <=? e then Z.pos m * 2 ^ e else Z.pos m / 2 ^ (- e) in
      let v := if s then - magnitude else magnitude in
      if (minInt <=? v) && (v <=? maxInt) then v else minInt
  | _ => minInt
  end.

(** ** Exact cases of the arithmetic *)

(** The specification of floats is written with the integer operations of
    the core library; they are the Standard Library's, up to their names. *)
Ltac binint :=
  change IntDef.Z.sub with Z.sub in *;
  change IntDef.Z.add with Z.add in *;
  change IntDef.Z.opp with Z.opp in *;
  change IntDef.Z.max with Z.max in *;
  change IntDef.Z.min with Z.min in *;
  change IntDef.Z.leb with Z.leb in *;
  change IntDef.Z.eqb with Z.eqb in *;
  change PosDef.Pos.mul with Pos.mul in *;
  change (@PosDef.Pos.iter) with (@Pos.iter) in *.

Lemma digits2_size (p : positive) : digits2_pos p = Pos.size p.
Proof. induction p as [p IH | p IH |]; cbn; now rewrite ?IH. Qed.

Lemma size_iter_xO (p d : positive) :
  Z.pos (Pos.size (Pos.iter xO p d)) = Z.pos (Pos.size p) + Z.pos d.
Proof.
  induction d as [|d IH] using Pos.peano_ind.
  - cbn. lia.
  - rewrite Pos.iter_succ. cbn [Pos.size]. lia.
Qed.

Lemma iter_xO_mul (p d : positive) :
  Z.pos (Pos.iter xO p d) = Z.pos p * 2 ^ Z.pos d.
Proof.
  induction d as [|d IH] using Pos.peano_ind.
  - cbn. lia.
  - rewrite Pos.iter_succ, Pos2Z.inj_xO, IH, Pos2Z.inj_succ, Z.pow_succ_r by lia. lia.
Qed.

(** A mantissa and exponent in canonical form, within binary64. *)
Definition canonical (m : positive) (e : Z) : Prop :=
  Z.max (Z.pos (Pos.size m) + e - 53) (-1074) = e /\ e <= 971.

Lemma canonical_bounded (m : positive) (e : Z) :
  canonical m e -> bounded prec emax m e = true.
Proof.
  intros [Hc He]. unfold bounded, canonical_mantissa, fexp, SpecFloat.emin, prec, emax.
  binint. rewrite digits2_size.
  apply andb_true_iff. split; [apply Z.eqb_eq | apply Z.leb_le]; lia.
Qed.

Lemma binary_round_aux_canonical (s : bool) (m : positive) (e : Z) :
  canonical m e ->
  binary_round_aux prec emax s (Z.pos m) e loc_Exact = S754_finite s m e.
Proof.
  intros [Hc He].
  unfold binary_round_aux, shr_fexp, fexp, SpecFloat.emin, prec, emax.
  cbn [Zdigits2 shr_record_of_loc]. binint. rewrite digits2_size.
  replace (Z.max (Z.pos (Pos.size m) + e - 53) (3 - 1024 - 53) - e) with 0 by lia.
  cbn [shr shr_m loc_of_shr_record round_nearest_even Zdigits2 shr_record_of_loc].
  rewrite digits2_size.
  replace (Z.max (Z.pos (Pos.size m) + e - 53) (3 - 1024 - 53) - e) with 0 by lia.
  cbn [shr shr_m].
  replace (e <=? 1024 - 53) with true by (symmetry; apply Z.leb_le; lia).
  reflexivity.
Qed.

Lemma size_bound (p : positive) :
  Z.pos p < 9007199254740992 -> Z.pos (Pos.size p) <= 53.
Proof.
  intros H. pose proof (Pos.size_le p) as Hle.
  apply Pos2Z.pos_le_pos in Hle.
  rewrite Pos2Z.inj_pow, (Pos2Z.inj_xO p) in Hle.
  destruct (Z.le_gt_cases (Z.pos (Pos.size p)) 53) as [|Hgt]; [assumption|].
  exfalso.
  assert (H54 : 2 ^ 54 <= 2 ^ Z.pos (Pos.size p))
    by (apply Z.pow_le_mono_r; lia).
  change (2 ^ 54) with 18014398509481984 in H54. lia.
Qed.

Lemma binary_round_int (s : bool) (p : positive) :
  Z.pos p < 9007199254740992 ->
  exists m e,
    binary_round prec emax s p 0 = S754_finite s m e /\
    canonical m e /\ e <= 0 /\ Z.pos m = Z.pos p * 2 ^ (- e).
Proof.
  intros Hp. pose proof (size_bound p Hp) as Hsize.
  unfold binary_round, shl_align, fexp, SpecFloat.emin, prec, emax.
  binint. rewrite digits2_size, Z.add_0_r, Z.sub_0_r.
  replace (Z.max (Z.pos (Pos.size p) - 53) (3 - 1024 - 53))
    with (Z.pos (Pos.size p) - 53) by lia.
  destruct (Z.pos (Pos.size p) - 53) as [|d|d] eqn:Hd; try lia.
  - assert (Hc : canonical p 0) by (unfold canonical; lia).
    exists p, 0. split; [|split; [|split]].
    + apply (binary_round_aux_canonical s p 0 Hc).
    + exact Hc.
    + lia.
    + cbn. lia.
  - assert (Hc : canonical (Pos.iter xO p d) (Z.neg d)).
    { unfold canonical. rewrite size_iter_xO. lia. }
    exists (Pos.iter xO p d), (Z.neg d). split; [|split; [|split]].
    + apply (binary_round_aux_canonical s _ _ Hc).
    + exact Hc.
    + lia.
    + rewrite iter_xO_mul. reflexivity.
Qed.

Lemma mul_one (s : bool) (m : positive) (e : Z) :
  canonical m e ->
  mul (S754_finite s m e) one = S754_finite s m e.
Proof.
  intros [Hc He]. unfold mul, one, SFmul.
  rewrite xorb_false_r. binint.
  rewrite Pos.mul_comm.
  change (4503599627370496 * m)%positive with (Pos.iter xO m 52).
  unfold binary_round_aux, shr_fexp, fexp, SpecFloat.emin, prec, emax.
  cbn [Zdigits2 shr_record_of_loc]. binint.
  rewrite digits2_size, size_iter_xO.
  replace (Z.max (Z.pos (Pos.size m) + 52 + (e + -52) - 53) (3 - 1024 - 53)
           - (e + -52)) with 52 by lia.
  assert (Hshr : iter_pos shr_1 52
                   {| shr_m := Z.pos (Pos.iter xO m 52);
                      shr_r := false; shr_s := false |}
                 = {| shr_m := Z.pos m; shr_r := false; shr_s := false |})
    by reflexivity.
  unfold shr at 1. rewrite Hshr.
  cbn [shr_m loc_of_shr_record round_nearest_even Zdigits2].
  rewrite digits2_size.
  replace (e + -52 + 52) with e by lia.
  replace (Z.max (Z.pos (Pos.size m) + e - 53) (3 - 1024 - 53) - e) with 0 by lia.
  cbn [shr shr_m].
  replace (e <=? 1024 - 53) with true by (symmetry; apply Z.leb_le; lia).
  reflexivity.
Qed.

(** [float64(n)] for an [n] of less than 54 bits: zero, or a canonical
    float of the sign and the magnitude of [n]. *)
Lemma ofInt_exact (n : Z) :
  - 9007199254740992 < n < 9007199254740992 ->
  (n = 0 /\ ofInt n = S754_zero false) \/
  (exists m e, ofInt n = S754_finite (n <? 0) m e /\ canonical m e /\
               e <= 0 /\ Z.pos m = Z.abs n * 2 ^ (- e)).
Proof.
  intros Hn. destruct n as [|p|p].
  - left. split; reflexivity.
  - right. unfold ofInt. cbn [binary_normalize].
    destruct (binary_round_int false p ltac:(lia)) as (m & e & H1 & H2 & H3 & H4).
    exists m, e. split; [exact H1|]. split; [exact H2|].
    split; [exact H3 | exact H4].
  - right. unfold ofInt. cbn [binary_normalize].
    destruct (binary_round_int true p ltac:(lia)) as (m & e & H1 & H2 & H3 & H4).
    exists m, e. split; [exact H1|]. split; [exact H2|].
    split; [exact H3 | exact H4].
Qed.

Lemma toInt_exact (n : Z) (m : positive) (e : Z) :
  - 9007199254740992 < n < 9007199254740992 -> n <> 0 ->
  e <= 0 -> Z.pos m = Z.abs n * 2 ^ (- e) ->
  toInt (S754_finite (n <? 0) m e) = n.
Proof.
  intros Hn Hn0 He Hm. unfold toInt.
  assert (Hmag : (if 0 <=? e then Z.pos m * 2 ^ e else Z.pos m / 2 ^ (- e))
                 = Z.abs n).
  { destruct (0 <=? e) eqn:E.
    - apply Z.leb_le in E. replace e with 0 in * by lia.
      cbn in Hm. cbn [Z.pow]. lia.
    - rewrite Hm. apply Z.div_mul.
      apply Z.pow_nonzero; lia. }
  rewrite Hmag.
  assert (Hv : (if n <? 0 then - Z.abs n else Z.abs n) = n).
  { destruct (n <? 0) eqn:E; [apply Z.ltb_lt in E | apply Z.ltb_ge in E]; lia. }
  rewrite Hv. unfold minInt, maxInt.
  replace (-9223372036854775808 <=? n) with true by (symmetry; apply Z.leb_le; lia).
  replace (n <=? 9223372036854775807) with true by (symmetry; apply Z.leb_le; lia).
  reflexivity.
Qed.

(** Through the identity matrix a coordinate of less than 54 bits comes
    back as it is: [int(float64(x)*1 + float64(y)*0 + 0) = x]. *)
Lemma identity_row1 (x y : Z) :
  - 9007199254740992 < x < 9007199254740992 ->
  - 9007199254740992 < y < 9007199254740992 ->
  toInt (add (add (mul (ofInt x) one) (mul (ofInt y) zero)) zero) = x.
Proof.
  intros Hx Hy.
  assert (Hy0 : exists s, mul (ofInt y) zero = S754_zero s).
  { destruct (ofInt_exact y Hy) as [[-> ->] | (m & e & -> & _)].
    - exists false. reflexivity.
    - eexists. reflexivity. }
  destruct Hy0 as (sy & ->).
  destruct (ofInt_exact x Hx) as [[-> ->] | (m & e & -> & Hc & He & Hm)].
  - destruct sy; reflexivity.
  - rewrite (mul_one _ m e Hc).
    change (add (S754_finite (x <? 0) m e) (S754_zero sy))
      with (S754_finite (x <? 0) m e).
    change (add (S754_finite (x <? 0) m e) zero)
      with (S754_finite (x <? 0) m e).
    apply toInt_exact; try assumption.
    intros ->. cbn in Hm. lia.
Qed.

Lemma identity_row2 (x y : Z) :
  - 9007199254740992 < x < 9007199254740992 ->
  - 9007199254740992 < y < 9007199254740992 ->
  toInt (add (add (mul (ofInt x) zero) (mul (ofInt y) one)) zero) = y.
Proof.
  intros Hx Hy.
  assert (Hx0 : exists s, mul (ofInt x) zero = S754_zero s).
  { destruct (ofInt_exact x Hx) as [[-> ->] | (m & e & -> & _)].
    - exists false. reflexivity.
    - eexists. reflexivity. }
  destruct Hx0 as (sx & ->).
  destruct (ofInt_exact y Hy) as [[-> ->] | (m & e & -> & Hc & He & Hm)].
  - destruct sx; reflexivity.
  - rewrite (mul_one _ m e Hc).
    change (add (S754_zero sx) (S754_finite (y <? 0) m e))
      with (S754_finite (y <? 0) m e).
    change (add (S754_finite (y <? 0) m e) zero)
      with (S754_finite (y <? 0) m e).
    apply toInt_exact; try assumption.
    intros ->. cbn in Hm. lia.
Qed.

End Float64.

(* ================================================================== *)
(** * uploadimpl.go: the blit engine *)
(* ================================================================== *)

Module Blit.
Import Go Image DrawCtl Float64.
Local Open Scope drv_scope.

(** [f64.Aff3], a [[6]float64]: the matrix
    [src2dst[0] src2dst[1] src2dst[2] / src2dst[3] src2dst[4] src2dst[5]]. *)
Record Aff3 : Type := MkAff3 {
  a0 : float64; a1 : float64; a2 : float64;
  a3 : float64; a4 : float64; a5 : float64
}.

(** The closure [mapPoint] of [affineTransform]. *)
Definition mapPoint (src2dst : Aff3) (p : Point) : Point :=
  let xf := ofInt (X p) in
  let yf := ofInt (Y p) in
  Pt (toInt (add (add (mul xf (a0 src2dst)) (mul yf (a1 src2dst)))
               (a2 src2dst)))
     (toInt (add (add (mul xf (a3 src2dst)) (mul yf (a4 src2dst)))
               (a5 src2dst))).

(** The closure [updateMinMax] of [affineTransform], on the two variables
    [min] and [max] it assigns to. *)
Definition updateMinMax (p : Point) (mm : Point * Point) : Point * Point :=
  let '(min, max) := mm in
  let min := if X p <? X min then Pt (X p) (Y min) else min in
  let min := if Y p <? Y min then Pt (X min) (Y p) else min in
  let max := if X p >? X max then Pt (X p) (Y max) else max in
  let max := if Y p >? Y max then Pt (X max) (Y p) else max in
  (min, max).

(** [func affineTransform(src2dst f64.Aff3, sr image.Rectangle)
    image.Rectangle] *)
Definition affineTransform (src2dst : Aff3) (sr : Rectangle) : Rectangle :=
  let topLeft := mapPoint src2dst (Min sr) in
  let mm := (topLeft, topLeft) in
  let mm := updateMinMax (mapPoint src2dst (Pt (X (Max sr)) (Y (Min sr)))) mm in
  let mm := updateMinMax (mapPoint src2dst (Pt (X (Min sr)) (Y (Max sr)))) mm in
  let mm := updateMinMax (mapPoint src2dst (Pt (X (Max sr)) (Y (Max sr)))) mm in
  Rect (fst mm) (snd mm).

(** The identity matrix: rows 1,0,0 and 0,1,0. *)
Definition identity : Aff3 := MkAff3 one zero zero zero one zero.

(** [type uploadImpl struct]: what a window and a texture both embed; [ctl]
    is the controller the methods run on. *)
Record uploadImpl : Type := MkUpload { imageId : Z; resources : list Z }.

Section Draw.

(** The resampling of the general path: [image.NewRGBA(sr)] around the
    pixels read back, [image.NewRGBA(newRectangle)] and
    [xdraw.NearestNeighbor.Transform(transformedImage, src2dst, srcImage, sr,
    op, nil)], from the matrix, the source rectangle, the pixels read back,
    the destination rectangle and the op to the pixels of
    [transformedImage], or to a panic of these library calls.  They are code
    of the Go image packages, not of this repository. *)
Variable Transform :
  Aff3 -> Rectangle -> list Z -> Rectangle -> Op -> result (list Z).

(** [func (w *windowImpl) Draw(src2dst f64.Aff3, src screen.Texture, sr
    image.Rectangle, op draw.Op, opts *screen.DrawOptions)], with [src]
    already the [*textureImpl] it is asserted to be. *)
Definition windowDraw (w : uploadImpl) (src2dst : Aff3) (src : uploadImpl)
  (sr : Rectangle) (op : Op) : M unit :=
  if eqb (a0 src2dst) one && eqb (a1 src2dst) zero
     && eqb (a3 src2dst) zero && eqb (a4 src2dst) one
  then
    let srSize := Size sr in
    let newRectangle :=
      Rect (Pt (toInt (a2 src2dst)) (toInt (a5 src2dst)))
        (Pt (toInt (a2 src2dst) + X srSize) (toInt (a5 src2dst) + Y srSize)) in
    Draw (imageId w) (imageId src) (imageId src) newRectangle (Min sr) ZP op
  else
    pixels <- ReadSubimage (imageId src) sr ;;
    let newRectangle := affineTransform src2dst sr in
    transformedPix <- lift (Transform src2dst sr pixels newRectangle op) ;;
    let newOriginRectangle := Rect ZP (Size newRectangle) in
    id <- AllocBuffer 0 false newOriginRectangle newOriginRectangle
            (RGBA 0 0 0 0) ;;
    ReplaceSubimage id newOriginRectangle transformedPix ;;;
    Draw (imageId w) id id newRectangle ZP ZP op ;;;
    FreeID id.

End Draw.

(** Through the identity matrix a point comes back as it is. *)
Lemma mapPoint_identity (p : Point) :
  - 9007199254740992 < X p < 9007199254740992 ->
  - 9007199254740992 < Y p < 9007199254740992 ->
  mapPoint identity p = p.
Proof.
  intros Hx Hy. destruct p as [x y]. unfold mapPoint, identity.
  cbn [X Y a0 a1 a2 a3 a4 a5] in *.
  rewrite identity_row1, identity_row2 by assumption. reflexivity.
Qed.

(** ** Results on [affineTransform] *)

(** [updateMinMax] keeps the component-wise minimum and maximum. *)
Lemma updateMinMax_bounds (p min max : Point) :
  updateMinMax p (min, max)
  = (Pt (Z.min (X p) (X min)) (Z.min (Y p) (Y min)),
     Pt (Z.max (X p) (X max)) (Z.max (Y p) (Y max))).
Proof.
  destruct p as [px py], min as [nx ny], max as [mx my].
  unfold updateMinMax. cbn [X Y]. rewrite !Z.gtb_ltb.
  destruct (Z.ltb_spec px nx); cbn [X Y];
    destruct (Z.ltb_spec py ny); cbn [X Y];
    destruct (Z.ltb_spec mx px); cbn [X Y];
    destruct (Z.ltb_spec my py); cbn [X Y];
    f_equal; f_equal; lia.
Qed.

(** C8, as the code has it.  For every well-formed rectangle (Min.X <= Max.X
    and Min.Y <= Max.Y) whose coordinates are less than 2^53 in absolute
    value, [affineTransform] with the identity matrix returns the rectangle
    unchanged. *)
Theorem affineTransform_identity (sr : Rectangle) :
  X (Min sr) <= X (Max sr) -> Y (Min sr) <= Y (Max sr) ->
  - 9007199254740992 < X (Min sr) -> X (Max sr) < 9007199254740992 ->
  - 9007199254740992 < Y (Min sr) -> Y (Max sr) < 9007199254740992 ->
  affineTransform identity sr = sr.
Proof.
  intros HX HY Hx0 Hx1 Hy0 Hy1.
  destruct sr as [[x0 y0] [x1 y1]]. cbn [Min Max X Y] in *.
  unfold affineTransform. cbn [Min Max X Y].
  rewrite !mapPoint_identity by (cbn [X Y]; lia).
  rewrite !updateMinMax_bounds. cbn [X Y fst snd].
  f_equal; f_equal; lia.
Qed.

Lemma affineTransform_identity_witness :
  affineTransform identity (Rect (Pt (-3) 4) (Pt 640 480))
  = Rect (Pt (-3) 4) (Pt 640 480).
Proof.
  apply (affineTransform_identity (Rect (Pt (-3) 4) (Pt 640 480)));
    cbn; lia.
Defined.

(** C8 as stated fails: a rectangle whose Min is not below its Max (the type
    [image.Rectangle] has such values) comes back as the bounding rectangle
    of its corners, with the corners exchanged. *)
Lemma affineTransform_identity_swaps_corners :
  affineTransform identity (Rect (Pt 5 7) (Pt 0 0)) = Rect (Pt 0 0) (Pt 5 7).
Proof. vm_compute. reflexivity. Qed.

(** And a coordinate of more than 53 bits is rounded by [float64(p.X)]:
    2^53 + 1 comes back as 2^53. *)
Example affineTransform_identity_rounds :
  affineTransform identity (Rect (Pt 0 0) (Pt 9007199254740993 1))
  = Rect (Pt 0 0) (Pt 9007199254740992 1).
Proof. vm_compute. reflexivity. Qed.

(** ** Results on [windowImpl.Draw] *)

Lemma eqb_one : eqb one one = true.
Proof. reflexivity. Qed.

Lemma eqb_zero (s : bool) : eqb (S754_zero s) zero = true.
Proof. destruct s; reflexivity. Qed.

(** The bytes [Draw] writes: the 'O' message and the 'd' message. *)
Lemma Draw_run (dstid srcid maskid : Z) (r : Rectangle) (srcp maskp : Point)
  (op : Op) (d : DrawCtrler) :
  Draw dstid srcid maskid r srcp maskp op d
  = (Ok tt,
     appendWritten d
       [[tag "O"; match op with Src => 10 | Over => 11 end];
        tag "d" ::
          le32 dstid ++ le32 srcid ++ le32 maskid ++
          le32 (uint32 (X (Min r))) ++ le32 (uint32 (Y (Min r))) ++
          le32 (uint32 (X (Max r))) ++ le32 (uint32 (Y (Max r))) ++
          le32 (uint32 (X srcp)) ++ le32 (uint32 (Y srcp)) ++
          le32 (uint32 (X maskp)) ++ le32 (uint32 (Y maskp))]).
Proof.
  unfold Draw, bindM, setOp, sendMessage, appendWritten.
  cbn [written N iounitSize nextId device reads].
  rewrite <- app_assoc. destruct op; reflexivity.
Qed.

(** The rectangle [sr] moved by the vector [t], by integer additions. *)
Definition translated (sr : Rectangle) (t : Point) : Rectangle :=
  Rect (Pt (X (Min sr) + X t) (Y (Min sr) + Y t))
       (Pt (X (Max sr) + X t) (Y (Max sr) + Y t)).

(** C7. On the fast path the destination is not the source rectangle
    translated.  For every matrix whose four linear coefficients are exactly
    1, 0 / 0, 1, [windowImpl.Draw] is one call of the controller's [Draw],
    with the texture's id as source and mask and [sr.Min] as source point;
    it writes the set-op message and one 'd' message, reads nothing and
    allocates no id.  But the destination rectangle of that call has its
    Min at the translation itself, truncated to integers, and the size of
    [sr]: [sr.Min] is left out of it.  It is [sr] moved by the translation
    exactly when [sr.Min] is the origin. *)
Theorem windowDraw_fast_path_drops_sr_Min
  (Transform : Aff3 -> Rectangle -> list Z -> Rectangle -> Op ->
               result (list Z))
  (w src : uploadImpl) (src2dst : Aff3) (sr : Rectangle) (op : Op)
  (d : DrawCtrler) :
  a0 src2dst = one -> (exists s, a1 src2dst = S754_zero s) ->
  (exists s, a3 src2dst = S754_zero s) -> a4 src2dst = one ->
  let t := Pt (toInt (a2 src2dst)) (toInt (a5 src2dst)) in
  let dst := Rect t (Pt (X t + X (Size sr)) (Y t + Y (Size sr))) in
  let run := windowDraw Transform w src2dst src sr op d in
  run = Draw (imageId w) (imageId src) (imageId src) dst (Min sr) ZP op d /\
  (dst = translated sr t <-> Min sr = ZP) /\
  fst run = Ok tt /\
  written (snd run)
  = written d ++
    [[tag "O"; match op with Src => 10 | Over => 11 end];
     tag "d" ::
       le32 (imageId w) ++ le32 (imageId src) ++ le32 (imageId src) ++
       le32 (uint32 (X t)) ++ le32 (uint32 (Y t)) ++
       le32 (uint32 (X t + X (Size sr))) ++
       le32 (uint32 (Y t + Y (Size sr))) ++
       le32 (uint32 (X (Min sr))) ++ le32 (uint32 (Y (Min sr))) ++
       [0; 0; 0; 0] ++ [0; 0; 0; 0]] /\
  reads (snd run) = reads d /\ nextId (snd run) = nextId d.
Proof.
  intros H0 [s1 H1] [s3 H3] H4 t dst run.
  assert (Hrun : run = Draw (imageId w) (imageId src) (imageId src) dst
                         (Min sr) ZP op d).
  { unfold run, windowDraw.
    rewrite H0, H1, H3, H4, eqb_one, !eqb_zero. reflexivity. }
  split; [exact Hrun|]. split.
  { unfold dst, translated, Size, ZP.
    destruct sr as [[x0 y0] [x1 y1]]. cbn [Min Max X Y]. split.
    - intros H. injection H as Hx Hy _ _. f_equal; lia.
    - intros H. injection H as -> ->. f_equal; f_equal; lia. }
  rewrite Hrun, Draw_run. cbn [fst snd appendWritten written reads nextId].
  repeat split.
Qed.

(** The translation by (10, 20) and the source rectangle (2,3)-(6,8).  The
    one 'd' message names the destination (10,20)-(14,25), which is not the
    source rectangle translated, (12,23)-(16,28); the latter is what
    [affineTransform], by which the general path of the same method finds
    its destination, gives for this matrix and rectangle. *)
Lemma windowDraw_fast_path_drops_sr_Min_witness :
  let src2dst := MkAff3 one zero (ofInt 10) (S754_zero true) one (ofInt 20) in
  let sr := Rect (Pt 2 3) (Pt 6 8) in
  let d := NewDrawCtrler 1 65535 (fun _ => Reply [] false) in
  let run := windowDraw (fun _ _ pixels _ _ => Ok pixels) (MkUpload 3 [])
               src2dst (MkUpload 4 []) sr Over d in
  run = Draw 3 4 4 (Rect (Pt 10 20) (Pt 14 25)) (Pt 2 3) ZP Over d /\
  Rect (Pt 10 20) (Pt 14 25) <> translated sr (Pt 10 20) /\
  translated sr (Pt 10 20) = Rect (Pt 12 23) (Pt 16 28) /\
  affineTransform src2dst sr = Rect (Pt 12 23) (Pt 16 28) /\
  fst run = Ok tt /\ reads (snd run) = O.
Proof.
  intros src2dst sr d run.
  destruct (windowDraw_fast_path_drops_sr_Min (fun _ _ pixels _ _ => Ok pixels)
              (MkUpload 3 []) (MkUpload 4 []) src2dst sr Over d)
    as (Hrun & Hmoved & Hok & _ & Hreads & _).
  - reflexivity.
  - exists false. reflexivity.
  - exists true. reflexivity.
  - reflexivity.
  - split; [exact Hrun|]. split.
    { intros H. apply Hmoved in H. discriminate H. }
    split; [reflexivity|]. split; [vm_compute; reflexivity|].
    split; [exact Hok | exact Hreads].
Defined.

(** A coefficient next to 1 is not 1: with [src2dst[0]] the float after 1
    the general path is taken, which begins by reading the pixels back. *)
Example windowDraw_near_identity_reads_back :
  let src2dst :=
    MkAff3 (S754_finite false 4503599627370497 (-52)) zero zero zero one zero in
  let d := NewDrawCtrler 1 65535 (fun _ => Reply [] false) in
  let run := windowDraw (fun _ _ pixels _ _ => Ok pixels) (MkUpload 3 [])
               src2dst (MkUpload 4 []) (Rect (Pt 0 0) (Pt 2 2)) Over d in
  map (fun msg => nth 0 msg 0) (written (snd run))
  = [tag "r"; tag "b"; tag "y"; tag "O"; tag "d"; tag "f"] /\
  reads (snd run) = 1%nat.
Proof. vm_compute. split; reflexivity. Qed.

(** ** The bounding box, for every matrix *)

(** The four corners of a rectangle, in the order [affineTransform] maps
    them. *)
Definition corners (sr : Rectangle) : list Point :=
  [Min sr; Pt (X (Max sr)) (Y (Min sr)); Pt (X (Min sr)) (Y (Max sr));
   Pt (X (Max sr)) (Y (Max sr))].

(** X17. For every matrix and every rectangle [affineTransform] returns the
    bounding box of the four mapped corners: a rectangle with
    [Min.X <= Max.X] and [Min.Y <= Max.Y] that contains the four points, and
    each of whose four coordinates is that of one of them. *)
Theorem affineTransform_bounds_the_mapped_corners (src2dst : Aff3)
  (sr : Rectangle) :
  let mapped := map (mapPoint src2dst) (corners sr) in
  let box := affineTransform src2dst sr in
  X (Min box) <= X (Max box) /\ Y (Min box) <= Y (Max box) /\
  Forall (fun p => X (Min box) <= X p <= X (Max box) /\
                   Y (Min box) <= Y p <= Y (Max box)) mapped /\
  In (X (Min box)) (map X mapped) /\ In (X (Max box)) (map X mapped) /\
  In (Y (Min box)) (map Y mapped) /\ In (Y (Max box)) (map Y mapped).
Proof.
  intros mapped box. unfold box, affineTransform, mapped, corners.
  cbn [map].
  set (p0 := mapPoint src2dst (Min sr)).
  set (p1 := mapPoint src2dst (Pt (X (Max sr)) (Y (Min sr)))).
  set (p2 := mapPoint src2dst (Pt (X (Min sr)) (Y (Max sr)))).
  set (p3 := mapPoint src2dst (Pt (X (Max sr)) (Y (Max sr)))).
  rewrite !updateMinMax_bounds. cbn [fst snd Min Max X Y].
  repeat split; try lia.
  - repeat constructor; lia.
  - cbn [In]. lia.
  - cbn [In]. lia.
  - cbn [In]. lia.
  - cbn [In]. lia.
Qed.

(** ** The images a method allocates and frees *)

(** [func (u *uploadImpl) Release()] *)
Fixpoint freeAll (ids : list Z) : M unit :=
  match ids with
  | [] => ret tt
  | id :: ids' => FreeID id ;;; freeAll ids'
  end.

Definition Release (u : uploadImpl) : M unit :=
  freeAll (resources u) ;;; FreeID (imageId u).

(** [color.Black], through its method [RGBA()]. *)
Definition Black : Color := RGBA 0 0 0 65535.

(** [func (u *uploadImpl) Fill(dr image.Rectangle, src color.Color, op
    draw.Op)].  The two deferred [FreeID] calls run when the method returns,
    the one deferred last first. *)
Definition Fill (u : uploadImpl) (dr : Rectangle) (src : Color) (op : Op)
  : M unit :=
  let rect := Rect ZP (Size dr) in
  fillID <- AllocBuffer 0 true (Rect (Pt 0 0) (Pt 1 1)) rect src ;;
  maskID <- AllocBuffer 0 true (Rect ZP (Pt 1 1)) rect Black ;;
  Draw (imageId u) fillID maskID dr ZP ZP op ;;;
  FreeID fillID ;;;
  FreeID maskID.

(** [func newUploadImpl(s *screenImpl, size image.Rectangle, c color.Color)
    *uploadImpl] *)
Definition newUploadImpl (size : Rectangle) (c : Color) : M uploadImpl :=
  imageId <- AllocBuffer 0 false size size c ;;
  ret (MkUpload imageId []).

(** [func (w *windowImpl) DrawUniform(src2dst f64.Aff3, src color.Color, sr
    image.Rectangle, op draw.Op, opts *screen.DrawOptions)] *)
Definition DrawUniform (w : uploadImpl) (src2dst : Aff3) (src : Color)
  (sr : Rectangle) (op : Op) : M unit :=
  if eqb (a0 src2dst) one && eqb (a1 src2dst) zero
     && eqb (a3 src2dst) zero && eqb (a4 src2dst) one
  then
    let srSize := Size sr in
    let newRectangle :=
      Rect (Pt (toInt (a2 src2dst)) (toInt (a5 src2dst)))
        (Pt (toInt (a2 src2dst) + X srSize) (toInt (a5 src2dst) + Y srSize)) in
    colorID <- AllocBuffer 0 true newRectangle sr src ;;
    Draw (imageId w) colorID colorID newRectangle (Min sr) ZP op ;;;
    FreeID colorID
  else
    let newRectangle := affineTransform src2dst sr in
    colorID <- AllocBuffer 0 true newRectangle sr src ;;
    Draw (imageId w) colorID colorID newRectangle ZP ZP op ;;;
    FreeID colorID.

(** The command letters of a log. *)
Definition letters (log : list (list Z)) : list Z := map (hd 0) log.

Lemma Fill_run (u : uploadImpl) (dr : Rectangle) (src : Color) (op : Op)
  (d : DrawCtrler) :
  let rect := Rect ZP (Size dr) in
  let fillID := uint32 (nextId d + 1) in
  let maskID := uint32 (fillID + 1) in
  Fill u dr src op d
  = (Ok tt,
     MkCtrler (N d) (iounitSize d) maskID
       (written d ++
        [tag "b" :: allocMessage fillID 0 true (Rect (Pt 0 0) (Pt 1 1)) rect src;
         tag "b" :: allocMessage maskID 0 true (Rect ZP (Pt 1 1)) rect Black] ++
        drawMessages (imageId u) fillID maskID dr ZP ZP op ++
        [tag "f" :: putUint32 (repeat 0 4) 0 fillID;
         tag "f" :: putUint32 (repeat 0 4) 0 maskID])
       (device d) (reads d)).
Proof.
  intros rect fillID maskID. unfold Fill.
  unfold bindM at 1. rewrite AllocBuffer_run.
  unfold bindM at 1. rewrite AllocBuffer_run.
  unfold bindM at 1. rewrite Draw_run.
  unfold bindM at 1. rewrite !FreeID_run.
  unfold appendWritten. cbn [N iounitSize nextId written device reads].
  fold fillID. fold maskID. fold rect. unfold drawMessages.
  rewrite <- !app_assoc. reflexivity.
Qed.

(** X18. [Fill] always returns, after six messages: two allocations, the
    set-op and the draw message, and two frees.  It frees what it
    allocates: for every id the allocations less the frees in the log are
    what they were before the call.  Two ids are taken from the counter and
    nothing is read. *)
Theorem Fill_frees_what_it_allocates (u : uploadImpl) (dr : Rectangle)
  (src : Color) (op : Op) (d : DrawCtrler) :
  let run := Fill u dr src op d in
  fst run = Ok tt /\
  (exists msgs,
     written (snd run) = written d ++ msgs /\
     letters msgs
     = [tag "b"; tag "b"; tag "O"; tag "d"; tag "f"; tag "f"]) /\
  (forall id, balance id (written (snd run)) = balance id (written d)) /\
  nextId (snd run) = uint32 (uint32 (nextId d + 1) + 1) /\
  reads (snd run) = reads d.
Proof.
  intros run. unfold run. rewrite Fill_run.
  cbn [fst snd written nextId reads].
  split; [reflexivity|]. split; [|split; [|split; reflexivity]].
  - eexists. split; reflexivity.
  - intros id. rewrite !balance_app, balance_drawMessages.
    cbn [balance fold_right].
    rewrite !effect_alloc, !effect_free by apply uint32_range.
    repeat match goal with |- context [if ?c then _ else _] => destruct c end;
      lia.
Qed.

Lemma DrawUniform_run (w : uploadImpl) (src2dst : Aff3) (src : Color)
  (sr : Rectangle) (op : Op) (d : DrawCtrler) :
  let fast := eqb (a0 src2dst) one && eqb (a1 src2dst) zero
              && eqb (a3 src2dst) zero && eqb (a4 src2dst) one in
  let t := Pt (toInt (a2 src2dst)) (toInt (a5 src2dst)) in
  let newRectangle :=
    if fast then Rect t (Pt (X t + X (Size sr)) (Y t + Y (Size sr)))
    else affineTransform src2dst sr in
  let srcp := if fast then Min sr else ZP in
  let colorID := uint32 (nextId d + 1) in
  DrawUniform w src2dst src sr op d
  = (Ok tt,
     MkCtrler (N d) (iounitSize d) colorID
       (written d ++
        [tag "b" :: allocMessage colorID 0 true newRectangle sr src] ++
        drawMessages (imageId w) colorID colorID newRectangle srcp ZP op ++
        [tag "f" :: putUint32 (repeat 0 4) 0 colorID])
       (device d) (reads d)).
Proof.
  intros fast t newRectangle srcp colorID. unfold DrawUniform.
  fold fast. unfold newRectangle, srcp.
  destruct fast.
  - unfold bindM at 1. rewrite AllocBuffer_run.
    unfold bindM at 1. rewrite Draw_run, FreeID_run.
    unfold appendWritten. cbn [N iounitSize nextId written device reads].
    fold colorID. unfold drawMessages.
    rewrite <- !app_assoc. reflexivity.
  - unfold bindM at 1. rewrite AllocBuffer_run.
    unfold bindM at 1. rewrite Draw_run, FreeID_run.
    unfold appendWritten. cbn [N iounitSize nextId written device reads].
    fold colorID. unfold drawMessages.
    rewrite <- !app_assoc. reflexivity.
Qed.

(** X19. [DrawUniform] always returns, on both of its paths, after four
    messages: an allocation, the set-op and the draw message, and the free
    of the image allocated.  For every id the allocations less the frees are
    what they were; one id is taken from the counter and nothing is read. *)
Theorem DrawUniform_frees_what_it_allocates (w : uploadImpl)
  (src2dst : Aff3) (src : Color) (sr : Rectangle) (op : Op) (d : DrawCtrler) :
  let run := DrawUniform w src2dst src sr op d in
  fst run = Ok tt /\
  (exists msgs,
     written (snd run) = written d ++ msgs /\
     letters msgs = [tag "b"; tag "O"; tag "d"; tag "f"]) /\
  (forall id, balance id (written (snd run)) = balance id (written d)) /\
  nextId (snd run) = uint32 (nextId d + 1) /\
  reads (snd run) = reads d.
Proof.
  intros run. unfold run. rewrite DrawUniform_run.
  cbn [fst snd written nextId reads].
  split; [reflexivity|]. split; [|split; [|split; reflexivity]].
  - eexists. split; reflexivity.
  - intros id. rewrite !balance_app, balance_drawMessages.
    cbn [balance fold_right].
    rewrite !effect_alloc, !effect_free by apply uint32_range.
    destruct (_ =? id); lia.
Qed.

Lemma freeAll_run (ids : list Z) :
  forall d : DrawCtrler,
    freeAll ids d
    = (Ok tt,
       appendWritten d
         (map (fun id => tag "f" :: putUint32 (repeat 0 4) 0 id) ids)).
Proof.
  induction ids as [|id ids IH]; intros d; cbn [freeAll map].
  - unfold ret, appendWritten. rewrite app_nil_r. now destruct d.
  - unfold bindM. rewrite FreeID_run, IH.
    unfold appendWritten. cbn [N iounitSize nextId written device reads].
    now rewrite <- app_assoc.
Qed.

Lemma balance_frees (id : Z) (ids : list Z) :
  Forall isUint32 ids ->
  balance id (map (fun id => tag "f" :: putUint32 (repeat 0 4) 0 id) ids)
  = - Z.of_nat (count_occ Z.eq_dec ids id).
Proof.
  intros H. induction H as [|x ids Hx _ IH]; [reflexivity|].
  cbn [map balance fold_right count_occ].
  fold (balance id (map (fun id => tag "f" :: putUint32 (repeat 0 4) 0 id) ids)).
  rewrite IH, effect_free by exact Hx.
  destruct (Z.eq_dec x id) as [-> | Hne].
  - rewrite Z.eqb_refl. lia.
  - apply Z.eqb_neq in Hne. rewrite Hne. lia.
Qed.

(** X20. [Release] writes one 'f' message for each resource of the image, in
    their order, and then one for the image itself, and nothing else: for
    every id the allocations less the frees go down by the number of times
    the id is among them.  The id counter is not touched. *)
Theorem Release_frees_every_image_once (u : uploadImpl) (d : DrawCtrler) :
  Forall isUint32 (resources u) -> isUint32 (imageId u) ->
  let run := Release u d in
  fst run = Ok tt /\
  written (snd run)
  = written d ++
    map (fun id => tag "f" :: le32 id) (resources u ++ [imageId u]) /\
  (forall id,
     balance id (written (snd run))
     = balance id (written d)
       - Z.of_nat (count_occ Z.eq_dec (resources u ++ [imageId u]) id)) /\
  nextId (snd run) = nextId d.
Proof.
  intros Hres Himg run. unfold run, Release, bindM.
  rewrite freeAll_run, FreeID_run.
  cbn [fst snd appendWritten written nextId].
  split; [reflexivity|]. split; [|split; [|reflexivity]].
  - rewrite <- app_assoc, map_app. reflexivity.
  - intros id. rewrite <- app_assoc, balance_app.
    change [tag "f" :: putUint32 (repeat 0 4) 0 (imageId u)]
      with (map (fun id => tag "f" :: putUint32 (repeat 0 4) 0 id) [imageId u]).
    rewrite <- map_app, balance_frees; [lia|].
    apply Forall_app. split; [exact Hres | constructor; [exact Himg | constructor]].
Qed.

Lemma Release_frees_every_image_once_witness :
  let d := NewDrawCtrler 1 1000 (fun _ => Reply [] false) in
  written (snd (Release (MkUpload 5 [3; 4]) d))
  = [[tag "f"; 3; 0; 0; 0]; [tag "f"; 4; 0; 0; 0]; [tag "f"; 5; 0; 0; 0]].
Proof.
  intros d.
  destruct (Release_frees_every_image_once (MkUpload 5 [3; 4]) d)
    as (_ & H & _).
  - repeat constructor; cbn; lia.
  - unfold isUint32. cbn. lia.
  - exact H.
Defined.

(** ** The general path of [windowImpl.Draw] *)

Section GeneralPath.

Variable Transform :
  Aff3 -> Rectangle -> list Z -> Rectangle -> Op -> result (list Z).

(** The general path of [windowImpl.Draw], stage by stage. *)
Lemma windowDraw_general_run (w : uploadImpl) (src2dst : Aff3)
  (src : uploadImpl) (sr : Rectangle) (op : Op) (d : DrawCtrler) :
  eqb (a0 src2dst) one && eqb (a1 src2dst) zero
  && eqb (a3 src2dst) zero && eqb (a4 src2dst) one = false ->
  let newRectangle := affineTransform src2dst sr in
  let newOriginRectangle := Rect ZP (Size newRectangle) in
  windowDraw Transform w src2dst src sr op d
  = match ReadSubimage (imageId src) sr d with
    | (Ok pixels, d1) =>
        match Transform src2dst sr pixels newRectangle op with
        | Ok transformedPix =>
            let id := uint32 (nextId d1 + 1) in
            let d2 := snd (AllocBuffer 0 false newOriginRectangle
                             newOriginRectangle (RGBA 0 0 0 0) d1) in
            match ReplaceSubimage id newOriginRectangle transformedPix d2 with
            | (Ok _, d3) =>
                (Ok tt,
                 appendWritten d3
                   (drawMessages (imageId w) id id newRectangle ZP ZP op ++
                    [tag "f" :: putUint32 (repeat 0 4) 0 id]))
            | (Panic, d3) => (Panic, d3)
            | (OutOfFuel, d3) => (OutOfFuel, d3)
            end
        | Panic => (Panic, d1)
        | OutOfFuel => (OutOfFuel, d1)
        end
    | (Panic, d1) => (Panic, d1)
    | (OutOfFuel, d1) => (OutOfFuel, d1)
    end.
Proof.
  intros Hgeneral newRectangle newOriginRectangle.
  unfold windowDraw. rewrite Hgeneral.
  unfold bindM at 1.
  destruct (ReadSubimage (imageId src) sr d) as [[pixels | |] d1];
    try reflexivity.
  unfold bindM at 1, lift at 1. fold newRectangle.
  destruct (Transform src2dst sr pixels newRectangle op)
    as [transformedPix | |]; try reflexivity.
  unfold bindM at 1. fold newOriginRectangle. rewrite AllocBuffer_run.
  cbn [snd]. unfold bindM at 1.
  destruct (ReplaceSubimage _ _ _ _) as [[[] | |] d3]; try reflexivity.
  unfold bindM at 1. rewrite Draw_run, FreeID_run.
  unfold appendWritten, drawMessages.
  cbn [N iounitSize nextId written device reads].
  now rewrite <- app_assoc.
Qed.

(** X21. On the general path of [windowImpl.Draw] (the matrix is not a
    translation), when the method returns it has written, in this order: the
    read requests for the source rectangle, the allocation of one image with
    the size of the transformed rectangle and its corner at the origin, the
    upload messages, the set-op and the draw message with the new image as
    source and mask, and the free of the new image.  So for every id the
    allocations less the frees are what they were, and one id is taken from
    the counter. *)
Theorem windowDraw_frees_its_temporary_image (w : uploadImpl)
  (src2dst : Aff3) (src : uploadImpl) (sr : Rectangle) (op : Op)
  (d : DrawCtrler) :
  eqb (a0 src2dst) one && eqb (a1 src2dst) zero
  && eqb (a3 src2dst) zero && eqb (a4 src2dst) one = false ->
  let run := windowDraw Transform w src2dst src sr op d in
  fst run = Ok tt ->
  (forall id, balance id (written (snd run)) = balance id (written d)) /\
  nextId (snd run) = uint32 (nextId d + 1) /\
  exists requests uploads bounds,
    let id := uint32 (nextId d + 1) in
    written (snd run)
    = written d ++ requests ++
      [tag "b" :: allocMessage id 0 false bounds bounds (RGBA 0 0 0 0)] ++
      uploads ++
      drawMessages (imageId w) id id (affineTransform src2dst sr) ZP ZP op ++
      [tag "f" :: putUint32 (repeat 0 4) 0 id] /\
    Min bounds = ZP /\ Size bounds = Size (affineTransform src2dst sr) /\
    Forall (fun msg => hd 0 msg = tag "r") requests /\
    Forall (fun msg => hd 0 msg = tag "y" \/ hd 0 msg = tag "Y") uploads.
Proof.
  intros Hgeneral run. unfold run.
  rewrite (windowDraw_general_run w src2dst src sr op d Hgeneral). cbv zeta.
  pose proof (ReadSubimage_wrote (imageId src) sr d) as Hread.
  destruct (ReadSubimage (imageId src) sr d) as [[pixels | |] d1];
    try discriminate.
  destruct (Transform src2dst sr pixels (affineTransform src2dst sr) op)
    as [transformedPix | |]; try discriminate.
  set (bounds := Rect ZP (Size (affineTransform src2dst sr))).
  rewrite AllocBuffer_run. cbn [snd].
  set (id := uint32 (nextId d1 + 1)).
  set (d2 := MkCtrler _ _ _ _ _ _).
  pose proof (ReplaceSubimage_wroteOnly id bounds transformedPix d2) as Hup.
  destruct (ReplaceSubimage id bounds transformedPix d2) as [[[] | |] d3];
    try discriminate.
  intros _. cbn [fst snd appendWritten written nextId] in *.
  destruct Hread as (_ & _ & Hn1 & _ & requests & Hw1 & Hall1).
  destruct Hup as ((_ & _ & Hn3 & _ & uploads & Hw3 & Hall3) & _).
  cbn [written nextId d2] in Hw3, Hn3.
  assert (Hid : id = uint32 (nextId d + 1)) by (unfold id; now rewrite Hn1).
  split; [|split].
  - intros k. rewrite Hw3, Hw1, !balance_app, balance_drawMessages.
    rewrite (balance_others k [tag "r"] requests); try exact Hall1;
      [| intros [H | []]; discriminate | intros [H | []]; discriminate].
    rewrite (balance_others k [tag "y"; tag "Y"] uploads); try exact Hall3;
      [| intros [H | [H | []]]; discriminate
       | intros [H | [H | []]]; discriminate].
    cbn [balance fold_right].
    rewrite effect_alloc, effect_free by apply uint32_range.
    destruct (id =? k); lia.
  - rewrite Hn3. exact Hid.
  - exists requests, uploads, bounds. cbv zeta. rewrite <- Hid.
    split; [|split; [|split; [|split]]].
    + rewrite Hw3, Hw1, <- !app_assoc. reflexivity.
    + reflexivity.
    + unfold bounds, Size. cbn [Min Max X Y ZP]. f_equal; lia.
    + apply Forall_impl with (2 := Hall1).
      intros msg (rest & [H | []] & _). now symmetry.
    + apply Forall_impl with (2 := Hall3).
      intros msg (rest & [H | [H | []]] & _); [left | right]; now symmetry.
Qed.

End GeneralPath.

Lemma windowDraw_frees_its_temporary_image_witness :
  let blank := fun (_ : Aff3) (_ : Rectangle) (_ : list Z) (r : Rectangle)
                   (_ : Op) =>
                 Ok (repeat 0 (Z.to_nat (4 * X (Size r) * Y (Size r)))) in
  let twice := MkAff3 (ofInt 2) zero zero zero (ofInt 2) zero in
  let d := NewDrawCtrler 1 1000 (fun _ => Reply [] false) in
  let run := windowDraw blank (MkUpload 5 []) twice (MkUpload 6 [])
               (Rect (Pt 0 0) (Pt 2 2)) Over d in
  (forall id, balance id (written (snd run)) = 0) /\ nextId (snd run) = 3.
Proof.
  intros blank twice d run.
  destruct (windowDraw_frees_its_temporary_image blank (MkUpload 5 []) twice
              (MkUpload 6 []) (Rect (Pt 0 0) (Pt 2 2)) Over d)
    as (Hbal & Hnext & _).
  - reflexivity.
  - vm_compute. reflexivity.
  - split; [exact Hbal | exact Hnext].
Defined.

End Blit.

(* ================================================================== *)
(** * The screen and its windows ([screenImpl]) *)
(* ================================================================== *)

Module Screen.
Import Go Image DrawCtl Blit.
Local Open Scope drv_scope.

(** The address of a [windowImpl], and the image ids of the windows: for each
    address the [imageId] of the [uploadImpl] the window embeds.  A window
    reached through [s.w] and through [s.windows] is one object in this
    store. *)
Definition ptr : Type := nat.
Definition imageIds : Type := ptr -> Z.

(** [p.imageId = id] *)
Definition assign (heap : imageIds) (p : ptr) (id : Z) : imageIds :=
  fun q => if Nat.eqb q p then id else heap q.

(** [type screenImpl struct]; [ctl] is the controller the functions run
    on. *)
Record screenImpl : Type := MkScreen {
  w : option ptr;
  screenId : Z;
  windowFrame : Rectangle;
  windows : list ptr
}.

(** [func reAttachWindow() []byte], for the content of /dev/winname, or
    [None] where reading it fails. *)
Definition reAttachWindow (winname : option (list Z)) : result (list Z) :=
  match winname with
  | None => Panic
  | Some name =>
      bind (make (4 + 1 + len name))
        (fun buf =>
           let buf := putByte buf 4 (uint8 (len name)) in
           Ok (copyAt buf 5 name))
  end.

(** The loop [for _, win := range s.windows] of [redrawWindow]. *)
Fixpoint redrawEach (wins : list ptr) (heap : imageIds) (args : list Z)
  : M unit :=
  match wins with
  | [] => ret tt
  | win :: wins' =>
      let args := putUint32 args 4 (heap win) in
      let args := putUint32 args 8 (heap win) in
      setOp Src ;;;
      sendMessage (tag "d") args ;;;
      redrawEach wins' heap args
  end.

(** [func redrawWindow(s *screenImpl, r image.Rectangle)] *)
Definition redrawWindow (s : screenImpl) (heap : imageIds) (r : Rectangle)
  : M unit :=
  let args := repeat 0 44 in
  let args := putUint32 args 12 (uint32 (X (Min r))) in
  let args := putUint32 args 16 (uint32 (Y (Min r))) in
  let args := putUint32 args 20 (uint32 (X (Max r))) in
  let args := putUint32 args 24 (uint32 (Y (Max r))) in
  redrawEach (windows s) heap args ;;;
  sendMessage (tag "v") [].

(** Drawing every window with [Draw], one after the other. *)
Fixpoint drawEach (wins : list ptr) (heap : imageIds) (r : Rectangle) : M unit :=
  match wins with
  | [] => ret tt
  | win :: wins' =>
      Draw 0 (heap win) (heap win) r ZP ZP Src ;;; drawEach wins' heap r
  end.

Lemma redrawEach_run (heap : imageIds) (r : Rectangle) :
  forall (wins : list ptr) (a0 a1 a2 a3 b0 b1 b2 b3 : Z) (d : DrawCtrler),
    redrawEach wins heap
      ([0; 0; 0; 0] ++ [a0; a1; a2; a3] ++ [b0; b1; b2; b3] ++
       le32 (uint32 (X (Min r))) ++ le32 (uint32 (Y (Min r))) ++
       le32 (uint32 (X (Max r))) ++ le32 (uint32 (Y (Max r))) ++
       repeat 0 16) d
    = (Ok tt,
       appendWritten d
         (flat_map (fun win =>
                      drawMessages 0 (heap win) (heap win) r ZP ZP Src) wins)).
Proof.
  induction wins as [|win wins IH]; intros a0 a1 a2 a3 b0 b1 b2 b3 d.
  - cbn [redrawEach flat_map]. unfold ret, appendWritten.
    rewrite app_nil_r. now destruct d.
  - cbn [redrawEach flat_map].
    unfold bindM at 1, setOp at 1, sendMessage at 1.
    unfold bindM at 1, sendMessage at 1.
    cbn [putUint32 putByte store le32 length Nat.add firstn skipn app repeat].
    cbn [N iounitSize nextId written device reads].
    specialize (IH (heap win mod 256) ((heap win / 256) mod 256)
                  ((heap win / 65536) mod 256) ((heap win / 16777216) mod 256)
                  (heap win mod 256) ((heap win / 256) mod 256)
                  ((heap win / 65536) mod 256) ((heap win / 16777216) mod 256)).
    cbn [le32 app repeat] in IH. rewrite IH.
    unfold appendWritten, drawMessages.
    cbn [N iounitSize nextId written device reads].
    rewrite <- !app_assoc. reflexivity.
Qed.

Lemma drawEach_run (heap : imageIds) (r : Rectangle) :
  forall (wins : list ptr) (d : DrawCtrler),
    drawEach wins heap r d
    = (Ok tt,
       appendWritten d
         (flat_map (fun win =>
                      drawMessages 0 (heap win) (heap win) r ZP ZP Src) wins)).
Proof.
  induction wins as [|win wins IH]; intros d.
  - cbn [drawEach flat_map]. unfold ret, appendWritten.
    rewrite app_nil_r. now destruct d.
  - cbn [drawEach flat_map]. unfold bindM. rewrite Draw_run, IH.
    unfold appendWritten, drawMessages.
    cbn [N iounitSize nextId written device reads].
    rewrite <- !app_assoc. reflexivity.
Qed.

(** X22. [redrawWindow] writes for each window of the screen, in their
    order, what [Draw] writes for drawing the image of the window onto image
    0, the image being its own mask, into the rectangle [r], from the
    origin, with the op Src; and then the flush message 'v'. *)
Theorem redrawWindow_draws_every_window (s : screenImpl) (heap : imageIds)
  (r : Rectangle) (d : DrawCtrler) :
  redrawWindow s heap r d
  = (Ok tt,
     appendWritten d
       (flat_map (fun win =>
                    drawMessages 0 (heap win) (heap win) r ZP ZP Src)
          (windows s) ++ [[tag "v"]])) /\
  redrawWindow s heap r d
  = (drawEach (windows s) heap r ;;; sendMessage (tag "v") []) d.
Proof.
  assert (Hrun : redrawWindow s heap r d
                 = (Ok tt,
                    appendWritten d
                      (flat_map (fun win =>
                         drawMessages 0 (heap win) (heap win) r ZP ZP Src)
                         (windows s) ++ [[tag "v"]]))).
  { unfold redrawWindow. cbv zeta.
    assert (Hargs :
      putUint32
        (putUint32
           (putUint32 (putUint32 (repeat 0 44) 12 (uint32 (X (Min r)))) 16
              (uint32 (Y (Min r))))
           20 (uint32 (X (Max r))))
        24 (uint32 (Y (Max r)))
      = [0; 0; 0; 0] ++ [0; 0; 0; 0] ++ [0; 0; 0; 0] ++
        le32 (uint32 (X (Min r))) ++ le32 (uint32 (Y (Min r))) ++
        le32 (uint32 (X (Max r))) ++ le32 (uint32 (Y (Max r))) ++
        repeat 0 16) by reflexivity.
    rewrite Hargs. unfold bindM. rewrite redrawEach_run.
    unfold sendMessage, appendWritten.
    cbn [N iounitSize nextId written device reads].
    now rewrite <- app_assoc. }
  split; [exact Hrun|].
  rewrite Hrun. unfold bindM. rewrite drawEach_run.
  unfold sendMessage, appendWritten.
  cbn [N iounitSize nextId written device reads].
  now rewrite <- app_assoc.
Qed.

(** ** Resizing *)

Section Resize.

Variable refused : list (list Z) -> list Z -> bool.

(** The loop [for i, win := range s.windows] of [repositionWindow];
    [s.windows[i]] is [win]. *)
Fixpoint reallocEach (s : screenImpl) (r : Rectangle) (wins : list ptr)
  (heap : imageIds) : M imageIds :=
  match wins with
  | [] => ret heap
  | win :: wins' =>
      FreeID (heap win) ;;;
      let sz := Rect ZP (Size r) in
      id <- AllocBuffer 0 false sz sz (RGBA 0 0 0 0) ;;
      let heap := assign heap win id in
      match w s with
      | None => panic
      | Some cur =>
          let heap := if heap win =? heap cur
                      then assign heap cur (heap win)
                      else heap in
          reallocEach s r wins' heap
      end
  end.

(** [func repositionWindow(s *screenImpl, r image.Rectangle)].  The 20
    bytes of [args] it fills in are not sent. *)
Definition repositionWindow (winname : option (list Z)) (s : screenImpl)
  (heap : imageIds) (r : Rectangle) : M imageIds :=
  ReallocScreen refused (screenId s) ;;;
  name <- lift (reAttachWindow winname) ;;
  sendMessage (tag "n") name ;;;
  reallocEach s r (windows s) heap.

(** The position of a window in a list of windows. *)
Fixpoint indexOf (p : ptr) (wins : list ptr) : option nat :=
  match wins with
  | [] => None
  | win :: wins' =>
      if Nat.eqb p win then Some O
      else match indexOf p wins' with
           | Some k => Some (S k)
           | None => None
           end
  end.

(** The two messages for the [k]-th window: its image is freed, and an
    image of the size of [r] with the next id is allocated. *)
Definition reallocMessages (r : Rectangle) (heap : imageIds) (next : Z)
  (k : nat) (win : ptr) : list (list Z) :=
  let sz := Rect ZP (Size r) in
  [tag "f" :: le32 (heap win);
   tag "b" :: allocMessage (uint32 (next + Z.of_nat k + 1)) 0 false sz sz
                (RGBA 0 0 0 0)].

Fixpoint reallocLog (r : Rectangle) (heap : imageIds) (next : Z) (k : nat)
  (wins : list ptr) : list (list Z) :=
  match wins with
  | [] => []
  | win :: wins' =>
      reallocMessages r heap next k win ++ reallocLog r heap next (S k) wins'
  end.

Lemma indexOf_not_in (p : ptr) (wins : list ptr) :
  ~ In p wins -> indexOf p wins = None.
Proof.
  induction wins as [|win wins IH]; intros H; [reflexivity|].
  cbn [indexOf]. destruct (Nat.eqb_spec p win) as [-> | Hne].
  - exfalso. apply H. now left.
  - rewrite IH; [reflexivity|]. intros Hin. apply H. now right.
Qed.

Lemma reallocLog_ext (r : Rectangle) (heap heap' : imageIds) (next : Z) :
  forall (wins : list ptr) (k : nat),
    (forall p, In p wins -> heap' p = heap p) ->
    reallocLog r heap' next k wins = reallocLog r heap next k wins.
Proof.
  induction wins as [|win wins IH]; intros k H; [reflexivity|].
  cbn [reallocLog]. unfold reallocMessages.
  rewrite (H win) by now left.
  rewrite IH; [reflexivity|]. intros p Hp. apply H. now right.
Qed.

Lemma uint32_succ (n k : Z) :
  uint32 (uint32 (n + 1) + k) = uint32 (n + (k + 1)).
Proof.
  unfold uint32. rewrite Zplus_mod_idemp_l. f_equal. lia.
Qed.

Lemma reallocLog_shift (r : Rectangle) (heap : imageIds) (next : Z) :
  forall (wins : list ptr) (k : nat),
    reallocLog r heap (uint32 (next + 1)) k wins
    = reallocLog r heap next (S k) wins.
Proof.
  induction wins as [|win wins IH]; intros k; [reflexivity|].
  cbn [reallocLog]. unfold reallocMessages. rewrite IH.
  replace (uint32 (uint32 (next + 1) + Z.of_nat k + 1))
    with (uint32 (next + Z.of_nat (S k) + 1)); [reflexivity|].
  rewrite <- (Z.add_assoc (uint32 (next + 1))), uint32_succ. f_equal. lia.
Qed.

(** The assignment under [if win.imageId == s.w.imageId] stores the value
    that is there already. *)
Lemma assign_same (heap : imageIds) (win cur : ptr) (p : ptr) :
  (if heap win =? heap cur then assign heap cur (heap win) else heap) p
  = heap p.
Proof.
  destruct (heap win =? heap cur) eqn:E; [|reflexivity].
  apply Z.eqb_eq in E. unfold assign.
  destruct (Nat.eqb_spec p cur) as [-> | _]; [exact E | reflexivity].
Qed.

Lemma reallocEach_run (s : screenImpl) (r : Rectangle) (cur : ptr) :
  w s = Some cur ->
  forall (wins : list ptr) (heap : imageIds) (d : DrawCtrler),
    NoDup wins -> isUint32 (nextId d) ->
    exists heap',
      reallocEach s r wins heap d
      = (Ok heap',
         MkCtrler (N d) (iounitSize d)
           (uint32 (nextId d + Z.of_nat (length wins)))
           (written d ++ reallocLog r heap (nextId d) O wins)
           (device d) (reads d)) /\
      forall p,
        heap' p = match indexOf p wins with
                  | Some k => uint32 (nextId d + Z.of_nat k + 1)
                  | None => heap p
                  end.
Proof.
  intros Hcur.
  induction wins as [|win wins IH]; intros heap d Hnodup Hnext.
  - exists heap. split; [|reflexivity].
    cbn [reallocEach reallocLog length Z.of_nat]. unfold ret.
    rewrite app_nil_r, Z.add_0_r.
    unfold uint32. rewrite Z.mod_small by exact Hnext. now destruct d.
  - inversion Hnodup as [|? ? Hnotin Hnodup']; subst.
    cbn [reallocEach]. rewrite Hcur.
    unfold bindM at 1. rewrite FreeID_run.
    unfold bindM at 1. rewrite AllocBuffer_run.
    cbn [N iounitSize nextId written device reads].
    set (id := uint32 (nextId d + 1)).
    set (heap1 := assign heap win id).
    set (heap2 := if heap1 win =? heap1 cur
                  then assign heap1 cur (heap1 win) else heap1).
    set (d1 := MkCtrler _ _ _ _ _ _).
    destruct (IH heap2 d1 Hnodup' (uint32_range _)) as (heap' & Hrun & Hheap).
    exists heap'. split.
    + rewrite Hrun. unfold d1.
      cbn [N iounitSize nextId written device reads length].
      f_equal. f_equal.
      * unfold id. rewrite uint32_succ. f_equal. lia.
      * assert (Hlog : reallocLog r heap2 id O wins
                       = reallocLog r heap (nextId d) 1 wins).
        { unfold id. rewrite reallocLog_shift.
          apply reallocLog_ext. intros p Hp.
          unfold heap2. rewrite assign_same. unfold heap1, assign.
          destruct (Nat.eqb_spec p win) as [-> | _];
            [contradiction | reflexivity]. }
        rewrite Hlog. cbn [reallocLog]. unfold reallocMessages.
        change (Z.of_nat 0) with 0. rewrite Z.add_0_r. fold id.
        rewrite <- !app_assoc. reflexivity.
    + intros p. rewrite Hheap. cbn [indexOf nextId d1].
      destruct (Nat.eqb_spec p win) as [-> | Hne].
      * rewrite (indexOf_not_in win wins Hnotin).
        unfold heap2. rewrite assign_same. unfold heap1, assign.
        rewrite Nat.eqb_refl. fold id. unfold id. f_equal. lia.
      * destruct (indexOf p wins) as [k|].
        -- fold id. unfold id. rewrite <- Z.add_assoc, uint32_succ.
           f_equal. lia.
        -- unfold heap2. rewrite assign_same. unfold heap1, assign.
           apply Nat.eqb_neq in Hne. now rewrite Hne.
Qed.

Lemma ReallocScreen_run (id : Z) (d : DrawCtrler) :
  snd (ReallocScreen refused id d)
  = appendWritten d
      [tag "F" :: le32 id; tag "A" :: le32 id ++ repeat 0 9].
Proof.
  unfold ReallocScreen, bindM, sendMessageErr, sendMessage, appendWritten.
  cbn [snd N iounitSize nextId written device reads].
  now rewrite <- app_assoc.
Qed.

(** The bytes of the 'n' message for a window name. *)
Lemma reAttachWindow_bytes (name : list Z) :
  reAttachWindow (Some name)
  = Ok ([0; 0; 0; 0; uint8 (len name)] ++ name).
Proof.
  unfold reAttachWindow. rewrite make_nonneg by (pose proof (LZ77.len_nonneg name); lia).
  replace (Z.to_nat (4 + 1 + len name)) with (5 + length name)%nat
    by (unfold len; lia).
  cbn [bind]. unfold putByte, store, copyAt.
  cbn [repeat Nat.add firstn skipn length app].
  do 6 f_equal. unfold copy.
  rewrite repeat_length, Nat.min_id, firstn_all, skipn_all2
    by (rewrite repeat_length; lia).
  apply app_nil_r.
Qed.

(** X23. [repositionWindow], for a screen with a current window whose
    windows are listed once, writes the messages that free and allocate the
    screen (what the device answers is not looked at), the 'n' message that
    attaches the window by its name, and for each window of the screen, in
    their order, the free of its image and the allocation of a new one of
    the size of [r].  Afterwards window number [k] holds the [(k + 1)]-th id
    from the counter, every other window its old image, and the counter has
    advanced by the number of windows. *)
Theorem repositionWindow_gives_every_window_a_new_image
  (name : list Z) (s : screenImpl) (cur : ptr) (heap : imageIds)
  (r : Rectangle) (d : DrawCtrler) :
  w s = Some cur -> NoDup (windows s) -> isUint32 (nextId d) ->
  exists heap',
    repositionWindow (Some name) s heap r d
    = (Ok heap',
       MkCtrler (N d) (iounitSize d)
         (uint32 (nextId d + Z.of_nat (length (windows s))))
         (written d ++
          [tag "F" :: le32 (screenId s);
           tag "A" :: le32 (screenId s) ++ repeat 0 9;
           tag "n" :: [0; 0; 0; 0; uint8 (len name)] ++ name] ++
          reallocLog r heap (nextId d) O (windows s))
         (device d) (reads d)) /\
    forall p,
      heap' p = match indexOf p (windows s) with
                | Some k => uint32 (nextId d + Z.of_nat k + 1)
                | None => heap p
                end.
Proof.
  intros Hcur Hnodup Hnext.
  unfold repositionWindow.
  unfold bindM at 1.
  pose proof (ReallocScreen_run (screenId s) d) as Hscreen.
  destruct (ReallocScreen refused (screenId s) d) as [[err | |] d0] eqn:E;
    try discriminate E.
  cbn [snd] in Hscreen. subst d0. clear E. unfold appendWritten.
  unfold bindM at 1, lift at 1. rewrite reAttachWindow_bytes.
  unfold bindM at 1, sendMessage at 1.
  cbn [N iounitSize nextId written device reads].
  set (d1 := MkCtrler _ _ _ _ _ _).
  destruct (reallocEach_run s r cur Hcur (windows s) heap d1 Hnodup Hnext)
    as (heap' & Hrun & Hheap).
  exists heap'. split; [|exact Hheap].
  rewrite Hrun. unfold d1. cbn [N iounitSize nextId written device reads].
  rewrite <- !app_assoc. reflexivity.
Qed.

End Resize.

Lemma repositionWindow_gives_every_window_a_new_image_witness :
  let d := NewDrawCtrler 1 1000 (fun _ => Reply [] false) in
  let s := MkScreen (Some 0%nat) 7 (Rect ZP ZP) [0%nat; 1%nat] in
  exists heap',
    fst (repositionWindow (fun _ _ => false) (Some [119; 49]) s
           (fun p => 10 + Z.of_nat p) (Rect (Pt 0 0) (Pt 4 4)) d) = Ok heap' /\
    heap' 0%nat = 3 /\ heap' 1%nat = 4 /\ heap' 2%nat = 12.
Proof.
  intros d s.
  destruct (repositionWindow_gives_every_window_a_new_image
              (fun _ _ => false) [119; 49] s 0%nat
              (fun p => 10 + Z.of_nat p) (Rect (Pt 0 0) (Pt 4 4)) d)
    as (heap' & Hrun & Hheap).
  - reflexivity.
  - constructor; [intros [H | []]; discriminate|].
    constructor; [intros []|constructor].
  - unfold isUint32. cbn. lia.
  - exists heap'. rewrite Hrun. split; [reflexivity|].
    rewrite !Hheap. repeat split; reflexivity.
Defined.

End Screen.
